(** * WaveFT adapter layer (peft/tuners/waveft/layer.py)

    A shallow embedding of [WaveFTLayer] and [WaveFTLinear]: the per-adapter
    dictionaries, the sparse index sampling of [update_layer], the dense
    delta of [get_delta_weight] (direct and IDWT mode) and the
    merge / unmerge / forward state machine.

    Numbers.  Tensor entries are integers extended with the IEEE non-finite
    values.  An addition or a multiplication rounds its exact result to the
    float format it is computed in -- to nearest, ties to even -- and
    overflows to infinity beyond the range of the format; fractions are not
    modelled.  The Python float [scaling] is a finite integer.  Python
    integers are [Z]; [//] and [%] are [Z.div] and [Z.modulo], which floor
    like Python's. *)

From Stdlib Require Import ZArith Lia.
From stdpp Require Import base gmap strings list.

Open Scope Z_scope.

(** ** Scalars *)

Inductive scalar : Type :=
| Fin (z : Z)
| Inf (negative : bool)
| NaN.

Definition isfinite (a : scalar) : bool :=
  match a with Fin _ => true | _ => false end.

Inductive dtype : Type := float16 | bfloat16 | float32 | float64.

#[export] Instance dtype_eq_dec : EqDecision dtype.
Proof. solve_decision. Defined.

(** [torch.promote_types] on the floating types. *)
Definition promote_types (a b : dtype) : dtype :=
  match a, b with
  | float64, _ | _, float64 => float64
  | float32, _ | _, float32 => float32
  | float16, float16 => float16
  | bfloat16, bfloat16 => bfloat16
  | float16, bfloat16 | bfloat16, float16 => float32
  end.

(** The number of significand bits of a format and the exponent of its
    overflow threshold: a float is [m * 2^e] with [|m| < 2^precision], and
    [2^emax] is the least power of two that is out of range. *)
Definition precision (d : dtype) : Z :=
  match d with float16 => 11 | bfloat16 => 8 | float32 => 24 | float64 => 53 end.

Definition emax (d : dtype) : Z :=
  match d with float16 => 16 | bfloat16 => 128 | float32 => 128 | float64 => 1024 end.

(** Round a magnitude to [p] significant bits: to nearest, ties to even. *)
Definition round_magnitude (p a : Z) : Z :=
  if bool_decide (a < 2 ^ p) then a
  else
    let ulp := 2 ^ (Z.log2 a - (p - 1)) in
    let q := a `div` ulp in
    let r := a `mod` ulp in
    if bool_decide (2 * r < ulp) then q * ulp
    else if bool_decide (ulp < 2 * r) then (q + 1) * ulp
    else if Z.even q then q * ulp else (q + 1) * ulp.

(** The float of format [d] that an exact integer result is rounded to; a
    rounded magnitude of [2^emax] or more overflows to infinity. *)
Definition round (d : dtype) (z : Z) : scalar :=
  let a := round_magnitude (precision d) (Z.abs z) in
  if bool_decide (2 ^ emax d ≤ a) then Inf (bool_decide (z < 0))
  else Fin (Z.sgn z * a).

(** One entry cast to the format [d]. *)
Definition cast (d : dtype) (a : scalar) : scalar :=
  match a with Fin z => round d z | _ => a end.

(** [a + b], [- a], [a - b] and [a * b] computed in the format [d]. *)
Definition fadd (d : dtype) (a b : scalar) : scalar :=
  match a, b with
  | NaN, _ | _, NaN => NaN
  | Fin x, Fin y => round d (x + y)
  | Fin _, Inf s | Inf s, Fin _ => Inf s
  | Inf s, Inf t => if Bool.eqb s t then Inf s else NaN
  end.

Definition sneg (a : scalar) : scalar :=
  match a with
  | Fin x => Fin (- x)
  | Inf s => Inf (negb s)
  | NaN => NaN
  end.

Definition fsub (d : dtype) (a b : scalar) : scalar := fadd d a (sneg b).

Definition fmul (d : dtype) (a b : scalar) : scalar :=
  match a, b with
  | NaN, _ | _, NaN => NaN
  | Fin x, Fin y => round d (x * y)
  | Fin x, Inf s | Inf s, Fin x =>
      match x ?= 0 with
      | Eq => NaN
      | Gt => Inf s
      | Lt => Inf (negb s)
      end
  | Inf s, Inf t => Inf (xorb s t)
  end.

(** The arithmetic of float32, the format of the spectrum that
    [update_layer] creates and so of every delta weight. *)
Definition sadd : scalar → scalar → scalar := fadd float32.
Definition smul : scalar → scalar → scalar := fmul float32.


(** Closeness and size of entries: [within t a b] says that both are finite
    and at most [t] apart, [magnitude_le b a] that [a] is finite and of
    magnitude at most [b]. *)
Definition within (t : Z) (a b : scalar) : Prop :=
  match a, b with
  | Fin x, Fin y => Z.abs (x - y) ≤ t
  | _, _ => False
  end.

Definition magnitude_le (b : Z) (a : scalar) : Prop :=
  match a with
  | Fin x => Z.abs x ≤ b
  | _ => False
  end.

#[export] Instance within_dec t a b : Decision (within t a b).
Proof. destruct a, b; simpl; apply _. Defined.

#[export] Instance magnitude_le_dec b a : Decision (magnitude_le b a).
Proof. destruct a; simpl; apply _. Defined.

(** ** Errors and results

    Every failure of the source is a Python exception; the constructors keep
    the data its message is formatted from. *)

Inductive error : Type :=
| ValueError_n_frequency_not_positive (n_frequency : Z)
| ValueError_n_frequency_too_large (n_frequency product : Z)
| ValueError_unsupported_wavelet (wavelet_family : string) (supported_wavelets : list string)
| ValueError_nans_detected (active_adapter : string)
| KeyError (key : string)
| AttributeError (name : string)
| ValueError_unsupported_layer
| IndexError
| RuntimeError_shape
| RuntimeError_dtype.

Inductive result (A : Type) : Type :=
| Ok (a : A)
| Raise (e : error).
Arguments Ok {A} a.
Arguments Raise {A} e.

#[export] Instance result_ret : MRet result := λ A a, Ok a.
#[export] Instance result_bind : MBind result := λ A B f r,
  match r with
  | Ok a => f a
  | Raise e => Raise e
  end.

#[export] Instance result_fmap : FMap result := λ A B f r,
  match r with
  | Ok a => Ok (f a)
  | Raise e => Raise e
  end.

(** ** Matrices and tensors *)

Abbreviation matrix := (list (list scalar)).

Record tensor (A : Type) : Type := Tensor { dtype_of : dtype; data : A }.
Arguments Tensor {A} dtype_of data.
Arguments dtype_of {A} t.
Arguments data {A} t.

(** [t.to(dtype)]: the tag changes and the entries are kept; the rounding of
    a cast to a narrower format is [cast], applied where a sum is written
    back in place. *)
Definition to {A} (d : dtype) (t : tensor A) : tensor A := Tensor d (data t).

(** [m.shape[0]] and [m.shape[1]]. *)
Definition shape0 (m : matrix) : Z := Z.of_nat (length m).
Definition shape1 (m : matrix) : Z :=
  match m with
  | [] => 0
  | row :: _ => Z.of_nat (length row)
  end.

(** A rectangular matrix of [r] rows and [c] columns. *)
Definition has_shape (m : matrix) (r c : Z) : Prop :=
  Z.of_nat (length m) = r ∧ Forall (λ row, Z.of_nat (length row) = c) m.

#[export] Instance has_shape_dec m r c : Decision (has_shape m r c).
Proof. unfold has_shape. apply _. Defined.

Definition same_shape (a b : matrix) : bool :=
  bool_decide (length a = length b) &&
  forallb (λ p, bool_decide (length p.1 = length p.2)) (zip a b).

Definition get2 (m : matrix) (i j : nat) : option scalar :=
  row ← m !! i; row !! j.

(** [torch.zeros(r, c)]. *)
Definition zeros (r c : Z) : matrix :=
  replicate (Z.to_nat r) (replicate (Z.to_nat c) (Fin 0)).

(** Python indexing of a dimension of size [size]: negative positions count
    from the end, anything outside raises [IndexError]. *)
Definition norm_index (i size : Z) : result nat :=
  if bool_decide (0 ≤ i < size) then Ok (Z.to_nat i)
  else if bool_decide (- size ≤ i < 0) then Ok (Z.to_nat (i + size))
  else Raise IndexError.

(** [m[r, c] = v]. *)
Definition set2 (m : matrix) (r c : Z) (v : scalar) : result matrix :=
  i ← norm_index r (shape0 m);
  j ← norm_index c (shape1 m);
  Ok (alter (λ row, <[j := v]> row) i m).

(** [m[rows, cols] = vals] with index tensors: the writes happen in order, so
    a later write to the same cell wins. *)
Fixpoint index_put (m : matrix) (rows cols : list Z) (vals : list scalar) : result matrix :=
  match rows, cols, vals with
  | [], [], [] => Ok m
  | r :: rows', c :: cols', v :: vals' =>
      m' ← set2 m r c v; index_put m' rows' cols' vals'
  | _, _, _ => Raise RuntimeError_shape
  end.

(** [m * k] for a Python number [k]. *)
Definition mscale (m : matrix) (k : Z) : matrix :=
  map (map (λ a, smul a (Fin k))) m.

(** An elementwise operation on two matrices; the shapes must agree
    (broadcasting is not modelled: a mismatch raises). *)
Definition mzip (f : scalar → scalar → scalar) (a b : matrix) : result matrix :=
  if same_shape a b then Ok (zip_with (zip_with f) a b)
  else Raise RuntimeError_shape.

(** Every entry finite and of magnitude at most [b]; entry by entry at most
    [t] apart. *)
Definition bounded (b : Z) (m : matrix) : Prop := Forall (Forall (magnitude_le b)) m.
Definition close (t : Z) (m1 m2 : matrix) : Prop := Forall2 (Forall2 (within t)) m1 m2.

#[export] Instance bounded_dec b m : Decision (bounded b m).
Proof. unfold bounded. apply _. Defined.

#[export] Instance close_dec t m1 m2 : Decision (close t m1 m2).
Proof. unfold close. apply _. Defined.

(** [torch.isfinite(m).all()]. *)
Definition isfinite_all (m : matrix) : bool := forallb (forallb isfinite) m.

(** Python slice [l[start:stop]]: an omitted bound is the corresponding end,
    a negative bound counts from the end, and every bound is clamped to
    [0, len]. *)
Definition slice_bound (i : Z) (len : nat) : nat :=
  if bool_decide (i < 0) then Z.to_nat (Z.max 0 (i + Z.of_nat len))
  else Z.to_nat (Z.min i (Z.of_nat len)).

Definition py_slice {A} (start stop : option Z) (l : list A) : list A :=
  let a := from_option (λ i, slice_bound i (length l)) 0%nat start in
  let b := from_option (λ i, slice_bound i (length l)) (length l) stop in
  take (b - a)%nat (drop a l).

(** [m[r0:r1, c0:c1]]. *)
Definition slice2 (m : matrix) (r0 r1 c0 c1 : option Z) : matrix :=
  map (py_slice c0 c1) (py_slice r0 r1 m).

(** [l[mask]] for a boolean mask. *)
Fixpoint mask_select {A} (mask : list bool) (l : list A) : result (list A) :=
  match mask, l with
  | [], [] => Ok []
  | b :: mask', x :: l' =>
      rest ← mask_select mask' l'; Ok (if b : bool then x :: rest else rest)
  | _, _ => Raise IndexError
  end.

(** ** Python dictionaries

    The per-adapter dictionaries are finite maps keyed by the adapter name;
    [d[k]] raises [KeyError] on a missing key.  The class constant
    [WAVELET_REDUCTIONS] is kept as the literal it is written as, because
    the error message of [update_layer] lists its keys in that order. *)

Definition getitem {V} (d : gmap string V) (k : string) : result V :=
  match d !! k with
  | Some v => Ok v
  | None => Raise (KeyError k)
  end.

(** [d[k]] on an [nn.ParameterDict], which keeps its entries as attributes
    of the module: a key that was never set fails in the attribute lookup,
    with an [AttributeError]. *)
Definition parameter_getitem {V} (d : gmap string V) (k : string) : result V :=
  match d !! k with
  | Some v => Ok v
  | None => Raise (AttributeError k)
  end.

Fixpoint assoc {V} (d : list (string * V)) (k : string) : option V :=
  match d with
  | [] => None
  | (k', v) :: d' => if String.eqb k k' then Some v else assoc d' k
  end.

(** Reduction amounts for different wavelet families. *)
Definition WAVELET_REDUCTIONS : list (string * (Z * Z)) :=
  [
    ("db1", (0, 0)); ("db2", (2, 2)); ("db3", (4, 4)); ("db4", (6, 6)); ("db5", (8, 8));
    ("db6", (10, 10)); ("db7", (12, 12)); ("db8", (14, 14)); ("db9", (16, 16)); ("db10", (18, 18));
    ("db11", (20, 20)); ("db12", (22, 22)); ("db13", (24, 24)); ("db14", (26, 26)); ("db15", (28, 28));
    ("db16", (30, 30)); ("db17", (32, 32)); ("db18", (34, 34)); ("db19", (36, 36)); ("db20", (38, 38));
    ("db21", (40, 40)); ("db22", (42, 42)); ("db23", (44, 44)); ("db24", (46, 46)); ("db25", (48, 48));
    ("db26", (50, 50)); ("db27", (52, 52)); ("db28", (54, 54)); ("db29", (56, 56)); ("db30", (58, 58));
    ("db31", (60, 60)); ("db32", (62, 62)); ("db33", (64, 64)); ("db34", (66, 66)); ("db35", (68, 68));
    ("db36", (70, 70)); ("db37", (72, 72)); ("db38", (74, 74)); ("sym2", (2, 2)); ("sym3", (4, 4));
    ("sym4", (6, 6)); ("sym5", (8, 8)); ("sym6", (10, 10)); ("sym7", (12, 12)); ("sym8", (14, 14));
    ("sym9", (16, 16)); ("sym10", (18, 18)); ("sym11", (20, 20)); ("sym12", (22, 22)); ("sym13", (24, 24));
    ("sym14", (26, 26)); ("sym15", (28, 28)); ("sym16", (30, 30)); ("sym17", (32, 32)); ("sym18", (34, 34));
    ("sym19", (36, 36)); ("sym20", (38, 38)); ("coif1", (4, 4)); ("coif2", (10, 10)); ("coif3", (16, 16));
    ("coif4", (22, 22)); ("coif5", (28, 28)); ("coif6", (34, 34)); ("coif7", (40, 40)); ("coif8", (46, 46));
    ("coif9", (52, 52)); ("coif10", (58, 58)); ("coif11", (64, 64)); ("coif12", (70, 70)); ("coif13", (76, 76));
    ("coif14", (82, 82)); ("coif15", (88, 88)); ("coif16", (94, 94)); ("coif17", (100, 100))
  ].

(** ** The layer

    One record field per attribute of [WaveFTLayer]; the weight of the wrapped
    base layer sits next to them, since merge and unmerge write to it. *)

Record layer : Type := Layer {
  base_weight : tensor matrix; (* [base_layer.weight.data], of shape (out_features, in_features) *)
  waveft_n_frequency : gmap string Z;
  waveft_scaling : gmap string Z;
  waveft_spectrum : gmap string (tensor (list scalar)); (* the trainable parameters *)
  waveft_wavelet_family : gmap string string;
  indices : gmap string (list Z * list Z); (* row 0 and row 1 of the 2 x n_frequency index tensor *)
  waveft_random_loc_seed : gmap string Z;
  disable_adapters : bool; (* [_disable_adapters] *)
  merged_adapters : list string; (* a Python list: [append] adds at the end, [pop] takes from the end *)
  kwargs : gmap string bool; (* only the flag [use_idwt] is ever read *)
  in_features : Z;
  out_features : Z;
  active_adapters : list string; (* [_active_adapter], as the list the property of that name returns *)
  fan_in_fan_out : option bool (* written by [WaveFTLinear.__init__], not there before *)
}.

Definition set_base_weight (v : tensor matrix) (self : layer) : layer :=
  {| base_weight := v;
     waveft_n_frequency := waveft_n_frequency self;
     waveft_scaling := waveft_scaling self;
     waveft_spectrum := waveft_spectrum self;
     waveft_wavelet_family := waveft_wavelet_family self;
     indices := indices self;
     waveft_random_loc_seed := waveft_random_loc_seed self;
     disable_adapters := disable_adapters self;
     merged_adapters := merged_adapters self;
     kwargs := kwargs self;
     in_features := in_features self;
     out_features := out_features self;
     active_adapters := active_adapters self;
     fan_in_fan_out := fan_in_fan_out self |}.

Definition set_waveft_n_frequency (v : gmap string Z) (self : layer) : layer :=
  {| base_weight := base_weight self;
     waveft_n_frequency := v;
     waveft_scaling := waveft_scaling self;
     waveft_spectrum := waveft_spectrum self;
     waveft_wavelet_family := waveft_wavelet_family self;
     indices := indices self;
     waveft_random_loc_seed := waveft_random_loc_seed self;
     disable_adapters := disable_adapters self;
     merged_adapters := merged_adapters self;
     kwargs := kwargs self;
     in_features := in_features self;
     out_features := out_features self;
     active_adapters := active_adapters self;
     fan_in_fan_out := fan_in_fan_out self |}.

Definition set_waveft_scaling (v : gmap string Z) (self : layer) : layer :=
  {| base_weight := base_weight self;
     waveft_n_frequency := waveft_n_frequency self;
     waveft_scaling := v;
     waveft_spectrum := waveft_spectrum self;
     waveft_wavelet_family := waveft_wavelet_family self;
     indices := indices self;
     waveft_random_loc_seed := waveft_random_loc_seed self;
     disable_adapters := disable_adapters self;
     merged_adapters := merged_adapters self;
     kwargs := kwargs self;
     in_features := in_features self;
     out_features := out_features self;
     active_adapters := active_adapters self;
     fan_in_fan_out := fan_in_fan_out self |}.

Definition set_waveft_spectrum (v : gmap string (tensor (list scalar))) (self : layer) : layer :=
  {| base_weight := base_weight self;
     waveft_n_frequency := waveft_n_frequency self;
     waveft_scaling := waveft_scaling self;
     waveft_spectrum := v;
     waveft_wavelet_family := waveft_wavelet_family self;
     indices := indices self;
     waveft_random_loc_seed := waveft_random_loc_seed self;
     disable_adapters := disable_adapters self;
     merged_adapters := merged_adapters self;
     kwargs := kwargs self;
     in_features := in_features self;
     out_features := out_features self;
     active_adapters := active_adapters self;
     fan_in_fan_out := fan_in_fan_out self |}.

Definition set_waveft_wavelet_family (v : gmap string string) (self : layer) : layer :=
  {| base_weight := base_weight self;
     waveft_n_frequency := waveft_n_frequency self;
     waveft_scaling := waveft_scaling self;
     waveft_spectrum := waveft_spectrum self;
     waveft_wavelet_family := v;
     indices := indices self;
     waveft_random_loc_seed := waveft_random_loc_seed self;
     disable_adapters := disable_adapters self;
     merged_adapters := merged_adapters self;
     kwargs := kwargs self;
     in_features := in_features self;
     out_features := out_features self;
     active_adapters := active_adapters self;
     fan_in_fan_out := fan_in_fan_out self |}.

Definition set_indices (v : gmap string (list Z * list Z)) (self : layer) : layer :=
  {| base_weight := base_weight self;
     waveft_n_frequency := waveft_n_frequency self;
     waveft_scaling := waveft_scaling self;
     waveft_spectrum := waveft_spectrum self;
     waveft_wavelet_family := waveft_wavelet_family self;
     indices := v;
     waveft_random_loc_seed := waveft_random_loc_seed self;
     disable_adapters := disable_adapters self;
     merged_adapters := merged_adapters self;
     kwargs := kwargs self;
     in_features := in_features self;
     out_features := out_features self;
     active_adapters := active_adapters self;
     fan_in_fan_out := fan_in_fan_out self |}.

Definition set_waveft_random_loc_seed (v : gmap string Z) (self : layer) : layer :=
  {| base_weight := base_weight self;
     waveft_n_frequency := waveft_n_frequency self;
     waveft_scaling := waveft_scaling self;
     waveft_spectrum := waveft_spectrum self;
     waveft_wavelet_family := waveft_wavelet_family self;
     indices := indices self;
     waveft_random_loc_seed := v;
     disable_adapters := disable_adapters self;
     merged_adapters := merged_adapters self;
     kwargs := kwargs self;
     in_features := in_features self;
     out_features := out_features self;
     active_adapters := active_adapters self;
     fan_in_fan_out := fan_in_fan_out self |}.

Definition set_merged_adapters (v : list string) (self : layer) : layer :=
  {| base_weight := base_weight self;
     waveft_n_frequency := waveft_n_frequency self;
     waveft_scaling := waveft_scaling self;
     waveft_spectrum := waveft_spectrum self;
     waveft_wavelet_family := waveft_wavelet_family self;
     indices := indices self;
     waveft_random_loc_seed := waveft_random_loc_seed self;
     disable_adapters := disable_adapters self;
     merged_adapters := v;
     kwargs := kwargs self;
     in_features := in_features self;
     out_features := out_features self;
     active_adapters := active_adapters self;
     fan_in_fan_out := fan_in_fan_out self |}.

Definition set_active_adapters (v : list string) (self : layer) : layer :=
  {| base_weight := base_weight self;
     waveft_n_frequency := waveft_n_frequency self;
     waveft_scaling := waveft_scaling self;
     waveft_spectrum := waveft_spectrum self;
     waveft_wavelet_family := waveft_wavelet_family self;
     indices := indices self;
     waveft_random_loc_seed := waveft_random_loc_seed self;
     disable_adapters := disable_adapters self;
     merged_adapters := merged_adapters self;
     kwargs := kwargs self;
     in_features := in_features self;
     out_features := out_features self;
     active_adapters := v;
     fan_in_fan_out := fan_in_fan_out self |}.

Definition set_disable_adapters (v : bool) (self : layer) : layer :=
  {| base_weight := base_weight self;
     waveft_n_frequency := waveft_n_frequency self;
     waveft_scaling := waveft_scaling self;
     waveft_spectrum := waveft_spectrum self;
     waveft_wavelet_family := waveft_wavelet_family self;
     indices := indices self;
     waveft_random_loc_seed := waveft_random_loc_seed self;
     disable_adapters := v;
     merged_adapters := merged_adapters self;
     kwargs := kwargs self;
     in_features := in_features self;
     out_features := out_features self;
     active_adapters := active_adapters self;
     fan_in_fan_out := fan_in_fan_out self |}.

Definition set_fan_in_fan_out (v : option bool) (self : layer) : layer :=
  {| base_weight := base_weight self;
     waveft_n_frequency := waveft_n_frequency self;
     waveft_scaling := waveft_scaling self;
     waveft_spectrum := waveft_spectrum self;
     waveft_wavelet_family := waveft_wavelet_family self;
     indices := indices self;
     waveft_random_loc_seed := waveft_random_loc_seed self;
     disable_adapters := disable_adapters self;
     merged_adapters := merged_adapters self;
     kwargs := kwargs self;
     in_features := in_features self;
     out_features := out_features self;
     active_adapters := active_adapters self;
     fan_in_fan_out := v |}.

(** ** External collaborators

    The tensor library's random generators, the wavelet reconstruction kernel
    ([waverec2d], imported from a module of its own) and the forward pass of
    the wrapped base layer are used through their interface only. *)

Abbreviation coeffs := (tensor matrix * (tensor matrix * tensor matrix * tensor matrix))%type.

Class Collaborators : Type := {
  generator : Type;
  (** [torch.Generator().manual_seed(seed)] *)
  manual_seed : Z → generator;
  (** [torch.randperm(n, generator=g)] *)
  randperm : Z → generator → list Z;
  (** entry [i] of [torch.empty(n)]: whatever the allocator left there *)
  empty_entry : nat → scalar;
  (** entry [i] of [torch.randn(n) * std_dev], drawn from the global generator *)
  randn_entry : nat → scalar;
  (** [waverec2d(coeffs, wavelet_family)] *)
  waverec2d : coeffs → string → tensor matrix;
  (** [base_layer(x)], which reads the current base weight *)
  base_layer_forward : tensor matrix → tensor matrix → tensor matrix
}.

(** [torch.randperm] "returns a random permutation of integers from 0 to
    n - 1"; which one is up to the generator it is given. *)
Definition randperm_contract `{!Collaborators} : Prop :=
  ∀ seed n, 0 ≤ n → randperm n (manual_seed seed) ≡ₚ seqZ 0 n.

(** Modelled from the spec: [waverec2d] comes from a module of this package
    whose source is not available; its contract is "input sub-bands have
    matching shape (r, c); output shape is (≥2r, ≥2c) determined by the
    family's filter length". *)
Definition waverec2d_shape_contract `{!Collaborators} : Prop :=
  ∀ (cA cH cV cD : tensor matrix) (family : string) (r c : Z),
    has_shape (data cA) r c → has_shape (data cH) r c →
    has_shape (data cV) r c → has_shape (data cD) r c →
    ∃ R C, 2 * r ≤ R ∧ 2 * c ≤ C ∧
           has_shape (data (waverec2d (cA, (cH, cV, cD)) family)) R C.

Definition all_zero (m : matrix) : Prop :=
  Forall (Forall (λ a, a = Fin 0)) m.

(** The reconstruction of all-zero sub-bands is all zero (true of any linear
    reconstruction; assumed where a statement needs it). *)
Definition waverec2d_zero_contract `{!Collaborators} : Prop :=
  ∀ (cA cH cV cD : tensor matrix) (family : string),
    all_zero (data cA) → all_zero (data cH) →
    all_zero (data cV) → all_zero (data cD) →
    all_zero (data (waverec2d (cA, (cH, cV, cD)) family)).

(** The base layers [WaveFTLayer.__init__] knows how to read dimensions from. *)
Inductive base_layer : Type :=
| Linear (in_features out_features : Z) (weight : tensor matrix)
| Conv1D (weight : tensor matrix) (ds_shape : option (Z * Z))
| OtherModule (weight : tensor matrix).

(** ** Methods

    A method runs on a layer and returns its outcome together with the layer
    as the call left it; after a [Raise] that is the state at the point of
    the exception. *)

Definition method (A : Type) : Type := layer → result A * layer.

#[export] Instance method_ret : MRet method := λ A a self, (Ok a, self).
#[export] Instance method_bind : MBind method := λ A B f m self,
  match m self with
  | (Ok a, self') => f a self'
  | (Raise e, self') => (Raise e, self')
  end.

Definition raise {A} (e : error) : method A := λ self, (Raise e, self).
Definition get_self : method layer := λ self, (Ok self, self).
Definition modify (f : layer → layer) : method unit := λ self, (Ok (), f self).
Definition lift {A} (r : result A) : method A := λ self, (r, self).

(** ** WaveFTLayer *)

(** [WaveFTLayer.__init__(base_layer, **kwargs)].  [active] is the
    [_active_adapter] attribute the instance starts with. *)
Definition WaveFTLayer_init (base : base_layer) (kw : gmap string bool)
    (active : list string) : result layer :=
  let new weight in_features out_features :=
    {| base_weight := weight;
       waveft_n_frequency := ∅;
       waveft_scaling := ∅;
       waveft_spectrum := ∅;
       waveft_wavelet_family := ∅;
       indices := ∅;
       waveft_random_loc_seed := ∅;
       disable_adapters := false;
       merged_adapters := [];
       kwargs := kw;
       in_features := in_features;
       out_features := out_features;
       active_adapters := active;
       fan_in_fan_out := None |} in
  match base with
  | Linear in_features out_features weight => Ok (new weight in_features out_features)
  | Conv1D weight ds_shape =>
      let '(in_features, out_features) :=
        match ds_shape with
        | Some shape => shape
        | None => (shape0 (data weight), shape1 (data weight))
        end in
      Ok (new weight in_features out_features)
  | OtherModule _ => Raise ValueError_unsupported_layer
  end.

(** [nn.init.zeros_]. *)
Definition zeros_ (p : tensor (list scalar)) : tensor (list scalar) :=
  Tensor (dtype_of p) (map (λ _, Fin 0) (data p)).

Definition reset_wave_parameters (adapter_name : string) : method unit :=
  self ← get_self;
  match waveft_spectrum self !! adapter_name with
  | Some p => modify (set_waveft_spectrum (<[adapter_name := zeros_ p]> (waveft_spectrum self)))
  | None => mret ()
  end.

(** Modelled from the spec: [_move_adapter_to_device_of_base_layer] of the
    base class [BaseTunerLayer] (peft.tuners.tuners_utils, source not
    available); the specification counts "device/dtype placement utilities"
    among the external collaborators, and placement is no part of the
    modelled state. *)
Definition _move_adapter_to_device_of_base_layer (adapter_name : string) : method unit :=
  mret ().

(** Modelled from the spec: [set_adapter] of the base class [BaseTunerLayer]
    (peft.tuners.tuners_utils, source not available); the layer state holds
    "a set of currently active adapter names", and the call installs the
    names it is given as that set. *)
Definition set_adapter (adapter_names : list string) : method unit :=
  modify (set_active_adapters adapter_names).

(** [update_layer].  The three checks at its head raise the configuration
    errors of the method, before anything is written.  What follows them
    calls into torch: [manual_seed] and the assignment to the
    [nn.ParameterDict] are taken to accept the seed and the adapter name
    they are given (torch refuses a seed outside 64 bits, and a name that is
    empty or contains a dot), so that here the method returns once the
    checks have passed. *)
Definition update_layer `{!Collaborators} (adapter_name : string) (n_frequency scaling : Z)
    (init_weights : bool) (random_loc_seed : Z) (wavelet_family : string) : method unit :=
  self ← get_self;
  if bool_decide (n_frequency ≤ 0) then
    raise (ValueError_n_frequency_not_positive n_frequency)
  else if bool_decide (n_frequency > in_features self * out_features self) then
    raise (ValueError_n_frequency_too_large n_frequency (in_features self * out_features self))
  else if bool_decide (assoc WAVELET_REDUCTIONS wavelet_family = None) then
    let supported_wavelets := WAVELET_REDUCTIONS.*1 in
    raise (ValueError_unsupported_wavelet wavelet_family supported_wavelets)
  else
    modify (λ self, set_waveft_n_frequency
                      (<[adapter_name := n_frequency]> (waveft_n_frequency self)) self);;
    modify (λ self, set_waveft_random_loc_seed
                      (<[adapter_name := random_loc_seed]> (waveft_random_loc_seed self)) self);;
    modify (λ self, set_waveft_wavelet_family
                      (<[adapter_name := wavelet_family]> (waveft_wavelet_family self)) self);;
    (* Get the expanded dimensions based on wavelet family *)
    _ ← lift (from_option Ok (Raise (KeyError wavelet_family))
                (assoc WAVELET_REDUCTIONS wavelet_family));
    (* Generate random indices within the original dimensions *)
    self ← get_self;
    seed ← lift (getitem (waveft_random_loc_seed self) adapter_name);
    let generator := manual_seed seed in
    let sampled := take (Z.to_nat n_frequency)
                     (randperm (out_features self * in_features self) generator) in
    (* Convert to row, col format for the original dimensions *)
    modify (λ self, set_indices
                      (<[adapter_name := (map (λ v, v `div` in_features self) sampled,
                                          map (λ v, v `mod` in_features self) sampled)]>
                         (indices self)) self);;
    modify (λ self, set_waveft_scaling
                      (<[adapter_name := scaling]> (waveft_scaling self)) self);;
    (if init_weights then
       modify (λ self, set_waveft_spectrum
                         (<[adapter_name :=
                              Tensor float32 (map empty_entry (seq 0 (Z.to_nat n_frequency)))]>
                            (waveft_spectrum self)) self);;
       reset_wave_parameters adapter_name
     else
       modify (λ self, set_waveft_spectrum
                         (<[adapter_name :=
                              Tensor float32 (map randn_entry (seq 0 (Z.to_nat n_frequency)))]>
                            (waveft_spectrum self)) self));;
    _move_adapter_to_device_of_base_layer adapter_name;;
    self ← get_self;
    set_adapter (active_adapters self).

(** *** get_delta_weight *)

(** The padded size of one dimension: the reduction is added and the sum made
    even. *)
Definition padded_features (features reduction : Z) : Z :=
  let padded := features + reduction in
  if bool_decide (padded `mod` 2 ≠ 0) then padded + 1 else padded.

(** The offset that centres the original data in the padded matrix. *)
Definition padding_offset (padded features : Z) : Z := (padded - features) `div` 2.

Definition shift_indices (indices : list Z * list Z) (row_offset col_offset : Z) : list Z * list Z :=
  (map (λ r, r + row_offset) indices.1, map (λ c, c + col_offset) indices.2).

(** [(padded_indices[0, :] < padded_out_features) & (padded_indices[1, :] < padded_in_features)] *)
Definition valid_mask (padded_indices : list Z * list Z)
    (padded_out_features padded_in_features : Z) : list bool :=
  zip_with andb (map (λ r, bool_decide (r < padded_out_features)) padded_indices.1)
                (map (λ c, bool_decide (c < padded_in_features)) padded_indices.2).

(** The padded dense spectrum matrix, with the spectrum values placed at the
    shifted indices that pass the bounds filter. *)
Definition padded_dense_spectrum (out_features in_features : Z) (reduction : Z * Z)
    (spectrum : tensor (list scalar)) (indices : list Z * list Z) : result (tensor matrix) :=
  let '(reduction_rows, reduction_cols) := reduction in
  let padded_out_features := padded_features out_features reduction_rows in
  let padded_in_features := padded_features in_features reduction_cols in
  let dense_spectrum := zeros padded_out_features padded_in_features in
  let row_offset := padding_offset padded_out_features out_features in
  let col_offset := padding_offset padded_in_features in_features in
  let padded_indices := shift_indices indices row_offset col_offset in
  let mask := valid_mask padded_indices padded_out_features padded_in_features in
  valid_rows ← mask_select mask padded_indices.1;
  valid_cols ← mask_select mask padded_indices.2;
  valid_spectrum ← mask_select mask (data spectrum);
  dense_spectrum ← index_put dense_spectrum valid_rows valid_cols valid_spectrum;
  Ok (Tensor (dtype_of spectrum) dense_spectrum).

(** Split into four sub-bands: the wavelet-coefficient tuple [(cA, (cH, cV, cD))]. *)
Definition sub_bands (dense_spectrum : tensor matrix) : coeffs :=
  let H := shape0 (data dense_spectrum) in
  let W := shape1 (data dense_spectrum) in
  let H2 := H `div` 2 in
  let W2 := W `div` 2 in
  let quadrant r0 r1 c0 c1 :=
    Tensor (dtype_of dense_spectrum) (slice2 (data dense_spectrum) r0 r1 c0 c1) in
  let cA := quadrant None (Some H2) None (Some W2) in
  let cH := quadrant None (Some H2) (Some W2) None in
  let cV := quadrant (Some H2) None None (Some W2) in
  let cD := quadrant (Some H2) None (Some W2) None in
  (cA, (cH, cV, cD)).

Definition tscale (t : tensor matrix) (k : Z) : tensor matrix :=
  Tensor (dtype_of t) (mscale (data t) k).

(** Ensure the delta weight has exactly the correct dimensions: a centred crop
    when the shape differs, the matrix itself otherwise. *)
Definition center_crop (out_features in_features : Z) (delta_weight : tensor matrix) : tensor matrix :=
  if bool_decide (shape0 (data delta_weight) ≠ out_features ∨
                  shape1 (data delta_weight) ≠ in_features) then
    let start_row := (shape0 (data delta_weight) - out_features) `div` 2 in
    let start_col := (shape1 (data delta_weight) - in_features) `div` 2 in
    Tensor (dtype_of delta_weight)
      (slice2 (data delta_weight)
         (Some start_row) (Some (start_row + out_features))
         (Some start_col) (Some (start_col + in_features)))
  else delta_weight.

Definition get_delta_weight `{!Collaborators} (self : layer) (adapter : string) : result (tensor matrix) :=
  spectrum ← parameter_getitem (waveft_spectrum self) adapter;
  indices ← getitem (indices self) adapter;
  wavelet_family ← getitem (waveft_wavelet_family self) adapter;
  (* Choose whether to use IDWT or direct spectrum based on kwargs *)
  if default true (kwargs self !! "use_idwt") then
    reduction ← from_option Ok (Raise (KeyError wavelet_family))
                  (assoc WAVELET_REDUCTIONS wavelet_family);
    dense_spectrum ← padded_dense_spectrum (out_features self) (in_features self)
                       reduction spectrum indices;
    let coeffs := sub_bands dense_spectrum in
    scaling ← getitem (waveft_scaling self) adapter;
    let delta_weight := tscale (waverec2d coeffs wavelet_family) scaling in
    Ok (center_crop (out_features self) (in_features self) delta_weight)
  else
    dense_spectrum ← index_put (zeros (out_features self) (in_features self))
                       indices.1 indices.2 (data spectrum);
    scaling ← getitem (waveft_scaling self) adapter;
    Ok (Tensor (dtype_of spectrum) (mscale dense_spectrum scaling)).

(** ** WaveFTLinear *)

(** [WaveFTLinear.__init__]: [use_idwt] is passed on through [kwargs] so that
    [get_delta_weight] finds it; [fan_in_fan_out] is stored, and no method of
    this file reads it. *)
Definition WaveFTLinear_init `{!Collaborators} (base : base_layer) (adapter_name : string)
    (n_frequency scaling : Z) (fan_in_fan_out init_weights : bool) (random_loc_seed : Z)
    (wavelet_family : string) (use_idwt : bool) (kw : gmap string bool) : result layer :=
  let kw := <["use_idwt" := use_idwt]> kw in
  self ← WaveFTLayer_init base kw [adapter_name];
  let self := set_fan_in_fan_out (Some fan_in_fan_out) self in
  match update_layer adapter_name n_frequency scaling init_weights random_loc_seed
          wavelet_family self with
  | (Ok _, self) => Ok self
  | (Raise e, _) => Raise e
  end.

(** Modelled from the spec: the property [merged] of the base class
    [BaseTunerLayer] (peft.tuners.tuners_utils, source not available):
    "derived boolean state merged := mergedAdapters non-empty". *)
Definition merged (self : layer) : bool := bool_decide (merged_adapters self ≠ []).

(** Modelled from the spec: [check_adapters_to_merge], the adapter-resolution
    collaborator (peft.tuners.tuners_utils, source not available): "given a
    requested list of adapter names (or none, meaning all active), returns the
    filtered subset that should actually be merged (excluding already-merged
    ones), or empty list if nothing qualifies". *)
Definition check_adapters_to_merge (self : layer) (adapter_names : option (list string)) : list string :=
  let adapter_names := default (active_adapters self) adapter_names in
  filter (λ name, name ∉ merged_adapters self) adapter_names.

(** In-place [a += b] and [a -= b]: computed in the promoted format and cast
    back, so that the left operand keeps its dtype. *)
Definition iadd (a b : tensor matrix) : result (tensor matrix) :=
  let op x y := cast (dtype_of a) (fadd (promote_types (dtype_of a) (dtype_of b)) x y) in
  d ← mzip op (data a) (data b); Ok (Tensor (dtype_of a) d).
Definition isub (a b : tensor matrix) : result (tensor matrix) :=
  let op x y := cast (dtype_of a) (fsub (promote_types (dtype_of a) (dtype_of b)) x y) in
  d ← mzip op (data a) (data b); Ok (Tensor (dtype_of a) d).

(** [for x in xs: body(x)] *)
Fixpoint for_each {A} (body : A → method unit) (xs : list A) : method unit :=
  match xs with
  | [] => mret ()
  | x :: xs' => body x;; for_each body xs'
  end.

(** The body of the loop of [merge]. *)
Definition merge_adapter `{!Collaborators} (safe_merge : bool) (active_adapter : string) : method unit :=
  self ← get_self;
  if bool_decide (is_Some (waveft_spectrum self !! active_adapter)) then
    (if safe_merge then
       (* the merge is performed in a copy of the original weights *)
       let orig_weights := base_weight self in
       delta_weight ← lift (get_delta_weight self active_adapter);
       orig_weights ← lift (iadd orig_weights delta_weight);
       if negb (isfinite_all (data orig_weights)) then
         raise (ValueError_nans_detected active_adapter)
       else modify (set_base_weight orig_weights)
     else
       delta_weight ← lift (get_delta_weight self active_adapter);
       weight ← lift (iadd (base_weight self) delta_weight);
       modify (set_base_weight weight));;
    modify (λ self, set_merged_adapters (merged_adapters self ++ [active_adapter]) self)
  else mret ().

Definition merge `{!Collaborators} (safe_merge : bool) (adapter_names : option (list string)) : method unit :=
  self ← get_self;
  let adapter_names := check_adapters_to_merge self adapter_names in
  match adapter_names with
  | [] => mret () (* no adapter to merge *)
  | _ => for_each (merge_adapter safe_merge) adapter_names
  end.

(** [l.pop()]: the last element and the list without it. *)
Definition pop {A} (l : list A) : option (A * list A) :=
  match reverse l with
  | [] => None
  | x :: r => Some (x, reverse r)
  end.

(** [while len(self.merged_adapters) > 0: ...]; every iteration pops one name,
    so [unmerge] starts the loop with the length of the list as fuel. *)
Fixpoint unmerge_loop `{!Collaborators} (fuel : nat) : method unit :=
  self ← get_self;
  match fuel, pop (merged_adapters self) with
  | S fuel', Some (active_adapter, rest) =>
      modify (set_merged_adapters rest);;
      (if bool_decide (is_Some (waveft_spectrum self !! active_adapter)) then
         self ← get_self;
         delta_weight ← lift (get_delta_weight self active_adapter);
         weight ← lift (isub (base_weight self) delta_weight);
         modify (set_base_weight weight)
       else mret ());;
      unmerge_loop fuel'
  | _, _ => mret ()
  end.

Definition unmerge `{!Collaborators} : method unit :=
  self ← get_self;
  if negb (merged self) then
    mret () (* warns "Already unmerged. Nothing to do." *)
  else unmerge_loop (length (merged_adapters self)).

(** [F.linear(x, w)]: each row of [x] against each row of [w]. *)
Definition dot (u v : list scalar) : scalar := foldr sadd (Fin 0) (zip_with smul u v).

Definition F_linear (x w : tensor matrix) : result (tensor matrix) :=
  if bool_decide (dtype_of x ≠ dtype_of w) then Raise RuntimeError_dtype
  else if forallb (λ row, bool_decide (Z.of_nat (length row) = shape1 (data w))) (data x) then
    Ok (Tensor (dtype_of x) (map (λ xrow, map (dot xrow) (data w)) (data x)))
  else Raise RuntimeError_shape.

(** [a + b] on tensors, with type promotion. *)
Definition tadd (a b : tensor matrix) : result (tensor matrix) :=
  let promoted := promote_types (dtype_of a) (dtype_of b) in
  d ← mzip (fadd promoted) (data a) (data b); Ok (Tensor promoted d).

(** The loop over the active adapters in [forward]; it carries [x], which is
    re-assigned by the cast, and [result]. *)
Fixpoint forward_adapters `{!Collaborators} (names : list string)
    (x result : tensor matrix) : method (tensor matrix) :=
  match names with
  | [] => mret result
  | active_adapter :: names' =>
      self ← get_self;
      if bool_decide (waveft_spectrum self !! active_adapter = None) then
        forward_adapters names' x result
      else
        delta_w ← lift (get_delta_weight self active_adapter);
        let x := to (dtype_of delta_w) x in
        contribution ← lift (F_linear x delta_w);
        result ← lift (tadd result contribution);
        forward_adapters names' x result
  end.

Definition forward `{!Collaborators} (x : tensor matrix) : method (tensor matrix) :=
  let previous_dtype := dtype_of x in
  self ← get_self;
  result ←
    (if disable_adapters self then
       (if merged self then unmerge else mret ());;
       self ← get_self;
       mret (base_layer_forward (base_weight self) x)
     else if merged self then
       mret (base_layer_forward (base_weight self) x)
     else
       let result := base_layer_forward (base_weight self) x in
       forward_adapters (active_adapters self) x result);
  mret (to previous_dtype result).

(** ** The representation invariant

    What [__init__] and [update_layer] establish and every method keeps: the
    dimensions are no negative numbers, and every adapter has its entry in
    each dictionary, as many index pairs as spectrum values, and distinct
    index pairs inside the grid of the weight. *)

Definition wf_adapter (self : layer) (name : string) (spectrum : tensor (list scalar)) : Prop :=
  match waveft_n_frequency self !! name, waveft_scaling self !! name,
        waveft_wavelet_family self !! name, indices self !! name with
  | Some n_frequency, Some _, Some wavelet_family, Some (rows, cols) =>
      is_Some (assoc WAVELET_REDUCTIONS wavelet_family) ∧
      0 < n_frequency ∧
      Z.of_nat (length (data spectrum)) = n_frequency ∧
      length rows = length (data spectrum) ∧
      length cols = length (data spectrum) ∧
      Forall (λ r, 0 ≤ r < out_features self) rows ∧
      Forall (λ c, 0 ≤ c < in_features self) cols ∧
      NoDup (zip rows cols)
  | _, _, _, _ => False
  end.

Definition wf_layer (self : layer) : Prop :=
  0 ≤ in_features self ∧ 0 ≤ out_features self ∧
  map_Forall (wf_adapter self) (waveft_spectrum self).

#[export] Instance wf_adapter_dec self name spectrum : Decision (wf_adapter self name spectrum).
Proof.
  unfold wf_adapter.
  destruct (waveft_n_frequency self !! name); [|apply _].
  destruct (waveft_scaling self !! name); [|apply _].
  destruct (waveft_wavelet_family self !! name); [|apply _].
  destruct (indices self !! name) as [[rows cols]|]; apply _.
Defined.

#[export] Instance wf_layer_dec self : Decision (wf_layer self).
Proof. unfold wf_layer. apply _. Defined.

(** An optimizer step: the spectrum of an existing adapter gets new values;
    nothing else of the layer is trained. *)
Definition train (name : string) (values : list scalar) (self : layer) : layer :=
  match waveft_spectrum self !! name with
  | Some p =>
      if bool_decide (length values = length (data p)) then
        set_waveft_spectrum (<[name := Tensor (dtype_of p) values]> (waveft_spectrum self)) self
      else self
  | None => self
  end.


(** The delta weight of every configured adapter has finite entries only. *)
Definition finite_deltas `{!Collaborators} (self : layer) : Prop :=
  map_Forall (λ adapter _,
                match get_delta_weight self adapter with
                | Ok delta_weight => isfinite_all (data delta_weight) = true
                | Raise _ => True
                end) (waveft_spectrum self).

#[export] Instance finite_deltas_dec `{!Collaborators} self : Decision (finite_deltas self).
Proof.
  unfold finite_deltas. apply map_Forall_dec. intros adapter _.
  destruct (get_delta_weight self adapter); apply _.
Defined.

(** ** The forward pass as the specification words it

    A three-state dispatch whose adapter term is a sum over the active
    adapters that are configured, each applied to the input itself. *)

Definition contribution `{!Collaborators} (self : layer) (x : tensor matrix)
    (adapter : string) : result (tensor matrix) :=
  delta_w ← get_delta_weight self adapter;
  F_linear (to (dtype_of delta_w) x) delta_w.

Definition add_contributions `{!Collaborators} (self : layer) (x : tensor matrix)
    (adapters : list string) (base : tensor matrix) : result (tensor matrix) :=
  foldl (λ acc adapter, result ← acc; c ← contribution self x adapter; tadd result c)
        (Ok base) adapters.

Definition forward_spec `{!Collaborators} (x : tensor matrix) : method (tensor matrix) := λ self,
  if disable_adapters self then
    if merged self then
      match unmerge self with
      | (Ok _, self') => (Ok (to (dtype_of x) (base_layer_forward (base_weight self') x)), self')
      | (Raise e, self') => (Raise e, self')
      end
    else (Ok (to (dtype_of x) (base_layer_forward (base_weight self) x)), self)
  else if merged self then
    (Ok (to (dtype_of x) (base_layer_forward (base_weight self) x)), self)
  else
    let configured := filter (λ a, is_Some (waveft_spectrum self !! a)) (active_adapters self) in
    (to (dtype_of x) <$> add_contributions self x configured (base_layer_forward (base_weight self) x),
     self).

(** ** Contracts and frames of the further properties *)

(** Every configured adapter has a delta weight whose entries are finite and
    of magnitude at most [b]. *)
Definition deltas_bounded `{!Collaborators} (b : Z) (self : layer) : Prop :=
  map_Forall (λ adapter _,
                match get_delta_weight self adapter with
                | Ok delta_weight => bounded b (data delta_weight)
                | Raise _ => True
                end) (waveft_spectrum self).

#[export] Instance deltas_bounded_dec `{!Collaborators} b self : Decision (deltas_bounded b self).
Proof.
  unfold deltas_bounded. apply map_Forall_dec. intros adapter _.
  destruct (get_delta_weight self adapter); unfold bounded; apply _.
Defined.

(** The base weight with the delta weights of [adapters] added to it, one
    after the other. *)
Definition add_deltas `{!Collaborators} (self : layer) (adapters : list string)
    (weight : tensor matrix) : result (tensor matrix) :=
  foldl (λ acc adapter,
           weight ← acc; delta_weight ← get_delta_weight self adapter; iadd weight delta_weight)
        (Ok weight) adapters.

(** The [ValueError]s of the validation at the head of [update_layer]. *)
Definition is_configuration_error (e : error) : bool :=
  match e with
  | ValueError_n_frequency_not_positive _
  | ValueError_n_frequency_too_large _ _
  | ValueError_unsupported_wavelet _ _ => true
  | _ => false
  end.


(** ** A concrete instance

    Small stand-ins for the collaborators, and a few layers, on which the
    definitions can be run. *)

Module Sample.

(** The rows of the four sub-bands put back side by side: an output of
    shape (2r, 2c), all zero on all-zero sub-bands. *)
Definition reassemble (c : coeffs) (family : string) : tensor matrix :=
  let '(cA, (cH, cV, cD)) := c in
  Tensor (dtype_of cA)
    (zip_with app (data cA) (data cH) ++ zip_with app (data cV) (data cD)).

(** A plain linear map without bias as the base layer. *)
Definition linear_forward (weight x : tensor matrix) : tensor matrix :=
  match F_linear (to (dtype_of weight) x) weight with
  | Ok y => y
  | Raise _ => Tensor (dtype_of weight) []
  end.

#[export] Instance collaborators : Collaborators := {|
  generator := Z;
  manual_seed seed := seed;
  randperm n g := rotate (Z.to_nat g) (seqZ 0 n);
  empty_entry i := NaN;
  randn_entry i := Fin (Z.of_nat i + 1);
  waverec2d := reassemble;
  base_layer_forward := linear_forward
|}.

Definition fin_matrix (m : list (list Z)) : matrix := map (map Fin) m.

Definition base : base_layer :=
  Linear 4 3 (Tensor float32 (fin_matrix [[1; 2; 3; 4]; [5; 6; 7; 8]; [9; 10; 11; 12]])).

Definition blank (use_idwt : bool) : layer :=
  match WaveFTLayer_init base {["use_idwt" := use_idwt]} ["default"] with
  | Ok self => self
  | Raise _ => Layer (Tensor float32 []) ∅ ∅ ∅ ∅ ∅ ∅ false [] ∅ 0 0 [] None
  end.

(** One adapter, three coefficients, random initial spectrum [1; 2; 3]. *)
Definition one_adapter (use_idwt : bool) (family : string) : layer :=
  (update_layer "default" 3 2 false 777 family (blank use_idwt)).2.

(** Two adapters, both active. *)
Definition two_adapters (use_idwt : bool) : layer :=
  (set_adapter ["default"; "other"]
     (update_layer "other" 2 5 false 42 "db1" (one_adapter use_idwt "db2")).2).2.

(** The second adapter has caught a NaN in its spectrum. *)
Definition broken_other (use_idwt : bool) : layer :=
  train "other" [Fin 1; NaN] (two_adapters use_idwt).

(** The first adapter is merged already. *)
Definition merged_default (use_idwt : bool) : layer :=
  (merge false (Some ["default"]) (two_adapters use_idwt)).2.

(** A base weight at 2^25, where neighbouring float32 values are 4 apart;
    the delta of the adapter has the entries 2, 4 and 6. *)
Definition heavy : layer :=
  set_base_weight (Tensor float32 (replicate 3 (replicate 4 (Fin (2 ^ 25)))))
    (one_adapter false "db1").

(** A base weight and a delta at 2^127: their sum is beyond float32. *)
Definition huge : layer :=
  train "default" (replicate 3 (Fin (2 ^ 126)))
    (set_base_weight (Tensor float32 (replicate 3 (replicate 4 (Fin (2 ^ 127)))))
       (one_adapter false "db1")).

Definition x : tensor matrix := Tensor float16 (fin_matrix [[1; 0; 2; 1]; [0; 1; 0; 3]]).

Definition unwrap {A} (fallback : A) (r : result A) : A :=
  match r with Ok a => a | Raise _ => fallback end.

End Sample.

(** * Proofs *)

#[local] Opaque WAVELET_REDUCTIONS.
Ltac rbind := cbn [mbind result_bind from_option].
Ltac run := unfold mbind, method_bind, mret, method_ret, raise, get_self, modify, lift; simpl.

Lemma has_shape_zeros r c : 0 ≤ r → has_shape (zeros r c) r (Z.max 0 c).
Proof.
  intros Hr. unfold has_shape, zeros. rewrite length_replicate. split; [lia|].
  apply Forall_replicate. rewrite length_replicate. lia.
Qed.

Lemma get2_zeros r c (i j : nat) :
  Z.of_nat i < r → Z.of_nat j < c → get2 (zeros r c) i j = Some (Fin 0).
Proof.
  intros Hi Hj. unfold get2, zeros.
  rewrite lookup_replicate_2 by lia. simpl.
  apply lookup_replicate_2. lia.
Qed.

Lemma norm_index_ok i size : 0 ≤ i < size → norm_index i size = Ok (Z.to_nat i).
Proof. intros Hi. unfold norm_index. by rewrite bool_decide_eq_true_2. Qed.

Lemma has_shape_shape0 m r c : has_shape m r c → shape0 m = r.
Proof. by intros [? _]. Qed.

Lemma has_shape_shape1 m r c : has_shape m r c → 0 < r → shape1 m = c.
Proof.
  intros [Hl Hrows] Hr. destruct m as [|row m]; simpl in *; [lia|].
  by inversion Hrows.
Qed.

Lemma has_shape_lookup m r c (i : nat) row :
  has_shape m r c → m !! i = Some row → Z.of_nat (length row) = c.
Proof. intros [_ Hrows] Hi. eapply Forall_lookup_1 in Hrows; eauto. Qed.

Lemma has_shape_alter m r c (i j : nat) v :
  has_shape m r c → has_shape (alter (λ row, <[j := v]> row) i m) r c.
Proof.
  intros [Hl Hrows]. split; [by rewrite length_alter|].
  apply Forall_alter; [done|]. intros row _ Hrow. by rewrite length_insert.
Qed.

Lemma get2_alter_eq (m : matrix) (i j : nat) v row :
  m !! i = Some row → (j < length row)%nat →
  get2 (alter (λ row, <[j := v]> row) i m) i j = Some v.
Proof.
  intros Hi Hj. unfold get2. rewrite list_lookup_alter_eq, Hi. simpl.
  by apply list_lookup_insert_eq.
Qed.

Lemma get2_alter_ne (m : matrix) (i j i' j' : nat) v :
  (i, j) ≠ (i', j') →
  get2 (alter (λ row, <[j := v]> row) i m) i' j' = get2 m i' j'.
Proof.
  intros Hne. unfold get2. destruct (decide (i = i')) as [->|Hi].
  - rewrite list_lookup_alter_eq. destruct (m !! i') as [row|]; simpl; [|done].
    apply list_lookup_insert_ne. congruence.
  - by rewrite list_lookup_alter_ne.
Qed.

Lemma set2_ok m R C r c v :
  has_shape m R C → 0 ≤ r < R → 0 ≤ c < C →
  set2 m r c v = Ok (alter (λ row, <[Z.to_nat c := v]> row) (Z.to_nat r) m).
Proof.
  intros Hm Hr Hc. unfold set2.
  rewrite (has_shape_shape0 _ _ _ Hm), (has_shape_shape1 _ _ _ Hm) by lia.
  by rewrite !norm_index_ok.
Qed.

(** Scattering values at distinct in-range positions: every value lands on
    its cell and every other cell keeps its content. *)
Lemma index_put_spec rows : ∀ cols vals m R C,
  has_shape m R C →
  length cols = length rows → length vals = length rows →
  Forall (λ r, 0 ≤ r < R) rows → Forall (λ c, 0 ≤ c < C) cols →
  NoDup (zip rows cols) →
  ∃ m', index_put m rows cols vals = Ok m' ∧ has_shape m' R C ∧
    (∀ (k : nat) r c v, rows !! k = Some r → cols !! k = Some c → vals !! k = Some v →
       get2 m' (Z.to_nat r) (Z.to_nat c) = Some v) ∧
    (∀ i j : nat, (Z.of_nat i, Z.of_nat j) ∉ zip rows cols → get2 m' i j = get2 m i j).
Proof.
  induction rows as [|r rows IH]; intros cols vals m R C Hm Hlc Hlv Hr Hc Hnd.
  - destruct cols, vals; try discriminate. exists m. simpl.
    split_and!; [done|done| |done]. intros k ????. by rewrite lookup_nil.
  - destruct cols as [|c cols], vals as [|v vals]; try discriminate.
    simpl in Hlc, Hlv. inversion Hr as [|?? Hr0 Hr']; subst.
    inversion Hc as [|?? Hc0 Hc']; subst. simpl in Hnd. inversion Hnd as [|?? Hnin Hnd']; subst.
    simpl. rewrite (set2_ok _ R C) by done. simpl.
    destruct (IH cols vals (alter (λ row, <[Z.to_nat c := v]> row) (Z.to_nat r) m) R C)
      as (m' & Hput & Hm' & Hhit & Hmiss); auto using has_shape_alter; try lia.
    exists m'. split_and!; [done|done| |].
    + intros [|k] r1 c1 v1 Hk1 Hk2 Hk3; simpl in *.
      * injection Hk1 as <-. injection Hk2 as <-. injection Hk3 as <-.
        rewrite Hmiss by (rewrite !Z2Nat.id by lia; done).
        destruct (lookup_lt_is_Some_2 m (Z.to_nat r)) as [row Hrow]; [destruct Hm; lia|].
        eapply get2_alter_eq; [done|].
        pose proof (has_shape_lookup _ _ _ _ _ Hm Hrow). lia.
      * eauto.
    + intros i j Hnin2. rewrite Hmiss.
      * apply get2_alter_ne. intros [= <- <-]. apply Hnin2.
        rewrite !Z2Nat.id by lia. left.
      * intros Hin. apply Hnin2. by right.
Qed.

Lemma get2_mscale m k i j : get2 (mscale m k) i j = (λ a, smul a (Fin k)) <$> get2 m i j.
Proof.
  unfold get2, mscale. rewrite list_lookup_fmap.
  destruct (m !! i) as [row|]; simpl; [|done]. by rewrite list_lookup_fmap.
Qed.

Lemma has_shape_mscale m k r c : has_shape m r c → has_shape (mscale m k) r c.
Proof.
  intros [Hl Hrows]. unfold mscale. split; [by rewrite length_map|].
  apply Forall_fmap. eapply Forall_impl; [done|]. intros row Hrow. simpl. by rewrite length_map.
Qed.

Section AdapterInvariant.
Context `{!Collaborators}.

(** What the invariant says about one configured adapter. *)
Lemma wf_layer_adapter self adapter spectrum :
  wf_layer self → waveft_spectrum self !! adapter = Some spectrum →
  ∃ n_frequency scaling wavelet_family rows cols reduction,
    waveft_n_frequency self !! adapter = Some n_frequency ∧
    waveft_scaling self !! adapter = Some scaling ∧
    waveft_wavelet_family self !! adapter = Some wavelet_family ∧
    indices self !! adapter = Some (rows, cols) ∧
    assoc WAVELET_REDUCTIONS wavelet_family = Some reduction ∧
    0 < n_frequency ∧
    Z.of_nat (length (data spectrum)) = n_frequency ∧
    length rows = length (data spectrum) ∧
    length cols = length (data spectrum) ∧
    Forall (λ r, 0 ≤ r < out_features self) rows ∧
    Forall (λ c, 0 ≤ c < in_features self) cols ∧
    NoDup (zip rows cols) ∧
    0 < out_features self ∧ 0 < in_features self.
Proof.
  intros (_ & _ & Hall) Hsp. specialize (Hall adapter spectrum Hsp). unfold wf_adapter in Hall.
  destruct (waveft_n_frequency self !! adapter) as [n|]; [|done].
  destruct (waveft_scaling self !! adapter) as [k|]; [|done].
  destruct (waveft_wavelet_family self !! adapter) as [fam|]; [|done].
  destruct (indices self !! adapter) as [[rows cols]|]; [|done].
  destruct Hall as ([red Hred] & Hn & Hlen & Hlr & Hlc & Hr & Hc & Hnd).
  exists n, k, fam, rows, cols, red. split_and!; try done.
  - destruct rows as [|r rows]; [simpl in *; lia|]. inversion Hr; lia.
  - destruct cols as [|c cols]; [simpl in *; lia|]. inversion Hc; lia.
Qed.

End AdapterInvariant.

(** *** Slices *)

Lemma py_slice_take {A} (b : Z) (l : list A) :
  0 ≤ b → py_slice None (Some b) l = take (Z.to_nat b) l.
Proof.
  intros Hb. unfold py_slice, slice_bound. simpl.
  rewrite bool_decide_eq_false_2 by lia. rewrite Nat.sub_0_r, drop_0.
  destruct (decide (b ≤ Z.of_nat (length l))).
  - by rewrite Z.min_l by lia.
  - rewrite Z.min_r by lia. rewrite Nat2Z.id. rewrite !take_ge; [done|lia..].
Qed.

Lemma py_slice_drop {A} (a : Z) (l : list A) :
  0 ≤ a → py_slice (Some a) None l = drop (Z.to_nat a) l.
Proof.
  intros Ha. unfold py_slice, slice_bound. simpl.
  rewrite bool_decide_eq_false_2 by lia.
  destruct (decide (a ≤ Z.of_nat (length l))).
  - rewrite Z.min_l by lia. apply take_ge. rewrite length_drop. lia.
  - rewrite Z.min_r by lia. rewrite Nat2Z.id. rewrite !drop_ge by lia. by rewrite take_nil.
Qed.

Lemma py_slice_window {A} (a b : Z) (l : list A) :
  0 ≤ a → a ≤ b → b ≤ Z.of_nat (length l) →
  py_slice (Some a) (Some b) l = take (Z.to_nat (b - a)) (drop (Z.to_nat a) l).
Proof.
  intros Ha Hab Hb. unfold py_slice, slice_bound. simpl.
  rewrite !bool_decide_eq_false_2 by lia. rewrite !Z.min_l by lia.
  f_equal. lia.
Qed.

Lemma lookup_window {A} (a n : nat) (l : list A) (i : nat) :
  (i < n)%nat → take n (drop a l) !! i = l !! (a + i)%nat.
Proof. intros Hi. rewrite lookup_take_lt by done. apply lookup_drop. Qed.

Lemma length_window {A} (a n : nat) (l : list A) :
  (a + n ≤ length l)%nat → length (take n (drop a l)) = n.
Proof. intros Hl. rewrite length_take, length_drop. lia. Qed.

(** A window of a rectangular matrix. *)
Lemma has_shape_window m R C (r0 h c0 w : Z) :
  has_shape m R C → 0 ≤ r0 → 0 ≤ h → r0 + h ≤ R → 0 ≤ c0 → 0 ≤ w → c0 + w ≤ C →
  has_shape (slice2 m (Some r0) (Some (r0 + h)) (Some c0) (Some (c0 + w))) h w.
Proof.
  intros [Hl Hrows] ??????. unfold slice2.
  rewrite py_slice_window by lia. split.
  - rewrite length_map, length_window; lia.
  - apply Forall_fmap. apply Forall_take, Forall_drop.
    eapply Forall_impl; [done|]. intros row Hrow. simpl in *.
    rewrite py_slice_window by lia. rewrite length_window; lia.
Qed.

Lemma get2_window m R C (r0 h c0 w : Z) (i j : nat) :
  has_shape m R C → 0 ≤ r0 → 0 ≤ h → r0 + h ≤ R → 0 ≤ c0 → 0 ≤ w → c0 + w ≤ C →
  Z.of_nat i < h → Z.of_nat j < w →
  get2 (slice2 m (Some r0) (Some (r0 + h)) (Some c0) (Some (c0 + w))) i j =
  get2 m (Z.to_nat r0 + i) (Z.to_nat c0 + j).
Proof.
  intros Hm ?????? Hi Hj. unfold slice2, get2.
  rewrite list_lookup_fmap. rewrite py_slice_window by (destruct Hm; lia).
  rewrite lookup_window by lia.
  destruct (m !! (Z.to_nat r0 + i)%nat) as [row|] eqn:Hrow; simpl; [|done].
  pose proof (has_shape_lookup _ _ _ _ _ Hm Hrow).
  rewrite py_slice_window by lia. apply lookup_window. lia.
Qed.

(** The four quadrants of a matrix with even sides. *)
Lemma has_shape_quadrant m R C (top left : bool) :
  has_shape m (2 * R) (2 * C) → 0 ≤ R → 0 ≤ C →
  has_shape
    (slice2 m (if top then None else Some R) (if top then Some R else None)
              (if left then None else Some C) (if left then Some C else None)) R C.
Proof.
  intros [Hl Hrows] HR HC. unfold slice2. split.
  - rewrite length_map. destruct top.
    + rewrite py_slice_take by done. rewrite length_take. lia.
    + rewrite py_slice_drop by done. rewrite length_drop. lia.
  - apply Forall_fmap.
    assert (Forall (λ row : list scalar, Z.of_nat (length row) = 2 * C)
              (py_slice (if top then None else Some R) (if top then Some R else None) m)) as Hsub.
    { destruct top.
      - rewrite py_slice_take by done. by apply Forall_take.
      - rewrite py_slice_drop by done. by apply Forall_drop. }
    eapply Forall_impl; [done|]. intros row Hrow. simpl in *. destruct left.
    + rewrite py_slice_take by done. rewrite length_take. lia.
    + rewrite py_slice_drop by done. rewrite length_drop. lia.
Qed.

(** *** The reduction table *)

Lemma assoc_elem_of {V} (d : list (string * V)) k v : assoc d k = Some v → (k, v) ∈ d.
Proof.
  induction d as [|[k' v'] d IH]; simpl; [done|].
  destruct (String.eqb_spec k k') as [->|Hne].
  - intros [= ->]. left.
  - intros Hd. right. auto.
Qed.

Lemma reductions_nonneg family reduction_rows reduction_cols :
  assoc WAVELET_REDUCTIONS family = Some (reduction_rows, reduction_cols) →
  0 ≤ reduction_rows ∧ 0 ≤ reduction_cols.
Proof.
  intros Hfam%assoc_elem_of.
  assert (Forall (λ e : string * (Z * Z), 0 ≤ e.2.1 ∧ 0 ≤ e.2.2) WAVELET_REDUCTIONS) as Hall.
  { apply (bool_decide_unpack _). vm_compute. exact I. }
  by apply (proj1 (Forall_forall _ _) Hall) in Hfam.
Qed.

(** *** Padding arithmetic *)

Lemma padded_features_spec features reduction :
  let padded := padded_features features reduction in
  features + reduction ≤ padded ≤ features + reduction + 1 ∧ padded `mod` 2 = 0.
Proof.
  unfold padded_features. simpl. case_bool_decide as Hodd.
  - split; [lia|]. 
    pose proof (Z.mod_pos_bound (features + reduction) 2 ltac:(lia)).
    rewrite <- Z.add_mod_idemp_l by lia.
    replace ((features + reduction) `mod` 2) with 1 by lia. done.
  - split; [lia|]. destruct (decide ((features + reduction) `mod` 2 = 0)); [done|]. by destruct Hodd.
Qed.

Lemma shifted_index_in_range features reduction i :
  0 ≤ reduction → 0 ≤ i < features →
  let padded := padded_features features reduction in
  0 ≤ i + padding_offset padded features < padded.
Proof.
  intros Hred Hi. simpl. unfold padding_offset.
  pose proof (padded_features_spec features reduction) as [Hp _]. simpl in Hp.
  assert (0 ≤ (padded_features features reduction - features) `div` 2
          ≤ padded_features features reduction - features).
  { split; [apply Z.div_pos; lia|]. apply Z.div_le_upper_bound; lia. }
  lia.
Qed.

(** *** The bounds filter *)

Lemma valid_mask_all rows : ∀ cols padded_out_features padded_in_features,
  length cols = length rows →
  Forall (λ r, r < padded_out_features) rows →
  Forall (λ c, c < padded_in_features) cols →
  valid_mask (rows, cols) padded_out_features padded_in_features
  = replicate (length rows) true.
Proof.
  unfold valid_mask. simpl.
  induction rows as [|r rows IH]; intros [|c cols] ?? Hl Hr Hc; try discriminate; [done|].
  inversion Hr; inversion Hc; subst. simpl.
  rewrite !bool_decide_eq_true_2 by done. simpl. f_equal. apply IH; auto.
Qed.

Lemma mask_select_all {A} (l : list A) : mask_select (replicate (length l) true) l = Ok l.
Proof. induction l as [|x l IH]; simpl; [done|]. by rewrite IH. Qed.

Lemma zip_shift rows cols row_offset col_offset :
  zip (map (λ r, r + row_offset) rows) (map (λ c, c + col_offset) cols)
  = prod_map (λ r, r + row_offset) (λ c, c + col_offset) <$> zip rows cols.
Proof. symmetry. apply prod_map_zip. Qed.

Lemma NoDup_zip_shift rows cols row_offset col_offset :
  NoDup (zip rows cols) →
  NoDup (zip (map (λ r, r + row_offset) rows) (map (λ c, c + col_offset) cols)).
Proof.
  intros Hnd. rewrite zip_shift. apply NoDup_fmap_2; [|done].
  intros [r1 c1] [r2 c2] [= ??]. f_equal; lia.
Qed.

Lemma padded_dense_spectrum_ok out_features in_features reduction_rows reduction_cols
    spectrum rows cols :
  0 ≤ reduction_rows → 0 ≤ reduction_cols →
  length rows = length (data spectrum) → length cols = length (data spectrum) →
  Forall (λ r, 0 ≤ r < out_features) rows →
  Forall (λ c, 0 ≤ c < in_features) cols →
  NoDup (zip rows cols) →
  0 < out_features → 0 < in_features →
  let padded_out_features := padded_features out_features reduction_rows in
  let padded_in_features := padded_features in_features reduction_cols in
  let row_offset := padding_offset padded_out_features out_features in
  let col_offset := padding_offset padded_in_features in_features in
  let padded_indices := shift_indices (rows, cols) row_offset col_offset in
  let mask := valid_mask padded_indices padded_out_features padded_in_features in
  Forall (λ r, 0 ≤ r < padded_out_features) padded_indices.1 ∧
  Forall (λ c, 0 ≤ c < padded_in_features) padded_indices.2 ∧
  mask = replicate (length (data spectrum)) true ∧
  mask_select mask padded_indices.1 = Ok padded_indices.1 ∧
  mask_select mask padded_indices.2 = Ok padded_indices.2 ∧
  mask_select mask (data spectrum) = Ok (data spectrum) ∧
  ∃ dense_spectrum,
    padded_dense_spectrum out_features in_features (reduction_rows, reduction_cols)
      spectrum (rows, cols) = Ok (Tensor (dtype_of spectrum) dense_spectrum) ∧
    has_shape dense_spectrum padded_out_features padded_in_features ∧
    (∀ (i : nat) r c v,
       rows !! i = Some r → cols !! i = Some c → data spectrum !! i = Some v →
       get2 dense_spectrum (Z.to_nat (r + row_offset)) (Z.to_nat (c + col_offset)) = Some v) ∧
    (∀ i j : nat,
       (Z.of_nat i, Z.of_nat j) ∉ zip padded_indices.1 padded_indices.2 →
       get2 dense_spectrum i j = Some (Fin 0) ∨ get2 dense_spectrum i j = None).
Proof.
  intros Hrr Hrc Hlr Hlc Hr Hc Hnd Hout Hin.
  intros P_out P_in row_off col_off shifted mask.
  assert (Forall (λ r, 0 ≤ r < P_out) shifted.1) as Hr'.
  { simpl. apply Forall_fmap. eapply Forall_impl; [exact Hr|]. intros r ?. simpl.
    by apply shifted_index_in_range. }
  assert (Forall (λ c, 0 ≤ c < P_in) shifted.2) as Hc'.
  { simpl. apply Forall_fmap. eapply Forall_impl; [exact Hc|]. intros c ?. simpl.
    by apply shifted_index_in_range. }
  assert (mask = replicate (length (data spectrum)) true) as Hmask.
  { unfold mask, shifted, shift_indices. simpl. rewrite valid_mask_all.
    - by rewrite length_map, Hlr.
    - by rewrite !length_map, Hlc.
    - eapply Forall_impl; [exact Hr'|]. simpl. lia.
    - eapply Forall_impl; [exact Hc'|]. simpl. lia. }
  assert (mask_select mask shifted.1 = Ok shifted.1) as Hs1.
  { rewrite Hmask, <- Hlr. simpl. rewrite <- (length_map (λ r, r + row_off) rows) at 1.
    apply mask_select_all. }
  assert (mask_select mask shifted.2 = Ok shifted.2) as Hs2.
  { rewrite Hmask, <- Hlc. simpl. rewrite <- (length_map (λ c, c + col_off) cols) at 1.
    apply mask_select_all. }
  assert (mask_select mask (data spectrum) = Ok (data spectrum)) as Hs3.
  { rewrite Hmask. apply mask_select_all. }
  split_and!; try done.
  pose proof (padded_features_spec out_features reduction_rows) as [HPo _].
  pose proof (padded_features_spec in_features reduction_cols) as [HPi _].
  simpl in HPo, HPi. fold P_out in HPo. fold P_in in HPi.
  destruct (index_put_spec shifted.1 shifted.2 (data spectrum) (zeros P_out P_in) P_out P_in)
    as (dense & Hput & Hshape & Hhit & Hmiss); try done.
  { replace P_in with (Z.max 0 P_in) at 2 by lia. apply has_shape_zeros. lia. }
  { simpl. rewrite !length_map. congruence. }
  { simpl. rewrite length_map. congruence. }
  { simpl. by apply NoDup_zip_shift. }
  exists dense. split_and!; try done.
  - unfold padded_dense_spectrum. fold P_out P_in row_off col_off shifted mask.
    rewrite Hs1, Hs2, Hs3. unfold mbind, result_bind. by rewrite Hput.
  - intros i r c v Hi1 Hi2 Hi3. apply (Hhit i); [| |done]; simpl; rewrite list_lookup_fmap.
    + by rewrite Hi1.
    + by rewrite Hi2.
  - intros i j Hnin. rewrite Hmiss by done. unfold get2, zeros.
    destruct (replicate (Z.to_nat P_out) (replicate (Z.to_nat P_in) (Fin 0)) !! i) as [row|] eqn:Hrow;
      simpl; [|by right].
    apply lookup_replicate in Hrow as [-> _].
    destruct (replicate (Z.to_nat P_in) (Fin 0) !! j) as [a|] eqn:Ha; [|by right].
    apply lookup_replicate in Ha as [-> _]. by left.
Qed.

(** *** Cropping *)

Lemma center_crop_spec out_features in_features (delta_weight : tensor matrix) R C :
  has_shape (data delta_weight) R C →
  0 < out_features ≤ R → 0 < in_features ≤ C →
  let start_row := (R - out_features) `div` 2 in
  let start_col := (C - in_features) `div` 2 in
  let cropped := center_crop out_features in_features delta_weight in
  has_shape (data cropped) out_features in_features ∧
  (R = out_features ∧ C = in_features → cropped = delta_weight) ∧
  (¬ (R = out_features ∧ C = in_features) →
   cropped = Tensor (dtype_of delta_weight)
               (slice2 (data delta_weight)
                  (Some start_row) (Some (start_row + out_features))
                  (Some start_col) (Some (start_col + in_features)))) ∧
  (∀ i j : nat, Z.of_nat i < out_features → Z.of_nat j < in_features →
     get2 (data cropped) i j
     = get2 (data delta_weight) (Z.to_nat start_row + i) (Z.to_nat start_col + j)).
Proof.
  intros Hshape Hout Hin start_row start_col cropped.
  assert (0 ≤ start_row ∧ start_row + out_features ≤ R) as [Hr0 Hr1].
  { unfold start_row. split; [apply Z.div_pos; lia|].
    assert ((R - out_features) `div` 2 ≤ R - out_features)
      by (apply Z.div_le_upper_bound; lia). lia. }
  assert (0 ≤ start_col ∧ start_col + in_features ≤ C) as [Hc0 Hc1].
  { unfold start_col. split; [apply Z.div_pos; lia|].
    assert ((C - in_features) `div` 2 ≤ C - in_features)
      by (apply Z.div_le_upper_bound; lia). lia. }
  unfold cropped, center_crop.
  rewrite (has_shape_shape0 _ _ _ Hshape), (has_shape_shape1 _ _ _ Hshape) by lia.
  fold start_row start_col.
  case_bool_decide as Hne.
  - simpl. split_and!.
    + apply (has_shape_window _ R C); auto; lia.
    + intros [-> ->]. lia.
    + done.
    + intros i j Hi Hj. apply (get2_window _ R C); auto; lia.
  - assert (R = out_features ∧ C = in_features) as [-> ->] by lia.
    split_and!; [done|done|intros []; done|].
    intros i j _ _. unfold start_row, start_col.
    rewrite !Z.sub_diag. done.
Qed.

Lemma sub_bands_shape (dense_spectrum : tensor matrix) R C :
  has_shape (data dense_spectrum) (2 * R) (2 * C) → 0 < R → 0 ≤ C →
  let '(cA, (cH, cV, cD)) := sub_bands dense_spectrum in
  has_shape (data cA) R C ∧ has_shape (data cH) R C ∧
  has_shape (data cV) R C ∧ has_shape (data cD) R C.
Proof.
  intros Hshape HR HC. unfold sub_bands.
  rewrite (has_shape_shape0 _ _ _ Hshape), (has_shape_shape1 _ _ _ Hshape) by lia.
  replace ((2 * R) `div` 2) with R by (rewrite Z.mul_comm, Z.div_mul; lia).
  replace ((2 * C) `div` 2) with C by (rewrite Z.mul_comm, Z.div_mul; lia).
  simpl. split_and!.
  - apply (has_shape_quadrant _ R C true true); auto; lia.
  - apply (has_shape_quadrant _ R C true false); auto; lia.
  - apply (has_shape_quadrant _ R C false true); auto; lia.
  - apply (has_shape_quadrant _ R C false false); auto; lia.
Qed.

Section Reconstruction.
Context `{!Collaborators}.

(** The matrix the IDWT path reconstructs, before cropping. *)
Lemma idwt_reconstruction self adapter spectrum rows cols family scaling reduction :
  waverec2d_shape_contract → wf_layer self →
  default true (kwargs self !! "use_idwt") = true →
  waveft_spectrum self !! adapter = Some spectrum →
  indices self !! adapter = Some (rows, cols) →
  waveft_wavelet_family self !! adapter = Some family →
  waveft_scaling self !! adapter = Some scaling →
  assoc WAVELET_REDUCTIONS family = Some reduction →
  ∃ dense_spectrum R C,
    padded_dense_spectrum (out_features self) (in_features self) reduction spectrum (rows, cols)
      = Ok dense_spectrum ∧
    let reconstructed := tscale (waverec2d (sub_bands dense_spectrum) family) scaling in
    has_shape (data reconstructed) R C ∧
    0 < out_features self ≤ R ∧ 0 < in_features self ≤ C ∧
    get_delta_weight self adapter
      = Ok (center_crop (out_features self) (in_features self) reconstructed).
Proof.
  intros Hcontract Hwf Hmode Hsp Hidx Hfam Hsc Hred.
  destruct (wf_layer_adapter _ _ _ Hwf Hsp)
    as (n & k & fam & rows' & cols' & red & Hn & Hk & Hfam' & Hidx' & Hred' & Hpos & Hlen
        & Hlr & Hlc & Hr & Hc & Hnd & Hout & Hin).
  rewrite Hidx in Hidx'. injection Hidx' as <- <-.
  rewrite Hfam in Hfam'. injection Hfam' as <-.
  destruct reduction as [rr rc].
  destruct (reductions_nonneg _ _ _ Hred) as [Hrr Hrc].
  destruct (padded_dense_spectrum_ok (out_features self) (in_features self) rr rc
              spectrum rows cols) as (_ & _ & _ & _ & _ & _ & dense & Hdense & Hshape & _);
    try done.
  pose proof (padded_features_spec (out_features self) rr) as [HPo HPo2].
  pose proof (padded_features_spec (in_features self) rc) as [HPi HPi2].
  simpl in HPo, HPo2, HPi, HPi2.
  set (P_out := padded_features (out_features self) rr) in *.
  set (P_in := padded_features (in_features self) rc) in *.
  assert (P_out = 2 * (P_out `div` 2)) as HPo3 by (apply Z.div_exact; lia).
  assert (P_in = 2 * (P_in `div` 2)) as HPi3 by (apply Z.div_exact; lia).
  rewrite HPo3, HPi3 in Hshape.
  pose proof (sub_bands_shape (Tensor (dtype_of spectrum) dense) _ _ Hshape
                ltac:(lia) ltac:(lia)) as Hbands.
  destruct (sub_bands (Tensor (dtype_of spectrum) dense)) as [cA [[cH cV] cD]] eqn:Hsub.
  destruct Hbands as (HA & HH & HV & HD).
  destruct (Hcontract cA cH cV cD family _ _ HA HH HV HD) as (R & C & HR & HC & Hrec).
  exists (Tensor (dtype_of spectrum) dense), R, C. rewrite Hsub.
  split; [done|]. cbv zeta. split_and!; try lia.
  - simpl. by apply has_shape_mscale.
  - unfold get_delta_weight, parameter_getitem, getitem.
    rewrite Hsp; rbind. rewrite Hidx; rbind. rewrite Hfam; rbind. rewrite Hmode.
    rewrite Hred; rbind. rewrite Hdense; rbind. rewrite Hsc; rbind. by rewrite Hsub.
Qed.
End Reconstruction.

(** *** update_layer *)

Lemma zeros_empty {A} (f : A → scalar) (l : list A) :
  map (λ _ : scalar, Fin 0) (map f l) = replicate (length l) (Fin 0).
Proof. induction l as [|x l IH]; simpl; [done|]. by rewrite IH. Qed.

Section UpdateLayer.
Context `{!Collaborators}.

Lemma update_layer_raises name n_frequency scaling init_weights seed family self :
  let outcome := update_layer name n_frequency scaling init_weights seed family self in
  (n_frequency ≤ 0 →
   outcome = (Raise (ValueError_n_frequency_not_positive n_frequency), self)) ∧
  (0 < n_frequency → n_frequency > in_features self * out_features self →
   outcome = (Raise (ValueError_n_frequency_too_large n_frequency
                       (in_features self * out_features self)), self)) ∧
  (0 < n_frequency ≤ in_features self * out_features self →
   assoc WAVELET_REDUCTIONS family = None →
   outcome = (Raise (ValueError_unsupported_wavelet family (WAVELET_REDUCTIONS.*1)), self)).
Proof.
  simpl. unfold update_layer. run. split_and!.
  - intros Hn. by rewrite bool_decide_eq_true_2.
  - intros Hn Hbig. rewrite bool_decide_eq_false_2 by lia. by rewrite bool_decide_eq_true_2.
  - intros Hn Hfam. rewrite !bool_decide_eq_false_2 by lia.
    by rewrite (bool_decide_eq_true_2 _ Hfam).
Qed.

Lemma update_layer_ok name n_frequency scaling init_weights seed family self :
  0 < n_frequency ≤ in_features self * out_features self →
  is_Some (assoc WAVELET_REDUCTIONS family) →
  ∃ self',
    update_layer name n_frequency scaling init_weights seed family self = (Ok (), self') ∧
    base_weight self' = base_weight self ∧
    disable_adapters self' = disable_adapters self ∧
    merged_adapters self' = merged_adapters self ∧
    kwargs self' = kwargs self ∧
    in_features self' = in_features self ∧
    out_features self' = out_features self ∧
    active_adapters self' = active_adapters self ∧
    waveft_n_frequency self' = <[name := n_frequency]> (waveft_n_frequency self) ∧
    waveft_scaling self' = <[name := scaling]> (waveft_scaling self) ∧
    waveft_wavelet_family self' = <[name := family]> (waveft_wavelet_family self) ∧
    waveft_random_loc_seed self' = <[name := seed]> (waveft_random_loc_seed self) ∧
    (let sampled := take (Z.to_nat n_frequency)
                      (randperm (out_features self * in_features self) (manual_seed seed)) in
     indices self' = <[name := (map (λ v, v `div` in_features self) sampled,
                                map (λ v, v `mod` in_features self) sampled)]> (indices self)) ∧
    waveft_spectrum self' =
      <[name := Tensor float32
                  (if init_weights then replicate (Z.to_nat n_frequency) (Fin 0)
                   else map randn_entry (seq 0 (Z.to_nat n_frequency)))]>
        (waveft_spectrum self).
Proof.
  intros Hn [red Hfam].
  unfold update_layer. run.
  rewrite !bool_decide_eq_false_2 by lia.
  rewrite (bool_decide_eq_false_2 (assoc _ _ = None)) by (rewrite Hfam; discriminate).
  rewrite Hfam. simpl. unfold getitem. simpl. rewrite lookup_insert_eq.
  destruct init_weights; simpl.
  - unfold reset_wave_parameters. run. rewrite lookup_insert_eq.
    unfold set_adapter, _move_adapter_to_device_of_base_layer. run.
    eexists. split; [reflexivity|]. simpl. split_and!; try done.
    unfold zeros_. simpl. rewrite insert_insert_eq, zeros_empty, length_seq. done.
  - unfold set_adapter, _move_adapter_to_device_of_base_layer. run.
    eexists. split; [reflexivity|]. simpl. by split_and!.
Qed.

(** The sampled positions, decomposed into rows and columns. *)
Lemma sampled_indices_spec seed n_frequency out_features in_features :
  randperm_contract →
  0 ≤ in_features → 0 ≤ out_features →
  0 < n_frequency ≤ in_features * out_features →
  let sampled := take (Z.to_nat n_frequency)
                   (randperm (out_features * in_features) (manual_seed seed)) in
  let rows := map (λ v, v `div` in_features) sampled in
  let cols := map (λ v, v `mod` in_features) sampled in
  sampled `sublist_of` randperm (out_features * in_features) (manual_seed seed) ∧
  Z.of_nat (length rows) = n_frequency ∧ Z.of_nat (length cols) = n_frequency ∧
  NoDup (zip rows cols) ∧
  Forall (λ r, 0 ≤ r < out_features) rows ∧
  Forall (λ c, 0 ≤ c < in_features) cols.
Proof.
  intros Hperm Hin Hout Hn sampled rows cols.
  assert (0 < in_features ∧ 0 < out_features) as [Hin' Hout'] by nia.
  specialize (Hperm seed (out_features * in_features) ltac:(nia)).
  set (perm := randperm (out_features * in_features) (manual_seed seed)) in *.
  assert (length perm = Z.to_nat (out_features * in_features)) as Hlen.
  { rewrite Hperm. by rewrite length_seqZ. }
  assert (length sampled = Z.to_nat n_frequency) as Hls.
  { unfold sampled. rewrite length_take. nia. }
  assert (NoDup sampled) as Hnd.
  { eapply sublist_NoDup; [|apply sublist_take]. rewrite Hperm. apply NoDup_seqZ. }
  assert (Forall (λ v, 0 ≤ v < out_features * in_features) sampled) as Hrange.
  { apply Forall_forall. intros v Hv.
    assert (v ∈ perm) as Hv' by (eapply elem_of_sublist; [done|apply sublist_take]).
    rewrite Hperm in Hv'. apply elem_of_seqZ in Hv'. lia. }
  split_and!.
  - apply sublist_take.
  - unfold rows. rewrite length_map. lia.
  - unfold cols. rewrite length_map. lia.
  - unfold rows, cols. rewrite <- prod_map_zip, zip_diag, <- list_fmap_compose.
    apply NoDup_fmap_2_strong; [|done].
    intros v1 v2 _ _ [= Hd Hm]. simpl in *.
    rewrite (Z.div_mod v1 in_features), (Z.div_mod v2 in_features) by lia. congruence.
  - unfold rows. apply Forall_fmap. eapply Forall_impl; [done|]. intros v Hv. simpl in *.
    split; [apply Z.div_pos; lia|]. apply Z.div_lt_upper_bound; lia.
  - unfold cols. apply Forall_fmap. eapply Forall_impl; [done|]. intros v Hv. simpl in *.
    apply Z.mod_pos_bound. lia.
Qed.
End UpdateLayer.

Section Invariant.
Context `{!Collaborators}.

Lemma update_layer_wf name n_frequency scaling init_weights seed family self self' :
  randperm_contract → wf_layer self →
  update_layer name n_frequency scaling init_weights seed family self = (Ok (), self') →
  wf_layer self'.
Proof.
  intros Hperm Hwf Hrun.
  pose proof (update_layer_raises name n_frequency scaling init_weights seed family self)
    as (Hneg & Hbig & Hunk). simpl in *.
  destruct (decide (n_frequency ≤ 0)); [rewrite Hneg in Hrun by done; discriminate|].
  destruct (decide (n_frequency > in_features self * out_features self));
    [rewrite Hbig in Hrun by lia; discriminate|].
  destruct (assoc WAVELET_REDUCTIONS family) as [red|] eqn:Hfam;
    [|rewrite Hunk in Hrun by (done || lia); discriminate].
  destruct (update_layer_ok name n_frequency scaling init_weights seed family self)
    as (s & Hs & _ & _ & _ & _ & Hin & Hout & _ & Hnf & Hsc & Hwv & _ & Hidx & Hsp);
    [lia|by rewrite Hfam|].
  rewrite Hs in Hrun. injection Hrun as <-.
  destruct Hwf as (Hin0 & Hout0 & Hall).
  destruct (sampled_indices_spec seed n_frequency (out_features self) (in_features self))
    as (_ & Hlr & Hlc & Hnd & Hr & Hc); try done; [lia|]. simpl in Hidx.
  split_and!; [by rewrite Hin|by rewrite Hout|].
  apply map_Forall_lookup_2. intros a sp Ha. unfold wf_adapter.
  rewrite Hnf, Hsc, Hwv, Hidx, Hin, Hout. rewrite Hsp in Ha.
  destruct (decide (a = name)) as [->|Hne].
  - rewrite !lookup_insert_eq. rewrite lookup_insert_eq in Ha. injection Ha as <-.
    assert (Z.of_nat (length (if init_weights then replicate (Z.to_nat n_frequency) (Fin 0)
                               else map randn_entry (seq 0 (Z.to_nat n_frequency))))
            = n_frequency) as Hls.
    { destruct init_weights; [rewrite length_replicate|rewrite length_map, length_seq]; lia. }
    simpl. rewrite Hfam. split_and!; try done; lia.
  - rewrite !lookup_insert_ne by done. rewrite lookup_insert_ne in Ha by done.
    apply (Hall a sp Ha).
Qed.

(** A fresh layer has no adapter; its dimensions are those of the base layer:
    the declared ones of a linear layer, the shape of the weight otherwise. *)
Lemma init_wf base kw active self :
  match base with
  | Linear in_features out_features _ => 0 ≤ in_features ∧ 0 ≤ out_features
  | Conv1D _ (Some (in_features, out_features)) => 0 ≤ in_features ∧ 0 ≤ out_features
  | _ => True
  end →
  WaveFTLayer_init base kw active = Ok self →
  wf_layer self.
Proof.
  intros Hdims Hinit.
  destruct base as [i o w|w [[i o]|]|w]; simpl in Hinit; try discriminate;
    injection Hinit as <-; (split_and!; [| |apply map_Forall_empty]); simpl;
    try tauto; unfold shape0, shape1; try lia.
  destruct (data w); lia.
Qed.
End Invariant.

(** *** Rounding *)











Lemma fadd_finite d a b : isfinite (fadd d a b) = true → isfinite a = true ∧ isfinite b = true.
Proof.
  destruct a as [x|s|], b as [y|t|]; simpl; try done.
  by destruct (Bool.eqb s t).
Qed.

Lemma cast_finite d a : isfinite (cast d a) = true → isfinite a = true.
Proof. by destruct a. Qed.

Lemma fmul_finite d a k : isfinite (fmul d a (Fin k)) = true → isfinite a = true.
Proof. destruct a as [x|s|]; simpl; [done| |done]. by destruct (k ?= 0). Qed.

(** *** Shapes of sums *)

Lemma same_shape_Forall2 (a b : matrix) :
  same_shape a b = true ↔ Forall2 (λ r1 r2 : list scalar, length r1 = length r2) a b.
Proof.
  unfold same_shape. rewrite andb_true_iff, bool_decide_eq_true. split.
  - intros [Hl Hall]. revert b Hl Hall.
    induction a as [|r1 a IH]; intros [|r2 b] Hl Hall; try discriminate; [constructor|].
    simpl in *. apply andb_true_iff in Hall as [Hrow Hall]. apply bool_decide_eq_true in Hrow.
    constructor; [done|]. apply IH; [congruence|done].
  - induction 1 as [|r1 r2 a b Hrow _ [IH1 IH2]]; [done|]. simpl. split; [congruence|].
    by rewrite bool_decide_eq_true_2, IH2.
Qed.

(** *** merge and unmerge *)


Lemma layer_eta self :
  set_merged_adapters (merged_adapters self) (set_base_weight (base_weight self) self) = self.
Proof. by destruct self. Qed.

Section MergeUnmerge.
Context `{!Collaborators}.

(** During merge and unmerge only the base weight and the list of merged
    adapters move. *)
Local Abbreviation st self W M := (set_merged_adapters M (set_base_weight W self)).

(** One iteration of the loop of [merge], case by case. *)
Lemma merge_adapter_skip self W M safe_merge adapter :
  waveft_spectrum self !! adapter = None →
  merge_adapter safe_merge adapter (st self W M) = (Ok (), st self W M).
Proof.
  intros Hnone. unfold merge_adapter. run. rewrite Hnone.
  by rewrite bool_decide_eq_false_2 by (intros [? ?]; done).
Qed.

Lemma merge_adapter_cases self W M safe_merge adapter :
  is_Some (waveft_spectrum self !! adapter) →
  match get_delta_weight self adapter with
  | Raise e => merge_adapter safe_merge adapter (st self W M) = (Raise e, st self W M)
  | Ok delta_weight =>
      match iadd W delta_weight with
      | Raise e => merge_adapter safe_merge adapter (st self W M) = (Raise e, st self W M)
      | Ok W' =>
          if safe_merge && negb (isfinite_all (data W')) then
            merge_adapter safe_merge adapter (st self W M)
            = (Raise (ValueError_nans_detected adapter), st self W M)
          else
            merge_adapter safe_merge adapter (st self W M)
            = (Ok (), st self W' (M ++ [adapter]))
      end
  end.
Proof.
  intros Hsome. unfold merge_adapter. run.
  rewrite bool_decide_eq_true_2 by done.
  change (get_delta_weight (st self W M) adapter) with (get_delta_weight self adapter).
  destruct safe_merge; simpl.
  - destruct (get_delta_weight self adapter) as [d|e]; [|done].
    destruct (iadd W d) as [W'|e]; [|done].
    by destruct (isfinite_all (data W')).
  - destruct (get_delta_weight self adapter) as [d|e]; [|done].
    by destruct (iadd W d) as [W'|e].
Qed.



Lemma unmerge_unfold self :
  unmerge self =
  if negb (merged self) then (Ok (), self)
  else unmerge_loop (length (merged_adapters self)) self.
Proof. unfold unmerge. unfold mbind, method_bind, get_self. by destruct (merged self). Qed.
End MergeUnmerge.

Lemma for_each_app {A} (body : A → method unit) (xs ys : list A) self :
  for_each body (xs ++ ys) self =
  match for_each body xs self with
  | (Ok _, self') => for_each body ys self'
  | (Raise e, self') => (Raise e, self')
  end.
Proof.
  revert self. induction xs as [|x xs IH]; intros self; simpl; [done|].
  unfold mbind, method_bind. destruct (body x self) as [[[]|e] self']; [apply IH|done].
Qed.

(** *** The round trip *)














Section RoundTrip.
Context `{!Collaborators}.
Local Abbreviation st self W M := (set_merged_adapters M (set_base_weight W self)).
Local Abbreviation same_rows :=
  (Forall2 (λ r1 r2 : list scalar, length r1 = length r2)).


End RoundTrip.

(** *** forward *)

Section Forward.
Context `{!Collaborators}.

Lemma add_contributions_raise self x adapters e :
  foldl (λ acc adapter, result ← acc; c ← contribution self x adapter; tadd result c)
        (Raise e) adapters = Raise e.
Proof. induction adapters as [|a adapters IH]; simpl; [done|apply IH]. Qed.

Lemma add_contributions_cons self x a adapters base :
  add_contributions self x (a :: adapters) base =
  match get_delta_weight self a with
  | Ok delta_w =>
      match F_linear (to (dtype_of delta_w) x) delta_w with
      | Ok c =>
          match tadd base c with
          | Ok result => add_contributions self x adapters result
          | Raise e => Raise e
          end
      | Raise e => Raise e
      end
  | Raise e => Raise e
  end.
Proof.
  unfold add_contributions. simpl. unfold contribution.
  destruct (get_delta_weight self a) as [delta_w|e]; simpl;
    [|apply add_contributions_raise].
  destruct (F_linear (to (dtype_of delta_w) x) delta_w) as [c|e]; simpl;
    [|apply add_contributions_raise].
  destruct (tadd base c) as [r|e]; [done|apply add_contributions_raise].
Qed.

(** The loop of [forward] adds up the contributions of the configured active
    adapters and leaves the layer alone; the casts of [x] only touch its tag. *)
Lemma forward_adapters_spec self x0 names : ∀ x result,
  data x = data x0 →
  forward_adapters names x result self =
  (add_contributions self x0 (filter (λ a, is_Some (waveft_spectrum self !! a)) names) result,
   self).
Proof.
  induction names as [|a names IH]; intros x result Hx; [done|].
  simpl. unfold mbind at 1, method_bind at 1, get_self.
  destruct (waveft_spectrum self !! a) as [sp|] eqn:Hsp.
  - rewrite bool_decide_eq_false_2 by done.
    rewrite filter_cons_True by (by rewrite Hsp).
    rewrite add_contributions_cons.
    unfold mbind, method_bind, lift.
    destruct (get_delta_weight self a) as [delta_w|e]; [|done].
    replace (to (dtype_of delta_w) x) with (to (dtype_of delta_w) x0)
      by (unfold to; by rewrite Hx).
    destruct (F_linear (to (dtype_of delta_w) x0) delta_w) as [c|e]; [|done].
    destruct (tadd result c) as [r|e]; [|done].
    by rewrite (IH (to (dtype_of delta_w) x0) r).
  - rewrite bool_decide_eq_true_2 by done.
    rewrite filter_cons_False by (rewrite Hsp; by intros [? ?]).
    by apply IH.
Qed.

Lemma forward_refines_spec x self : forward x self = forward_spec x self.
Proof.
  unfold forward, forward_spec.
  unfold mbind at 1, method_bind at 1, get_self.
  destruct (disable_adapters self).
  - destruct (merged self).
    + unfold mbind, method_bind, mret, method_ret.
      by destruct (unmerge self) as [[[]|e] self'].
    + done.
  - destruct (merged self); [done|].
    unfold mbind, method_bind. rewrite (forward_adapters_spec self x) by done.
    by destruct (add_contributions _ _ _ _).
Qed.

Lemma forward_spec_dtype x self result self' :
  forward_spec x self = (Ok result, self') → dtype_of result = dtype_of x.
Proof.
  unfold forward_spec. destruct (disable_adapters self), (merged self).
  - destruct (unmerge self) as [[[]|e] s]; [|discriminate]. by intros [= <- <-].
  - by intros [= <- <-].
  - by intros [= <- <-].
  - destruct (add_contributions _ _ _ _) as [r|e]; [|discriminate]. by intros [= <- <-].
Qed.
End Forward.

(** *** Merged adapters are configured adapters *)

Section MergedConfigured.
Context `{!Collaborators}.
Local Abbreviation st self W M := (set_merged_adapters M (set_base_weight W self)).
Local Abbreviation merged_configured self :=
  (Forall (λ a, is_Some (waveft_spectrum self !! a)) (merged_adapters self)).




Lemma pop_Some {A} (l : list A) x rest : pop l = Some (x, rest) → l = rest ++ [x].
Proof.
  unfold pop. destruct (reverse l) as [|y r] eqn:Hrev; [discriminate|].
  intros [= <- <-]. rewrite <- (reverse_involutive l), Hrev. by rewrite reverse_cons.
Qed.

Lemma unmerge_loop_unfold fuel self :
  unmerge_loop fuel self =
  match fuel, pop (merged_adapters self) with
  | S fuel', Some (active_adapter, rest) =>
      let popped := set_merged_adapters rest self in
      if bool_decide (is_Some (waveft_spectrum self !! active_adapter)) then
        match get_delta_weight self active_adapter with
        | Ok delta_weight =>
            match isub (base_weight self) delta_weight with
            | Ok weight => unmerge_loop fuel' (set_base_weight weight popped)
            | Raise e => (Raise e, popped)
            end
        | Raise e => (Raise e, popped)
        end
      else unmerge_loop fuel' popped
  | _, _ => (Ok (), self)
  end.
Proof.
  destruct fuel as [|fuel]; simpl; unfold mbind, method_bind, get_self.
  - by destruct (pop (merged_adapters self)) as [[a rest]|].
  - destruct (pop (merged_adapters self)) as [[a rest]|]; [|done].
    unfold modify, lift, mret, method_ret. simpl.
    destruct (bool_decide (is_Some (waveft_spectrum self !! a))); [|done].
    change (get_delta_weight (set_merged_adapters rest self) a)
      with (get_delta_weight self a).
    destruct (get_delta_weight self a) as [d|e]; [|done].
    change (base_weight (set_merged_adapters rest self)) with (base_weight self).
    by destruct (isub (base_weight self) d) as [W'|e].
Qed.






End MergedConfigured.

(** *** All-zero matrices *)

Lemma all_zero_zeros r c : all_zero (zeros r c).
Proof. unfold all_zero, zeros. apply Forall_replicate, Forall_replicate. done. Qed.

Lemma all_zero_shape m r c : all_zero m → has_shape m r c → m = zeros r c.
Proof.
  intros Hz [Hl Hrows]. unfold zeros. subst r. rewrite Nat2Z.id.
  induction m as [|row m IH]; [done|].
  inversion Hz as [|?? Hrow Hz']; inversion Hrows as [|?? Hlen Hrows']; subst.
  simpl. f_equal; [|by apply IH].
  rewrite Nat2Z.id. clear -Hrow. induction Hrow as [|a row -> _ IH]; [done|]. simpl. by f_equal.
Qed.

Lemma all_zero_set2 m r c m' : all_zero m → set2 m r c (Fin 0) = Ok m' → all_zero m'.
Proof.
  intros Hz. unfold set2.
  destruct (norm_index r (shape0 m)) as [i|]; rbind; [|discriminate].
  destruct (norm_index c (shape1 m)) as [j|]; rbind; [|discriminate].
  intros [= <-]. apply Forall_alter; [done|]. intros row _ Hrow.
  destruct (decide (j < length row)%nat).
  - by apply Forall_insert.
  - by rewrite list_insert_ge by lia.
Qed.

Lemma index_put_all_zero rows : ∀ cols vals m m',
  all_zero m → Forall (λ a, a = Fin 0) vals →
  index_put m rows cols vals = Ok m' → all_zero m'.
Proof.
  induction rows as [|r rows IH]; intros [|c cols] [|v vals] m m' Hz Hvals; simpl;
    try discriminate.
  - by intros [= <-].
  - inversion Hvals as [|?? -> Hvals']; subst.
    destruct (set2 m r c (Fin 0)) as [m1|] eqn:Hset; rbind; [|discriminate].
    apply IH; [by eapply all_zero_set2|done].
Qed.

Lemma mask_select_Forall {A} (P : A → Prop) mask : ∀ (l l' : list A),
  Forall P l → mask_select mask l = Ok l' → Forall P l'.
Proof.
  induction mask as [|b mask IH]; intros [|x l] l' Hl; simpl; try discriminate.
  - by intros [= <-].
  - inversion Hl; subst.
    destruct (mask_select mask l) as [rest|] eqn:Hrest; rbind; [|discriminate].
    intros [= <-]. destruct b; [constructor; [done|]|]; eauto.
Qed.

Lemma all_zero_mscale m k : all_zero m → all_zero (mscale m k).
Proof.
  intros Hz. unfold mscale. apply Forall_fmap. eapply Forall_impl; [done|].
  intros row Hrow. simpl. apply Forall_fmap. eapply Forall_impl; [done|].
  intros a ->. simpl. done.
Qed.

Lemma Forall_py_slice {A} (P : A → Prop) start stop (l : list A) :
  Forall P l → Forall P (py_slice start stop l).
Proof. intros Hl. unfold py_slice. by apply Forall_take, Forall_drop. Qed.

Lemma all_zero_slice2 m r0 r1 c0 c1 : all_zero m → all_zero (slice2 m r0 r1 c0 c1).
Proof.
  intros Hz. unfold slice2. apply Forall_fmap. apply Forall_py_slice.
  eapply Forall_impl; [done|]. intros row Hrow. simpl. by apply Forall_py_slice.
Qed.

Lemma all_zero_center_crop out_features in_features (t : tensor matrix) :
  all_zero (data t) → all_zero (data (center_crop out_features in_features t)).
Proof.
  intros Hz. unfold center_crop. case_bool_decide; [|done]. simpl. by apply all_zero_slice2.
Qed.

Lemma padded_dense_spectrum_all_zero out_features in_features reduction spectrum indices dense :
  Forall (λ a, a = Fin 0) (data spectrum) →
  padded_dense_spectrum out_features in_features reduction spectrum indices = Ok dense →
  all_zero (data dense).
Proof.
  intros Hz. unfold padded_dense_spectrum. destruct reduction as [rr rc]. cbv zeta.
  destruct (mask_select _ (shift_indices _ _ _).1) as [vr|]; rbind; [|discriminate].
  destruct (mask_select _ (shift_indices _ _ _).2) as [vc|]; rbind; [|discriminate].
  destruct (mask_select _ (data spectrum)) as [vs|] eqn:Hvs; rbind; [|discriminate].
  destruct (index_put _ vr vc vs) as [m|] eqn:Hput; rbind; [|discriminate].
  intros [= <-]. simpl. eapply index_put_all_zero; [apply all_zero_zeros| |done].
  by eapply mask_select_Forall.
Qed.

(** *** Shapes through the forward pass *)

Lemma has_shape_same_shape (a b : matrix) r c :
  has_shape a r c → has_shape b r c → same_shape a b = true.
Proof.
  intros [Hla Ha] [Hlb Hb]. apply same_shape_Forall2.
  assert (length a = length b) as Hl by lia. clear Hla Hlb.
  revert b Hl Hb. induction Ha as [|ra a Hra _ IH]; intros [|rb b] Hl Hb; try discriminate;
    [constructor|].
  inversion Hb; subst. constructor; [lia|]. apply IH; [by injection Hl|done].
Qed.

Lemma has_shape_zip_with f (a b : matrix) r c :
  has_shape a r c → has_shape b r c → has_shape (zip_with (zip_with f) a b) r c.
Proof.
  intros [Hla Ha] [Hlb Hb]. split; [rewrite length_zip_with; lia|].
  assert (length a = length b) as Hl by lia. clear Hla Hlb.
  revert b Hl Hb. induction Ha as [|ra a Hra _ IH]; intros [|rb b] Hl Hb; try discriminate;
    [constructor|].
  inversion Hb; subst. simpl. constructor; [rewrite length_zip_with; lia|].
  apply IH; [by injection Hl|done].
Qed.

Lemma tadd_shape (a b : tensor matrix) r c :
  has_shape (data a) r c → has_shape (data b) r c →
  ∃ t, tadd a b = Ok t ∧ has_shape (data t) r c.
Proof.
  intros Ha Hb. unfold tadd, mzip. cbv zeta.
  rewrite (has_shape_same_shape _ _ _ _ Ha Hb). rbind.
  eexists. split; [done|]. simpl. by apply has_shape_zip_with.
Qed.

Lemma F_linear_shape (x w : tensor matrix) batch out_features in_features :
  dtype_of x = dtype_of w →
  has_shape (data x) batch in_features → has_shape (data w) out_features in_features →
  0 < out_features →
  ∃ y, F_linear x w = Ok y ∧ has_shape (data y) batch out_features.
Proof.
  intros Hdt [Hlx Hx] Hw Hout. unfold F_linear.
  rewrite bool_decide_eq_false_2 by (by intros []).
  rewrite (has_shape_shape1 _ _ _ Hw) by done.
  assert (forallb (λ row : list scalar, bool_decide (Z.of_nat (length row) = in_features))
            (data x) = true) as ->.
  { apply forallb_forall. intros row Hrow%list_elem_of_In.
    apply bool_decide_eq_true_2. by apply (proj1 (Forall_forall _ _) Hx). }
  eexists. split; [done|]. simpl. split; [by rewrite length_map|].
  apply Forall_fmap, Forall_forall. intros row _. simpl. rewrite length_map. by destruct Hw.
Qed.

Section Shapes.
Context `{!Collaborators}.

(** Direct mode: the dense spectrum and the delta made of it. *)
Lemma direct_delta_weight_dense self adapter spectrum rows cols scaling :
  wf_layer self →
  default true (kwargs self !! "use_idwt") = false →
  waveft_spectrum self !! adapter = Some spectrum →
  indices self !! adapter = Some (rows, cols) →
  waveft_scaling self !! adapter = Some scaling →
  ∃ dense_spectrum,
    index_put (zeros (out_features self) (in_features self)) rows cols (data spectrum)
      = Ok dense_spectrum ∧
    get_delta_weight self adapter
      = Ok (Tensor (dtype_of spectrum) (mscale dense_spectrum scaling)) ∧
    has_shape dense_spectrum (out_features self) (in_features self) ∧
    (∀ (i : nat) r c v,
       rows !! i = Some r → cols !! i = Some c → data spectrum !! i = Some v →
       get2 dense_spectrum (Z.to_nat r) (Z.to_nat c) = Some v) ∧
    (∀ i j : nat,
       (Z.of_nat i, Z.of_nat j) ∉ zip rows cols →
       get2 dense_spectrum i j = get2 (zeros (out_features self) (in_features self)) i j).
Proof.
  intros Hwf Hmode Hsp Hidx Hsc.
  destruct (wf_layer_adapter _ _ _ Hwf Hsp)
    as (n & k & fam & rows' & cols' & red & Hn & Hk & Hfam & Hidx' & Hred & Hpos & Hlen
        & Hlr & Hlc & Hr & Hc & Hnd & Hout & Hin).
  rewrite Hidx in Hidx'. injection Hidx' as <- <-.
  destruct (index_put_spec rows cols (data spectrum)
              (zeros (out_features self) (in_features self))
              (out_features self) (in_features self))
    as (dense & Hput & Hshape & Hhit & Hmiss); try done.
  { replace (in_features self) with (Z.max 0 (in_features self)) at 2 by lia.
    apply has_shape_zeros. lia. }
  { congruence. }
  exists dense. split_and!; try done.
  unfold get_delta_weight, parameter_getitem, getitem.
  rewrite Hsp; rbind. rewrite Hidx; rbind. rewrite Hfam; rbind. rewrite Hmode.
  simpl. rewrite Hput; rbind. by rewrite Hsc.
Qed.

(** In both modes the delta has the shape of the base weight. *)
Lemma get_delta_weight_shape self adapter :
  wf_layer self →
  (default true (kwargs self !! "use_idwt") = true → waverec2d_shape_contract) →
  is_Some (waveft_spectrum self !! adapter) →
  ∃ delta_weight,
    get_delta_weight self adapter = Ok delta_weight ∧
    has_shape (data delta_weight) (out_features self) (in_features self) ∧
    0 < out_features self.
Proof.
  intros Hwf Hcontract [sp Hsp].
  destruct (wf_layer_adapter _ _ _ Hwf Hsp)
    as (n & k & fam & rows & cols & red & Hn & Hk & Hfam & Hidx & Hred & Hpos & Hlen
        & Hlr & Hlc & Hr & Hc & Hnd & Hout & Hin).
  destruct (default true (kwargs self !! "use_idwt")) eqn:Hmode.
  - destruct (idwt_reconstruction self adapter sp rows cols fam k red)
      as (dense & R & C & _ & Hshape & HR & HC & Hdelta); auto.
    eexists. split; [exact Hdelta|]. split; [|done].
    by apply (center_crop_spec _ _ _ R C).
  - destruct (direct_delta_weight_dense self adapter sp rows cols k)
      as (dense & _ & Hdelta & Hshape & _); auto.
    eexists. split; [exact Hdelta|]. split; [|done]. simpl. by apply has_shape_mscale.
Qed.

Lemma add_contributions_returns self x batch adapters : ∀ base,
  wf_layer self →
  (default true (kwargs self !! "use_idwt") = true → waverec2d_shape_contract) →
  has_shape (data x) batch (in_features self) →
  has_shape (data base) batch (out_features self) →
  Forall (λ a, is_Some (waveft_spectrum self !! a)) adapters →
  ∃ result, add_contributions self x adapters base = Ok result ∧
            has_shape (data result) batch (out_features self).
Proof.
  induction adapters as [|a adapters IH]; intros base Hwf Hcontract Hx Hbase Hall.
  { by exists base. }
  inversion Hall as [|?? Ha Hall']; subst.
  rewrite add_contributions_cons.
  destruct (get_delta_weight_shape self a Hwf Hcontract Ha) as (d & -> & Hd & Hout).
  destruct (F_linear_shape (to (dtype_of d) x) d batch (out_features self) (in_features self))
    as (c & -> & Hc); try done.
  destruct (tadd_shape base c _ _ Hbase Hc) as (r & -> & Hr).
  by apply IH.
Qed.
End Shapes.

(** * The claims *)

Section Claims.
Context `{!Collaborators}.


(** C6 (amended). Under [safe_merge], when the candidate weight of an adapter
    has a non-finite entry, [merge] raises the [ValueError] that names this
    adapter, and the layer is left exactly as it was when the turn of this
    adapter came: its delta is not added and its name is not pushed, while
    the adapters that came before it in the same call stay merged.  If it is
    the first one, the layer is as it was before the call. *)
Theorem safe_merge_rejects_non_finite self adapter_names before adapter after self1
    delta_weight candidate :
  check_adapters_to_merge self adapter_names = before ++ adapter :: after →
  for_each (merge_adapter true) before self = (Ok (), self1) →
  is_Some (waveft_spectrum self1 !! adapter) →
  get_delta_weight self1 adapter = Ok delta_weight →
  iadd (base_weight self1) delta_weight = Ok candidate →
  isfinite_all (data candidate) = false →
  merge_adapter true adapter self1 = (Raise (ValueError_nans_detected adapter), self1) ∧
  merge true adapter_names self = (Raise (ValueError_nans_detected adapter), self1) ∧
  (before = [] → self1 = self).
Proof.
  intros Hnames Hbefore Hsome Hdelta Hcand Hnan.
  assert (merge_adapter true adapter self1 = (Raise (ValueError_nans_detected adapter), self1))
    as Hstep.
  { pose proof (merge_adapter_cases self1 (base_weight self1) (merged_adapters self1)
                  true adapter Hsome) as Hcase.
    rewrite layer_eta, Hdelta, Hcand, Hnan in Hcase. exact Hcase. }
  split_and!; [done| |].
  - unfold merge. run. rewrite Hnames.
    destruct (before ++ adapter :: after) eqn:Hl; [by destruct before|]. rewrite <- Hl.
    rewrite for_each_app, Hbefore. simpl. unfold mbind, method_bind. by rewrite Hstep.
  - intros ->. simpl in Hbefore. by injection Hbefore.
Qed.
(** C2. [forward] is a three-state dispatch.  With the adapters disabled it
    unmerges first if anything is merged and returns the base transform;
    merged, it returns the base transform; otherwise it returns the base
    transform plus [F.linear(x, get_delta_weight(adapter))] for every active
    adapter that is configured -- which is what [forward_spec] says, errors
    and resulting layer included.  Whatever comes back has the dtype the
    input came with, and on a well-formed layer and a well-shaped input the
    unmerged path does come back with a result. *)
Theorem forward_three_state_dispatch x self :
  forward x self = forward_spec x self ∧
  (∀ result self', forward x self = (Ok result, self') → dtype_of result = dtype_of x) ∧
  (disable_adapters self = false → merged self = true →
   forward x self = (Ok (to (dtype_of x) (base_layer_forward (base_weight self) x)), self)) ∧
  (disable_adapters self = true → merged self = false →
   forward x self = (Ok (to (dtype_of x) (base_layer_forward (base_weight self) x)), self)) ∧
  (disable_adapters self = true → merged self = true →
   forward x self =
   match unmerge self with
   | (Ok _, self') => (Ok (to (dtype_of x) (base_layer_forward (base_weight self') x)), self')
   | (Raise e, self') => (Raise e, self')
   end) ∧
  (disable_adapters self = false → merged self = false →
   forward x self =
   (to (dtype_of x) <$>
      add_contributions self x
        (filter (λ a, is_Some (waveft_spectrum self !! a)) (active_adapters self))
        (base_layer_forward (base_weight self) x),
    self)) ∧
  (∀ batch,
     disable_adapters self = false → merged self = false →
     wf_layer self →
     (default true (kwargs self !! "use_idwt") = true → waverec2d_shape_contract) →
     has_shape (data x) batch (in_features self) →
     has_shape (data (base_layer_forward (base_weight self) x)) batch (out_features self) →
     ∃ result, forward x self = (Ok result, self) ∧
               has_shape (data result) batch (out_features self)).
Proof.
  split_and!.
  - apply forward_refines_spec.
  - intros result self'. rewrite forward_refines_spec. apply forward_spec_dtype.
  - intros Hd Hm. rewrite forward_refines_spec. unfold forward_spec. by rewrite Hd, Hm.
  - intros Hd Hm. rewrite forward_refines_spec. unfold forward_spec. by rewrite Hd, Hm.
  - intros Hd Hm. rewrite forward_refines_spec. unfold forward_spec. by rewrite Hd, Hm.
  - intros Hd Hm. rewrite forward_refines_spec. unfold forward_spec. by rewrite Hd, Hm.
  - intros batch Hd Hm Hwf Hcontract Hx Hbase.
    rewrite forward_refines_spec. unfold forward_spec. rewrite Hd, Hm.
    destruct (add_contributions_returns self x batch
                (filter (λ a, is_Some (waveft_spectrum self !! a)) (active_adapters self))
                (base_layer_forward (base_weight self) x)) as (r & -> & Hr); try done.
    { apply Forall_forall. by intros a [Ha _]%list_elem_of_filter. }
    by exists (to (dtype_of x) r).
Qed.

(** C3. For valid dimensions, count and family, [update_layer] stores as
    indices the first [n_frequency] elements of the permutation of
    [0, out_features * in_features) that the generator seeded with the given
    seed produces, each split into row [v div in_features] and column
    [v mod in_features]: exactly [n_frequency] pairs, pairwise distinct, all
    inside the grid; and any other call with the same seed, count and grid
    stores the very same indices. *)
Theorem update_layer_indices name n_frequency scaling init_weights seed family self :
  randperm_contract →
  0 ≤ in_features self → 0 ≤ out_features self →
  0 < n_frequency ≤ in_features self * out_features self →
  is_Some (assoc WAVELET_REDUCTIONS family) →
  let permutation := randperm (out_features self * in_features self) (manual_seed seed) in
  let sampled := take (Z.to_nat n_frequency) permutation in
  ∃ self' rows cols,
    update_layer name n_frequency scaling init_weights seed family self = (Ok (), self') ∧
    indices self' !! name = Some (rows, cols) ∧
    permutation ≡ₚ seqZ 0 (out_features self * in_features self) ∧
    rows = map (λ v, v `div` in_features self) sampled ∧
    cols = map (λ v, v `mod` in_features self) sampled ∧
    Z.of_nat (length rows) = n_frequency ∧ Z.of_nat (length cols) = n_frequency ∧
    NoDup (zip rows cols) ∧
    Forall (λ r, 0 ≤ r < out_features self) rows ∧
    Forall (λ c, 0 ≤ c < in_features self) cols ∧
    (∀ name2 scaling2 init_weights2 family2 self2,
       in_features self2 = in_features self → out_features self2 = out_features self →
       is_Some (assoc WAVELET_REDUCTIONS family2) →
       ∃ self2',
         update_layer name2 n_frequency scaling2 init_weights2 seed family2 self2
           = (Ok (), self2') ∧
         indices self2' !! name2 = Some (rows, cols)).
Proof.
  intros Hperm Hin Hout Hn Hfam permutation sampled.
  destruct (update_layer_ok name n_frequency scaling init_weights seed family self Hn Hfam)
    as (self' & Hrun & _ & _ & _ & _ & _ & _ & _ & _ & _ & _ & _ & Hidx & _).
  destruct (sampled_indices_spec seed n_frequency (out_features self) (in_features self)
              Hperm Hin Hout Hn) as (_ & Hlr & Hlc & Hnd & Hr & Hc).
  simpl in Hidx. fold permutation sampled in Hidx, Hlr, Hlc, Hnd, Hr, Hc.
  eexists self', _, _. split_and!; try done.
  - by rewrite Hidx, lookup_insert_eq.
  - apply Hperm. nia.
  - intros name2 scaling2 init2 family2 self2 Hin2 Hout2 Hfam2.
    destruct (update_layer_ok name2 n_frequency scaling2 init2 seed family2 self2)
      as (self2' & Hrun2 & _ & _ & _ & _ & _ & _ & _ & _ & _ & _ & _ & Hidx2 & _);
      [by rewrite Hin2, Hout2|done|].
    exists self2'. split; [done|]. simpl in Hidx2.
    rewrite Hidx2, lookup_insert_eq, Hin2, Hout2. done.
Qed.

(** C4. With [use_idwt] off, [get_delta_weight] returns a matrix of shape
    (out_features, in_features) whose entry at the i-th index pair is
    [spectrum[i] * scaling], for each of the [n_frequency] pairs, and whose
    every other entry is zero. *)
Theorem direct_delta_weight self adapter spectrum rows cols scaling :
  wf_layer self →
  default true (kwargs self !! "use_idwt") = false →
  waveft_spectrum self !! adapter = Some spectrum →
  indices self !! adapter = Some (rows, cols) →
  waveft_scaling self !! adapter = Some scaling →
  ∃ delta_weight,
    get_delta_weight self adapter = Ok delta_weight ∧
    has_shape (data delta_weight) (out_features self) (in_features self) ∧
    waveft_n_frequency self !! adapter = Some (Z.of_nat (length (data spectrum))) ∧
    length rows = length (data spectrum) ∧ length cols = length (data spectrum) ∧
    (∀ (i : nat) r c v,
       rows !! i = Some r → cols !! i = Some c → data spectrum !! i = Some v →
       get2 (data delta_weight) (Z.to_nat r) (Z.to_nat c) = Some (smul v (Fin scaling))) ∧
    (∀ i j : nat,
       Z.of_nat i < out_features self → Z.of_nat j < in_features self →
       (Z.of_nat i, Z.of_nat j) ∉ zip rows cols →
       get2 (data delta_weight) i j = Some (Fin 0)).
Proof.
  intros Hwf Hmode Hsp Hidx Hsc.
  destruct (direct_delta_weight_dense self adapter spectrum rows cols scaling)
    as (dense & _ & Hdelta & Hshape & Hhit & Hmiss); try done.
  destruct (wf_layer_adapter _ _ _ Hwf Hsp)
    as (n & k & fam & rows' & cols' & red & Hn & _ & _ & Hidx' & _ & _ & Hlen
        & Hlr & Hlc & _).
  rewrite Hidx in Hidx'. injection Hidx' as <- <-.
  eexists. split; [exact Hdelta|]. simpl. split_and!; try done.
  - by apply has_shape_mscale.
  - by rewrite Hlen.
  - intros i r c v Hi1 Hi2 Hi3. rewrite get2_mscale. by rewrite (Hhit i r c v).
  - intros i j Hi Hj Hnin. rewrite get2_mscale, Hmiss by done. by rewrite get2_zeros.
Qed.

(** C5. In IDWT mode, for an adapter of a well-formed layer and any family of
    the table, every shifted index lies inside the padded matrix; so the
    bounds filter keeps every index pair and every spectrum value, and each
    of the [n_frequency] values is found in the padded dense spectrum at its
    shifted position. *)
Theorem idwt_filter_discards_nothing self adapter spectrum rows cols family
    reduction_rows reduction_cols :
  wf_layer self →
  waveft_spectrum self !! adapter = Some spectrum →
  indices self !! adapter = Some (rows, cols) →
  assoc WAVELET_REDUCTIONS family = Some (reduction_rows, reduction_cols) →
  let padded_out_features := padded_features (out_features self) reduction_rows in
  let padded_in_features := padded_features (in_features self) reduction_cols in
  let row_offset := padding_offset padded_out_features (out_features self) in
  let col_offset := padding_offset padded_in_features (in_features self) in
  let padded_indices := shift_indices (rows, cols) row_offset col_offset in
  let mask := valid_mask padded_indices padded_out_features padded_in_features in
  Forall (λ r, 0 ≤ r < padded_out_features) padded_indices.1 ∧
  Forall (λ c, 0 ≤ c < padded_in_features) padded_indices.2 ∧
  mask = replicate (length (data spectrum)) true ∧
  mask_select mask padded_indices.1 = Ok padded_indices.1 ∧
  mask_select mask padded_indices.2 = Ok padded_indices.2 ∧
  mask_select mask (data spectrum) = Ok (data spectrum) ∧
  ∃ dense_spectrum,
    padded_dense_spectrum (out_features self) (in_features self)
      (reduction_rows, reduction_cols) spectrum (rows, cols)
      = Ok (Tensor (dtype_of spectrum) dense_spectrum) ∧
    has_shape dense_spectrum padded_out_features padded_in_features ∧
    ∀ (i : nat) r c v,
      rows !! i = Some r → cols !! i = Some c → data spectrum !! i = Some v →
      get2 dense_spectrum (Z.to_nat (r + row_offset)) (Z.to_nat (c + col_offset)) = Some v.
Proof.
  intros Hwf Hsp Hidx Hred.
  destruct (wf_layer_adapter _ _ _ Hwf Hsp)
    as (n & k & fam & rows' & cols' & red & _ & _ & _ & Hidx' & _ & _ & _
        & Hlr & Hlc & Hr & Hc & Hnd & Hout & Hin).
  rewrite Hidx in Hidx'. injection Hidx' as <- <-.
  destruct (reductions_nonneg _ _ _ Hred) as [Hrr Hrc].
  destruct (padded_dense_spectrum_ok (out_features self) (in_features self)
              reduction_rows reduction_cols spectrum rows cols)
    as (H1 & H2 & H3 & H4 & H5 & H6 & dense & Hdense & Hshape & Hhit & _); try done.
  simpl. split_and!; try done. by exists dense.
Qed.

End Claims.

Section MoreClaims.
Context `{!Collaborators}.

(** C7. [update_layer] raises one of the [ValueError]s of its validation
    exactly when [n_frequency <= 0], or
    [n_frequency > in_features * out_features], or the family is no key of
    the table -- then with the list of the supported families;
    [n_frequency = in_features * out_features] passes the validation; and on
    such an error the layer is as it was, the checks coming before the first
    write. *)
Theorem update_layer_configuration_errors name n_frequency scaling init_weights seed family self :
  let outcome := update_layer name n_frequency scaling init_weights seed family self in
  ((∃ e, is_configuration_error e = true ∧ outcome.1 = Raise e) ↔
   n_frequency ≤ 0 ∨ n_frequency > in_features self * out_features self ∨
   assoc WAVELET_REDUCTIONS family = None) ∧
  (n_frequency ≤ 0 →
   outcome.1 = Raise (ValueError_n_frequency_not_positive n_frequency)) ∧
  (0 < n_frequency → n_frequency > in_features self * out_features self →
   outcome.1 = Raise (ValueError_n_frequency_too_large n_frequency
                        (in_features self * out_features self))) ∧
  (0 < n_frequency ≤ in_features self * out_features self →
   assoc WAVELET_REDUCTIONS family = None →
   outcome.1 = Raise (ValueError_unsupported_wavelet family (WAVELET_REDUCTIONS.*1))) ∧
  (0 < n_frequency → n_frequency = in_features self * out_features self →
   is_Some (assoc WAVELET_REDUCTIONS family) →
   ∀ e, outcome.1 = Raise e → is_configuration_error e = false) ∧
  (∀ e, is_configuration_error e = true → outcome.1 = Raise e → outcome.2 = self).
Proof.
  intros outcome.
  pose proof (update_layer_raises name n_frequency scaling init_weights seed family self)
    as (Hneg & Hbig & Hunk). simpl in Hneg, Hbig, Hunk. fold outcome in Hneg, Hbig, Hunk.
  assert (0 < n_frequency ≤ in_features self * out_features self →
          is_Some (assoc WAVELET_REDUCTIONS family) → outcome.1 = Ok ()) as Hok.
  { intros Hn Hfam.
    destruct (update_layer_ok name n_frequency scaling init_weights seed family self Hn Hfam)
      as (self' & Hrun & _). unfold outcome. by rewrite Hrun. }
  split_and!.
  - split.
    + intros (e & _ & He).
      destruct (decide (n_frequency ≤ 0)); [by left|].
      destruct (decide (n_frequency > in_features self * out_features self));
        [by right; left|].
      destruct (assoc WAVELET_REDUCTIONS family) as [red|] eqn:Hfam; [|by right; right].
      rewrite Hok in He; [done|lia|done].
    + assert (∀ e, is_configuration_error e = true → outcome.1 = Raise e →
                   ∃ e, is_configuration_error e = true ∧ outcome.1 = Raise e) as Hex
        by (intros e ? ?; by exists e).
      intros Hcases.
      destruct (decide (n_frequency ≤ 0));
        [eapply Hex; [|by rewrite Hneg]; done|].
      destruct (decide (n_frequency > in_features self * out_features self));
        [eapply Hex; [|by rewrite Hbig by lia]; done|].
      destruct Hcases as [?|[?|Hfam]]; [lia|lia|].
      eapply Hex; [|by rewrite Hunk by (done || lia)]; done.
  - intros Hn. by rewrite Hneg.
  - intros Hn Hb. by rewrite Hbig.
  - intros Hn Hfam. by rewrite Hunk.
  - intros Hn Heq Hfam e He. rewrite Hok in He; [done|lia|done].
  - intros e _ He.
    destruct (decide (n_frequency ≤ 0)); [by rewrite Hneg|].
    destruct (decide (n_frequency > in_features self * out_features self));
      [by rewrite Hbig by lia|].
    destruct (assoc WAVELET_REDUCTIONS family) as [red|] eqn:Hfam;
      [|by rewrite Hunk by (done || lia)].
    rewrite Hok in He; [done|lia|done].
Qed.

(** C8. Right after an [update_layer] that asked for zero initialization the
    spectrum holds [n_frequency] zeros, and [get_delta_weight] returns the
    all-zero matrix of shape (out_features, in_features): in direct mode
    outright, in IDWT mode provided the reconstruction primitive keeps its
    shape contract and maps all-zero sub-bands to an all-zero matrix. *)
Theorem zero_init_delta_is_zero name n_frequency scaling seed family self self' :
  randperm_contract → wf_layer self →
  (default true (kwargs self !! "use_idwt") = true →
   waverec2d_shape_contract ∧ waverec2d_zero_contract) →
  update_layer name n_frequency scaling true seed family self = (Ok (), self') →
  (∃ dt, waveft_spectrum self' !! name
         = Some (Tensor dt (replicate (Z.to_nat n_frequency) (Fin 0)))) ∧
  ∃ delta_weight,
    get_delta_weight self' name = Ok delta_weight ∧
    data delta_weight = zeros (out_features self') (in_features self').
Proof.
  intros Hperm Hwf Hcontract Hrun.
  pose proof (update_layer_wf _ _ _ _ _ _ _ _ Hperm Hwf Hrun) as Hwf'.
  pose proof (update_layer_raises name n_frequency scaling true seed family self)
    as (Hneg & Hbig & Hunk). simpl in *.
  destruct (decide (n_frequency ≤ 0)); [rewrite Hneg in Hrun by done; discriminate|].
  destruct (decide (n_frequency > in_features self * out_features self));
    [rewrite Hbig in Hrun by lia; discriminate|].
  destruct (assoc WAVELET_REDUCTIONS family) as [red|] eqn:Hfam;
    [|rewrite Hunk in Hrun by (done || lia); discriminate].
  destruct (update_layer_ok name n_frequency scaling true seed family self)
    as (s & Hs & _ & _ & _ & Hkw & _ & _ & _ & _ & _ & _ & _ & _ & Hsp);
    [lia|by rewrite Hfam|].
  rewrite Hs in Hrun. injection Hrun as <-.
  assert (waveft_spectrum s !! name
          = Some (Tensor float32 (replicate (Z.to_nat n_frequency) (Fin 0)))) as Hsp'.
  { by rewrite Hsp, lookup_insert_eq. }
  split; [by eexists|].
  destruct (wf_layer_adapter _ _ _ Hwf' Hsp')
    as (nf & k & fam & rows & cols & red' & _ & Hk & Hfam' & Hidx & Hred' & _ & _
        & _ & _ & _ & _ & _ & Hout & Hin).
  assert (Forall (λ a, a = Fin 0) (replicate (Z.to_nat n_frequency) (Fin 0))) as Hz.
  { by apply Forall_replicate. }
  destruct (default true (kwargs s !! "use_idwt")) eqn:Hmode.
  - rewrite Hkw in Hmode. destruct (Hcontract Hmode) as [Hshape Hzero].
    rewrite <- Hkw in Hmode.
    destruct (idwt_reconstruction s name _ rows cols fam k red' Hshape Hwf' Hmode Hsp'
                Hidx Hfam' Hk Hred')
      as (dense & R & C & Hdense & Hrec & HR & HC & Hdelta).
    eexists. split; [exact Hdelta|].
    apply all_zero_shape; [|by apply (center_crop_spec _ _ _ R C)].
    apply all_zero_center_crop. simpl. apply all_zero_mscale.
    pose proof (padded_dense_spectrum_all_zero _ _ _
                  (Tensor float32 (replicate (Z.to_nat n_frequency) (Fin 0))) _ _
                  Hz Hdense) as Hdz.
    unfold sub_bands. apply Hzero; simpl; by apply all_zero_slice2.
  - destruct (direct_delta_weight_dense s name _ rows cols k Hwf' Hmode Hsp' Hidx Hk)
      as (dense & Hput & Hdelta & Hshape & _).
    eexists. split; [exact Hdelta|]. simpl.
    apply all_zero_shape; [|by apply has_shape_mscale].
    apply all_zero_mscale. eapply index_put_all_zero; [apply all_zero_zeros|exact Hz|done].
Qed.

(** C9. In IDWT mode, with a reconstruction primitive whose output has at
    least twice the rows and columns of its sub-bands, [get_delta_weight]
    returns a matrix of shape exactly (out_features, in_features): the scaled
    reconstruction itself when that has the target shape already, and
    otherwise its window of that shape starting at row
    [(reconstructed rows - out_features) div 2] and column
    [(reconstructed columns - in_features) div 2]. *)
Theorem idwt_delta_weight_shape self adapter spectrum rows cols family scaling reduction :
  waverec2d_shape_contract → wf_layer self →
  default true (kwargs self !! "use_idwt") = true →
  waveft_spectrum self !! adapter = Some spectrum →
  indices self !! adapter = Some (rows, cols) →
  waveft_wavelet_family self !! adapter = Some family →
  waveft_scaling self !! adapter = Some scaling →
  assoc WAVELET_REDUCTIONS family = Some reduction →
  ∃ dense_spectrum R C delta_weight,
    padded_dense_spectrum (out_features self) (in_features self) reduction spectrum (rows, cols)
      = Ok dense_spectrum ∧
    let reconstructed := tscale (waverec2d (sub_bands dense_spectrum) family) scaling in
    let start_row := (R - out_features self) `div` 2 in
    let start_col := (C - in_features self) `div` 2 in
    has_shape (data reconstructed) R C ∧
    get_delta_weight self adapter = Ok delta_weight ∧
    has_shape (data delta_weight) (out_features self) (in_features self) ∧
    (R = out_features self ∧ C = in_features self → delta_weight = reconstructed) ∧
    (¬ (R = out_features self ∧ C = in_features self) →
     delta_weight = Tensor (dtype_of reconstructed)
                      (slice2 (data reconstructed)
                         (Some start_row) (Some (start_row + out_features self))
                         (Some start_col) (Some (start_col + in_features self)))) ∧
    (∀ i j : nat, Z.of_nat i < out_features self → Z.of_nat j < in_features self →
       get2 (data delta_weight) i j
       = get2 (data reconstructed) (Z.to_nat start_row + i) (Z.to_nat start_col + j)).
Proof.
  intros Hcontract Hwf Hmode Hsp Hidx Hfam Hsc Hred.
  destruct (idwt_reconstruction self adapter spectrum rows cols family scaling reduction)
    as (dense & R & C & Hdense & Hshape & HR & HC & Hdelta); try done.
  destruct (center_crop_spec (out_features self) (in_features self) _ R C Hshape HR HC)
    as (Hcrop & Hsame & Hdiff & Hget).
  exists dense, R, C. eexists. split; [exact Hdense|]. cbv zeta.
  split_and!; [exact Hshape|exact Hdelta|exact Hcrop|exact Hsame|exact Hdiff|exact Hget].
Qed.

End MoreClaims.

(** * Further properties of the methods *)

(** *** What merge and unmerge write *)

Lemma mzip_shape f (a b c : matrix) r k :
  mzip f a b = Ok c → has_shape a r k → has_shape c r k.
Proof.
  unfold mzip. destruct (same_shape a b) eqn:Hsame; [|discriminate].
  intros [= <-] Ha. apply has_shape_zip_with; [done|].
  apply same_shape_Forall2 in Hsame. destruct Ha as [Hl Ha]. split.
  - by rewrite <- (Forall2_length _ _ _ Hsame).
  - clear Hl. induction Hsame as [|ra rb a b Hrow _ IH]; [constructor|].
    inversion Ha; subst. constructor; [lia|auto].
Qed.

Lemma iadd_keeps (a b c : tensor matrix) :
  iadd a b = Ok c →
  dtype_of c = dtype_of a ∧ ∀ r k, has_shape (data a) r k → has_shape (data c) r k.
Proof.
  unfold iadd. cbv zeta. destruct (mzip _ (data a) (data b)) as [m|e] eqn:Hadd; [|discriminate].
  intros [= <-]. split; [done|]. intros r k. simpl. by eapply mzip_shape.
Qed.

Lemma isub_keeps (a b c : tensor matrix) :
  isub a b = Ok c →
  dtype_of c = dtype_of a ∧ ∀ r k, has_shape (data a) r k → has_shape (data c) r k.
Proof.
  unfold isub. cbv zeta. destruct (mzip _ (data a) (data b)) as [m|e] eqn:Hsub; [|discriminate].
  intros [= <-]. split; [done|]. intros r k. simpl. by eapply mzip_shape.
Qed.

Section Outcomes.
Context `{!Collaborators}.
Local Abbreviation st self W M := (set_merged_adapters M (set_base_weight W self)).
Local Abbreviation configured self := (λ a : string, is_Some (waveft_spectrum self !! a)).

(** The loop of [merge], whatever its outcome: it has pushed a prefix of the
    configured names it was given -- all of them if it returned -- and has
    written nothing but the base weight and the list of merged adapters. *)
Lemma for_each_merge_outcome self safe_merge names : ∀ W M,
  ∃ pushed W',
    (for_each (merge_adapter safe_merge) names (st self W M)).2 = st self W' (M ++ pushed) ∧
    pushed `prefix_of` filter (configured self) names ∧
    ((for_each (merge_adapter safe_merge) names (st self W M)).1 = Ok () →
     pushed = filter (configured self) names) ∧
    dtype_of W' = dtype_of W ∧
    (∀ r c, has_shape (data W) r c → has_shape (data W') r c) ∧
    (pushed = [] → W' = W) ∧
    (safe_merge = true → pushed ≠ [] → isfinite_all (data W') = true).
Proof.
  induction names as [|a names IH]; intros W M.
  { exists [], W. rewrite app_nil_r. by split_and!. }
  simpl. unfold mbind, method_bind.
  destruct (waveft_spectrum self !! a) as [sp|] eqn:Hsp.
  2: { rewrite merge_adapter_skip by done.
       rewrite filter_cons_False by (rewrite Hsp; by intros [? ?]). apply IH. }
  rewrite filter_cons_True by (by rewrite Hsp).
  pose proof (merge_adapter_cases self W M safe_merge a ltac:(by rewrite Hsp)) as Hcase.
  assert (∃ pushed W',
    st self W M = st self W' (M ++ pushed) ∧
    pushed `prefix_of` a :: filter (configured self) names ∧
    (@Raise unit IndexError = Ok () → pushed = a :: filter (configured self) names) ∧
    dtype_of W' = dtype_of W ∧
    (∀ r c, has_shape (data W) r c → has_shape (data W') r c) ∧
    (pushed = [] → W' = W) ∧
    (safe_merge = true → pushed ≠ [] → isfinite_all (data W') = true)) as Hstop.
  { exists [], W. rewrite app_nil_r. split_and!; try done. apply prefix_nil. }
  destruct Hstop as (p0 & W0 & Hst0 & Hpre0 & _ & Hdt0 & Hsh0 & Hnil0 & Hfin0).
  destruct (get_delta_weight self a) as [d|e] eqn:Hd.
  2: { rewrite Hcase. exists p0, W0. by split_and!. }
  destruct (iadd W d) as [W1|e] eqn:Hadd.
  2: { rewrite Hcase. exists p0, W0. by split_and!. }
  destruct (safe_merge && negb (isfinite_all (data W1))) eqn:Hcheck; rewrite Hcase.
  { exists p0, W0. by split_and!. }
  destruct (iadd_keeps _ _ _ Hadd) as [Hdt1 Hsh1].
  destruct (IH W1 (M ++ [a])) as (pushed & W' & Hfinal & Hpre & Hall & Hdt & Hsh & Hnil & Hfin).
  exists (a :: pushed), W'. split_and!.
  - rewrite Hfinal. by rewrite <- app_assoc.
  - by apply prefix_cons.
  - intros Hok. by rewrite (Hall Hok).
  - congruence.
  - auto.
  - done.
  - intros Hsafe _. destruct pushed as [|p pushed]; [|by apply Hfin].
    rewrite (Hnil eq_refl). subst safe_merge. simpl in Hcheck.
    by destruct (isfinite_all (data W1)).
Qed.

(** The loop of [unmerge], whatever its outcome: it has popped names off the
    end of the list -- all of them if it returned and had fuel for each --
    and has written nothing but the base weight and that list. *)
Lemma unmerge_loop_outcome fuel : ∀ self,
  ∃ W' M',
    (unmerge_loop fuel self).2 = st self W' M' ∧
    M' `prefix_of` merged_adapters self ∧
    ((unmerge_loop fuel self).1 = Ok () → (length (merged_adapters self) ≤ fuel)%nat → M' = []) ∧
    dtype_of W' = dtype_of (base_weight self) ∧
    (∀ r c, has_shape (data (base_weight self)) r c → has_shape (data W') r c).
Proof.
  induction fuel as [|fuel IH]; intros self; rewrite unmerge_loop_unfold.
  { exists (base_weight self), (merged_adapters self). rewrite layer_eta.
    split_and!; try done. intros _ Hlen. destruct (merged_adapters self); [done|simpl in *; lia]. }
  destruct (pop (merged_adapters self)) as [[a rest]|] eqn:Hpop.
  2: { exists (base_weight self), (merged_adapters self). rewrite layer_eta.
       split_and!; try done. intros _ _. unfold pop in Hpop.
       destruct (reverse (merged_adapters self)) eqn:Hrev; [|discriminate].
       by rewrite <- (reverse_involutive (merged_adapters self)), Hrev. }
  apply pop_Some in Hpop. cbv zeta.
  assert (∃ W' M',
    set_merged_adapters rest self = st self W' M' ∧ M' `prefix_of` merged_adapters self ∧
    dtype_of W' = dtype_of (base_weight self) ∧
    (∀ r c, has_shape (data (base_weight self)) r c → has_shape (data W') r c)) as Hstop.
  { exists (base_weight self), rest. split_and!; try done.
    rewrite Hpop. by apply prefix_app_r. }
  destruct Hstop as (W0 & M0 & Hst0 & Hpre0 & Hdt0 & Hsh0).
  assert (∀ s, merged_adapters s = rest →
               (∀ W' M', st s W' M' = st self W' M') →
               dtype_of (base_weight s) = dtype_of (base_weight self) →
               (∀ r c, has_shape (data (base_weight self)) r c →
                       has_shape (data (base_weight s)) r c) →
    ∃ W' M',
    (unmerge_loop fuel s).2 = st self W' M' ∧
    M' `prefix_of` merged_adapters self ∧
    ((unmerge_loop fuel s).1 = Ok () → (length (merged_adapters self) ≤ S fuel)%nat → M' = []) ∧
    dtype_of W' = dtype_of (base_weight self) ∧
    (∀ r c, has_shape (data (base_weight self)) r c → has_shape (data W') r c)) as Hgo.
  { intros s Hm Hst Hdt Hsh.
    destruct (IH s) as (W' & M' & Hfinal & Hpre & Hall & Hdt' & Hsh').
    exists W', M'. split_and!.
    - by rewrite Hfinal, Hst.
    - rewrite Hpop. rewrite Hm in Hpre. by apply prefix_app_r.
    - intros Hok Hlen. apply Hall; [done|]. rewrite Hm. rewrite Hpop, length_app in Hlen.
      simpl in Hlen. lia.
    - congruence.
    - auto. }
  destruct (bool_decide (is_Some (waveft_spectrum self !! a))).
  - destruct (get_delta_weight self a) as [d|e].
    2: { exists W0, M0. rewrite Hst0. by split_and!. }
    destruct (isub (base_weight self) d) as [W1|e] eqn:Hsub.
    2: { exists W0, M0. rewrite Hst0. by split_and!. }
    destruct (isub_keeps _ _ _ Hsub) as [Hdt1 Hsh1].
    apply Hgo; try done.
  - apply Hgo; try done.
Qed.
End Outcomes.

Section MergeFacts.
Context `{!Collaborators}.
Local Abbreviation configured self := (λ a : string, is_Some (waveft_spectrum self !! a)).

Lemma merge_adapter_safe_agrees adapter self self' :
  merge_adapter true adapter self = (Ok (), self') →
  merge_adapter false adapter self = (Ok (), self').
Proof.
  rewrite <- (layer_eta self).
  destruct (waveft_spectrum self !! adapter) as [sp|] eqn:Hsp.
  - pose proof (merge_adapter_cases self (base_weight self) (merged_adapters self)
                  true adapter ltac:(by rewrite Hsp)) as Hsafe.
    pose proof (merge_adapter_cases self (base_weight self) (merged_adapters self)
                  false adapter ltac:(by rewrite Hsp)) as Hplain.
    destruct (get_delta_weight self adapter) as [d|e]; [|by rewrite Hsafe].
    destruct (iadd (base_weight self) d) as [W'|e]; [|by rewrite Hsafe].
    simpl in Hplain. rewrite Hplain.
    destruct (true && negb (isfinite_all (data W'))); by rewrite Hsafe.
  - by rewrite !merge_adapter_skip.
Qed.

Lemma for_each_safe_agrees names : ∀ self self',
  for_each (merge_adapter true) names self = (Ok (), self') →
  for_each (merge_adapter false) names self = (Ok (), self').
Proof.
  induction names as [|a names IH]; intros self self'; [done|].
  simpl. unfold mbind, method_bind.
  destruct (merge_adapter true a self) as [[[]|e] s1] eqn:Hstep; [|discriminate].
  rewrite (merge_adapter_safe_agrees _ _ _ Hstep). apply IH.
Qed.

(** X1. [safe_merge] adds a check and nothing else: whenever a safe merge
    returns, the plain merge of the same adapters returns too and leaves the
    very same layer. *)
Theorem safe_merge_agrees_with_plain_merge adapter_names self self' :
  merge true adapter_names self = (Ok (), self') →
  merge false adapter_names self = (Ok (), self').
Proof.
  unfold merge. unfold mbind, method_bind, get_self.
  destruct (check_adapters_to_merge self adapter_names) as [|a names]; [done|].
  apply for_each_safe_agrees.
Qed.

(** X2. What [merge] does to the stack: it appends to [merged_adapters], in
    resolution order, a prefix of those resolved names that are configured,
    and all of them when it returns; nothing is ever removed or reordered. *)
Theorem merge_pushes_configured_names safe_merge adapter_names self :
  let outcome := merge safe_merge adapter_names self in
  let resolved := check_adapters_to_merge self adapter_names in
  ∃ pushed,
    merged_adapters outcome.2 = merged_adapters self ++ pushed ∧
    pushed `prefix_of` filter (configured self) resolved ∧
    (outcome.1 = Ok () → pushed = filter (configured self) resolved).
Proof.
  simpl. unfold merge. unfold mbind, method_bind, get_self.
  destruct (check_adapters_to_merge self adapter_names) as [|a names] eqn:Hnames.
  { exists []. rewrite app_nil_r. by split_and!. }
  destruct (for_each_merge_outcome self safe_merge (a :: names)
              (base_weight self) (merged_adapters self))
    as (pushed & W' & Hfinal & Hpre & Hall & _).
  rewrite layer_eta in Hfinal, Hall. exists pushed. rewrite Hfinal. by split_and!.
Qed.

(** X3. [merge] writes the base weight and the list of merged adapters and
    nothing else, whether it returns or raises: the adapter dictionaries,
    dimensions and flags are as before, so every adapter has the delta it had;
    and the base weight keeps its dtype and its shape. *)
Theorem merge_writes_weight_and_stack_only safe_merge adapter_names self :
  let self' := (merge safe_merge adapter_names self).2 in
  self' = set_merged_adapters (merged_adapters self') (set_base_weight (base_weight self') self) ∧
  (∀ adapter, get_delta_weight self' adapter = get_delta_weight self adapter) ∧
  dtype_of (base_weight self') = dtype_of (base_weight self) ∧
  (∀ r c, has_shape (data (base_weight self)) r c → has_shape (data (base_weight self')) r c).
Proof.
  simpl. unfold merge. unfold mbind, method_bind, get_self.
  destruct (check_adapters_to_merge self adapter_names) as [|a names] eqn:Hnames.
  { split_and!; try done. by rewrite layer_eta. }
  destruct (for_each_merge_outcome self safe_merge (a :: names)
              (base_weight self) (merged_adapters self))
    as (pushed & W' & Hfinal & _ & _ & Hdt & Hsh & _).
  rewrite layer_eta in Hfinal. rewrite Hfinal. by split_and!.
Qed.

(** X4. A safe merge never lets a non-finite entry into the base weight: if
    the weight was finite before, it is finite after, whether the merge
    returned or raised; and if the merge committed any adapter at all, the
    weight is finite afterwards whatever it was before. *)
Theorem safe_merge_keeps_weight_finite adapter_names self :
  let self' := (merge true adapter_names self).2 in
  (isfinite_all (data (base_weight self)) = true →
   isfinite_all (data (base_weight self')) = true) ∧
  (merged_adapters self' ≠ merged_adapters self →
   isfinite_all (data (base_weight self')) = true).
Proof.
  simpl. unfold merge. unfold mbind, method_bind, get_self.
  destruct (check_adapters_to_merge self adapter_names) as [|a names] eqn:Hnames; [done|].
  destruct (for_each_merge_outcome self true (a :: names)
              (base_weight self) (merged_adapters self))
    as (pushed & W' & Hfinal & _ & _ & _ & _ & Hnil & Hfin).
  rewrite layer_eta in Hfinal. rewrite Hfinal. simpl. split.
  - intros Hbase. destruct pushed as [|p pushed]; [by rewrite Hnil|by apply Hfin].
  - intros Hne. apply Hfin; [done|]. intros ->. by rewrite app_nil_r in Hne.
Qed.

(** X5. [unmerge] writes the base weight and the list of merged adapters and
    nothing else, keeps dtype and shape of the weight, and only ever drops
    names from the end of the list; when it returns, the list is empty, and
    a second [unmerge] is then a no-op. *)
Theorem unmerge_empties_the_stack self :
  let outcome := unmerge self in
  outcome.2 = set_merged_adapters (merged_adapters outcome.2)
                (set_base_weight (base_weight outcome.2) self) ∧
  merged_adapters outcome.2 `prefix_of` merged_adapters self ∧
  dtype_of (base_weight outcome.2) = dtype_of (base_weight self) ∧
  (∀ r c, has_shape (data (base_weight self)) r c →
          has_shape (data (base_weight outcome.2)) r c) ∧
  (∀ adapter, get_delta_weight outcome.2 adapter = get_delta_weight self adapter) ∧
  (outcome.1 = Ok () → merged_adapters outcome.2 = [] ∧ unmerge outcome.2 = (Ok (), outcome.2)).
Proof.
  simpl. rewrite unmerge_unfold. unfold merged.
  destruct (merged_adapters self) as [|m ms] eqn:HM.
  { rewrite bool_decide_eq_false_2 by auto. simpl. rewrite HM.
    split_and!; try done.
    - rewrite <- HM. by rewrite layer_eta.
    - intros _. split; [done|]. rewrite unmerge_unfold. unfold merged. rewrite HM.
      by rewrite bool_decide_eq_false_2 by auto. }
  rewrite bool_decide_eq_true_2 by done. simpl negb. cbv iota.
  destruct (unmerge_loop_outcome (length (m :: ms)) self)
    as (W' & M' & Hfinal & Hpre & Hall & Hdt & Hsh).
  rewrite HM in Hpre, Hall. rewrite Hfinal. simpl merged_adapters. simpl base_weight.
  split_and!; try done.
  intros Hok. assert (M' = []) as -> by (by apply Hall).
  split; [done|]. rewrite unmerge_unfold. unfold merged. simpl merged_adapters.
  by rewrite bool_decide_eq_false_2 by auto.
Qed.
End MergeFacts.

(** *** update_layer and reset_wave_parameters *)

Section UpdateFacts.
Context `{!Collaborators}.

(** The layer after [update_layer], success or failure, field by field. *)
Lemma update_layer_fields name n_frequency scaling init_weights seed family self :
  let self' := (update_layer name n_frequency scaling init_weights seed family self).2 in
  base_weight self' = base_weight self ∧
  disable_adapters self' = disable_adapters self ∧
  merged_adapters self' = merged_adapters self ∧
  kwargs self' = kwargs self ∧
  in_features self' = in_features self ∧
  out_features self' = out_features self ∧
  active_adapters self' = active_adapters self ∧
  ∀ other, other ≠ name →
    waveft_n_frequency self' !! other = waveft_n_frequency self !! other ∧
    waveft_scaling self' !! other = waveft_scaling self !! other ∧
    waveft_wavelet_family self' !! other = waveft_wavelet_family self !! other ∧
    waveft_random_loc_seed self' !! other = waveft_random_loc_seed self !! other ∧
    indices self' !! other = indices self !! other ∧
    waveft_spectrum self' !! other = waveft_spectrum self !! other.
Proof.
  simpl.
  pose proof (update_layer_raises name n_frequency scaling init_weights seed family self)
    as (Hneg & Hbig & Hunk). simpl in *.
  destruct (decide (n_frequency ≤ 0)) as [?|Hpos]; [by rewrite Hneg|].
  destruct (decide (n_frequency > in_features self * out_features self)) as [?|Hle];
    [by rewrite Hbig by lia|].
  destruct (assoc WAVELET_REDUCTIONS family) as [red|] eqn:Hfam;
    [|by rewrite Hunk by (done || lia)].
  destruct (update_layer_ok name n_frequency scaling init_weights seed family self)
    as (s & Hs & Hw & Hd & Hm & Hkw & Hin & Hout & Hact & Hnf & Hsc & Hwv & Hseed & Hidx & Hsp);
    [lia|by rewrite Hfam|].
  rewrite Hs. simpl. split_and!; try done.
  intros other Hne. simpl in Hidx. rewrite Hnf, Hsc, Hwv, Hseed, Hidx, Hsp.
  by rewrite !lookup_insert_ne.
Qed.

(** X6. [update_layer] is local to the adapter it is called for: whether it
    returns or raises, the base weight, the merged list, the flags and the
    dimensions are untouched, every other adapter keeps its entries in all
    six dictionaries, and so keeps the delta weight it had. *)
Theorem update_layer_leaves_other_adapters name n_frequency scaling init_weights seed family self :
  let self' := (update_layer name n_frequency scaling init_weights seed family self).2 in
  base_weight self' = base_weight self ∧
  merged_adapters self' = merged_adapters self ∧
  disable_adapters self' = disable_adapters self ∧
  active_adapters self' = active_adapters self ∧
  in_features self' = in_features self ∧
  out_features self' = out_features self ∧
  ∀ other, other ≠ name →
    waveft_spectrum self' !! other = waveft_spectrum self !! other ∧
    indices self' !! other = indices self !! other ∧
    waveft_scaling self' !! other = waveft_scaling self !! other ∧
    waveft_wavelet_family self' !! other = waveft_wavelet_family self !! other ∧
    waveft_n_frequency self' !! other = waveft_n_frequency self !! other ∧
    waveft_random_loc_seed self' !! other = waveft_random_loc_seed self !! other ∧
    get_delta_weight self' other = get_delta_weight self other.
Proof.
  pose proof (update_layer_fields name n_frequency scaling init_weights seed family self)
    as (Hw & Hd & Hm & Hkw & Hin & Hout & Hact & Hother).
  simpl in *. split_and!; try done.
  intros other Hne. destruct (Hother other Hne) as (Hnf & Hsc & Hwv & Hseed & Hidx & Hsp).
  split_and!; try done.
  unfold get_delta_weight, parameter_getitem, getitem. by rewrite Hsp, Hidx, Hwv, Hsc, Hkw, Hin, Hout.
Qed.

(** X7. The stored index pairs encode the sampled flat positions: whenever
    [update_layer] returns, [row * in_features + col] gives back, pair by
    pair, the first [n_frequency] values of the permutation. *)
Theorem stored_indices_decode_to_flat_positions name n_frequency scaling init_weights seed family self self' :
  update_layer name n_frequency scaling init_weights seed family self = (Ok (), self') →
  ∃ rows cols,
    indices self' !! name = Some (rows, cols) ∧
    zip_with (λ r c, r * in_features self + c) rows cols
    = take (Z.to_nat n_frequency)
        (randperm (out_features self * in_features self) (manual_seed seed)).
Proof.
  intros Hrun.
  pose proof (update_layer_raises name n_frequency scaling init_weights seed family self)
    as (Hneg & Hbig & Hunk). simpl in *.
  destruct (decide (n_frequency ≤ 0)) as [?|Hpos]; [rewrite Hneg in Hrun by done; discriminate|].
  destruct (decide (n_frequency > in_features self * out_features self)) as [?|Hle];
    [rewrite Hbig in Hrun by lia; discriminate|].
  destruct (assoc WAVELET_REDUCTIONS family) as [red|] eqn:Hfam;
    [|rewrite Hunk in Hrun by (done || lia); discriminate].
  destruct (update_layer_ok name n_frequency scaling init_weights seed family self)
    as (s & Hs & _ & _ & _ & _ & _ & _ & _ & _ & _ & _ & _ & Hidx & _);
    [lia|by rewrite Hfam|].
  rewrite Hs in Hrun. injection Hrun as <-. simpl in Hidx.
  eexists _, _. split; [by rewrite Hidx, lookup_insert_eq|].
  assert (in_features self ≠ 0) as Hin by (intros E; rewrite E in *; lia).
  generalize (take (Z.to_nat n_frequency)
                (randperm (out_features self * in_features self) (manual_seed seed))).
  intros sampled. induction sampled as [|v sampled IH]; [done|].
  simpl. f_equal; [|exact IH].
  rewrite (Z.div_mod v (in_features self)) at 3 by done. lia.
Qed.

(** X8. The dense boundary: with [n_frequency = in_features * out_features]
    every cell of the grid is among the indices (exactly once, the pairs
    being distinct and as many as there are cells). *)
Theorem update_layer_dense_covers_grid name scaling init_weights seed family self self' :
  randperm_contract →
  0 ≤ in_features self → 0 ≤ out_features self →
  update_layer name (in_features self * out_features self) scaling init_weights seed family self
    = (Ok (), self') →
  ∃ rows cols,
    indices self' !! name = Some (rows, cols) ∧
    Z.of_nat (length (zip rows cols)) = in_features self * out_features self ∧
    NoDup (zip rows cols) ∧
    ∀ r c, 0 ≤ r < out_features self → 0 ≤ c < in_features self → (r, c) ∈ zip rows cols.
Proof.
  intros Hperm Hin Hout Hrun.
  set (n_frequency := in_features self * out_features self) in *.
  pose proof (update_layer_raises name n_frequency scaling init_weights seed family self)
    as (Hneg & Hbig & Hunk). simpl in *.
  destruct (decide (n_frequency ≤ 0)) as [?|Hpos]; [rewrite Hneg in Hrun by done; discriminate|].
  destruct (assoc WAVELET_REDUCTIONS family) as [red|] eqn:Hfam;
    [|rewrite Hunk in Hrun by (done || lia); discriminate].
  destruct (update_layer_ok name n_frequency scaling init_weights seed family self)
    as (s & Hs & _ & _ & _ & _ & _ & _ & _ & _ & _ & _ & _ & Hidx & _);
    [lia|by rewrite Hfam|].
  rewrite Hs in Hrun. injection Hrun as <-. simpl in Hidx.
  destruct (sampled_indices_spec seed n_frequency (out_features self) (in_features self))
    as (_ & Hlr & Hlc & Hnd & Hr & Hc); try done; [lia|].
  eexists _, _. split; [by rewrite Hidx, lookup_insert_eq|].
  split_and!; [rewrite length_zip; lia|done|].
  intros r c Hr' Hc'.
  set (perm := randperm (out_features self * in_features self) (manual_seed seed)) in *.
  assert (perm ≡ₚ seqZ 0 (out_features self * in_features self)) as Hp
    by (apply Hperm; unfold n_frequency in *; lia).
  assert (take (Z.to_nat n_frequency) perm = perm) as Htake.
  { apply take_ge. rewrite Hp, length_seqZ. unfold n_frequency. lia. }
  rewrite Htake. rewrite <- prod_map_zip, zip_diag, <- list_fmap_compose.
  apply list_elem_of_fmap. exists (r * in_features self + c). split.
  - simpl. f_equal.
    + apply (Z.div_unique _ _ _ c); lia.
    + apply (Z.mod_unique _ _ r c); lia.
  - rewrite Hp. apply elem_of_seqZ. nia.
Qed.

(** What [reset_wave_parameters] returns. *)
Lemma reset_wave_parameters_unfold name self :
  reset_wave_parameters name self =
  match waveft_spectrum self !! name with
  | Some p => (Ok (), set_waveft_spectrum (<[name := zeros_ p]> (waveft_spectrum self)) self)
  | None => (Ok (), self)
  end.
Proof.
  unfold reset_wave_parameters. unfold mbind, method_bind, get_self.
  by destruct (waveft_spectrum self !! name).
Qed.
End UpdateFacts.

(** *** get_delta_weight *)

Section DeltaFacts.
Context `{!Collaborators}.

(** An adapter whose spectrum is all zero has the zero matrix as its delta. *)
Lemma zero_spectrum_zero_delta self adapter spectrum :
  wf_layer self →
  (default true (kwargs self !! "use_idwt") = true →
   waverec2d_shape_contract ∧ waverec2d_zero_contract) →
  waveft_spectrum self !! adapter = Some spectrum →
  Forall (λ a, a = Fin 0) (data spectrum) →
  ∃ delta_weight,
    get_delta_weight self adapter = Ok delta_weight ∧
    data delta_weight = zeros (out_features self) (in_features self).
Proof.
  intros Hwf Hcontract Hsp Hz.
  destruct (wf_layer_adapter _ _ _ Hwf Hsp)
    as (nf & k & fam & rows & cols & red & _ & Hk & Hfam & Hidx & Hred & _ & _
        & _ & _ & _ & _ & _ & Hout & Hin).
  destruct (default true (kwargs self !! "use_idwt")) eqn:Hmode.
  - destruct (Hcontract eq_refl) as [Hshape Hzero].
    destruct (idwt_reconstruction self adapter _ rows cols fam k red Hshape Hwf Hmode Hsp
                Hidx Hfam Hk Hred)
      as (dense & R & C & Hdense & Hrec & HR & HC & Hdelta).
    eexists. split; [exact Hdelta|].
    apply all_zero_shape; [|by apply (center_crop_spec _ _ _ R C)].
    apply all_zero_center_crop. simpl. apply all_zero_mscale.
    pose proof (padded_dense_spectrum_all_zero _ _ _ _ _ _ Hz Hdense) as Hdz.
    unfold sub_bands. apply Hzero; simpl; by apply all_zero_slice2.
  - destruct (direct_delta_weight_dense self adapter _ rows cols k Hwf Hmode Hsp Hidx Hk)
      as (dense & Hput & Hdelta & Hshape & _).
    eexists. split; [exact Hdelta|]. simpl.
    apply all_zero_shape; [|by apply has_shape_mscale].
    apply all_zero_mscale. eapply index_put_all_zero; [apply all_zero_zeros|exact Hz|done].
Qed.

(** X9. [reset_wave_parameters] never raises.  On a name without spectrum it
    does nothing; otherwise it overwrites that spectrum with as many zeros,
    of the same dtype, and writes nothing else: every other field of the
    layer is as before, and every other adapter keeps its delta weight;
    resetting twice is resetting once.  On a well-formed layer the adapter
    then is a no-op: its delta weight is the zero matrix of shape
    (out_features, in_features) (in IDWT mode given the contracts of the
    reconstruction primitive). *)
Theorem reset_wave_parameters_zeroes_adapter name self :
  let outcome := reset_wave_parameters name self in
  outcome.1 = Ok () ∧
  (waveft_spectrum self !! name = None → outcome.2 = self) ∧
  (∀ p, waveft_spectrum self !! name = Some p →
        outcome.2 = set_waveft_spectrum
                      (<[name := Tensor (dtype_of p) (replicate (length (data p)) (Fin 0))]>
                         (waveft_spectrum self)) self) ∧
  (∀ other, other ≠ name →
            waveft_spectrum outcome.2 !! other = waveft_spectrum self !! other ∧
            get_delta_weight outcome.2 other = get_delta_weight self other) ∧
  reset_wave_parameters name outcome.2 = (Ok (), outcome.2) ∧
  (wf_layer self → wf_layer outcome.2) ∧
  (wf_layer self →
   (default true (kwargs self !! "use_idwt") = true →
    waverec2d_shape_contract ∧ waverec2d_zero_contract) →
   is_Some (waveft_spectrum self !! name) →
   ∃ delta_weight,
     get_delta_weight outcome.2 name = Ok delta_weight ∧
     data delta_weight = zeros (out_features self) (in_features self)).
Proof.
  simpl. rewrite reset_wave_parameters_unfold.
  assert (∀ {A} (l : list A), map (λ _, Fin 0) l = replicate (length l) (Fin 0)) as Hmap.
  { intros A l. induction l as [|x l IH]; simpl; [done|]. by rewrite IH. }
  destruct (waveft_spectrum self !! name) as [p|] eqn:Hp; simpl.
  2: { split_and!; try done; try (by intros _ _ [? ?]).
       by rewrite reset_wave_parameters_unfold, Hp. }
  assert (wf_layer self →
          wf_layer (set_waveft_spectrum (<[name:=zeros_ p]> (waveft_spectrum self)) self))
    as Hwf'.
  { intros (Hin & Hout & Hall). split_and!; [done|done|]. simpl.
    apply map_Forall_insert_2; [|done].
    specialize (Hall name p Hp). unfold wf_adapter in *. simpl.
    destruct (waveft_n_frequency self !! name); [|done].
    destruct (waveft_scaling self !! name); [|done].
    destruct (waveft_wavelet_family self !! name); [|done].
    destruct (indices self !! name) as [[rows cols]|]; [|done].
    by rewrite length_map. }
  split_and!; try done.
  - intros q [= <-]. unfold zeros_. by rewrite Hmap.
  - intros other Hne. split; [by rewrite lookup_insert_ne|].
    unfold get_delta_weight, parameter_getitem. simpl. by rewrite lookup_insert_ne.
  - rewrite reset_wave_parameters_unfold. simpl. rewrite lookup_insert_eq.
    rewrite insert_insert_eq. unfold zeros_. simpl. by rewrite !Hmap, length_replicate.
  - intros Hwf Hcontract _.
    destruct (zero_spectrum_zero_delta
                (set_waveft_spectrum (<[name:=zeros_ p]> (waveft_spectrum self)) self)
                name (zeros_ p)) as (d & Hd & Hz); [by apply Hwf'|done| | |by exists d].
    + simpl. by rewrite lookup_insert_eq.
    + simpl. rewrite Hmap. by apply Forall_replicate.
Qed.

(** X10. [get_delta_weight] has no matrix for an adapter without spectrum:
    the lookup in the parameter dictionary fails, in both modes; and on a
    well-formed layer that is the only way it can fail (in IDWT mode given
    the shape contract of the reconstruction primitive): it returns a matrix
    exactly for the configured adapters. *)
Theorem get_delta_weight_fails_on_missing_adapter_only self adapter :
  (waveft_spectrum self !! adapter = None →
   ∃ e, get_delta_weight self adapter = Raise e) ∧
  (wf_layer self →
   (default true (kwargs self !! "use_idwt") = true → waverec2d_shape_contract) →
   ((∃ delta_weight, get_delta_weight self adapter = Ok delta_weight)
    ↔ is_Some (waveft_spectrum self !! adapter))).
Proof.
  assert (waveft_spectrum self !! adapter = None →
          ∃ e, get_delta_weight self adapter = Raise e) as Hmissing.
  { intros Hnone. eexists. unfold get_delta_weight, parameter_getitem. by rewrite Hnone. }
  split; [done|]. intros Hwf Hcontract. split.
  - intros [d Hd]. destruct (waveft_spectrum self !! adapter) eqn:Hsp; [done|].
    destruct (Hmissing eq_refl) as [e He]. rewrite He in Hd. done.
  - intros Hsome. destruct (get_delta_weight_shape self adapter Hwf Hcontract Hsome)
      as (d & Hd & _). by exists d.
Qed.

(** X11. The call of the reconstruction primitive respects its precondition:
    on a well-formed layer the padded dense spectrum has even sides, and the
    four sub-bands handed to [waverec2d] all have the shape of half of it,
    and the dtype of the spectrum. *)
Theorem idwt_sub_bands_have_equal_shape self adapter spectrum rows cols family
    reduction_rows reduction_cols :
  wf_layer self →
  waveft_spectrum self !! adapter = Some spectrum →
  indices self !! adapter = Some (rows, cols) →
  assoc WAVELET_REDUCTIONS family = Some (reduction_rows, reduction_cols) →
  let padded_out_features := padded_features (out_features self) reduction_rows in
  let padded_in_features := padded_features (in_features self) reduction_cols in
  ∃ dense_spectrum cA cH cV cD,
    padded_dense_spectrum (out_features self) (in_features self)
      (reduction_rows, reduction_cols) spectrum (rows, cols) = Ok dense_spectrum ∧
    sub_bands dense_spectrum = (cA, (cH, cV, cD)) ∧
    padded_out_features = 2 * (padded_out_features `div` 2) ∧
    padded_in_features = 2 * (padded_in_features `div` 2) ∧
    Forall (λ band : tensor matrix,
              has_shape (data band) (padded_out_features `div` 2) (padded_in_features `div` 2) ∧
              dtype_of band = dtype_of spectrum) [cA; cH; cV; cD].
Proof.
  intros Hwf Hsp Hidx Hred.
  destruct (wf_layer_adapter _ _ _ Hwf Hsp)
    as (n & k & fam & rows' & cols' & red & _ & _ & _ & Hidx' & _ & _ & _
        & Hlr & Hlc & Hr & Hc & Hnd & Hout & Hin).
  rewrite Hidx in Hidx'. injection Hidx' as <- <-.
  destruct (reductions_nonneg _ _ _ Hred) as [Hrr Hrc].
  destruct (padded_dense_spectrum_ok (out_features self) (in_features self)
              reduction_rows reduction_cols spectrum rows cols)
    as (_ & _ & _ & _ & _ & _ & dense & Hdense & Hshape & _); try done.
  pose proof (padded_features_spec (out_features self) reduction_rows) as [HPo HPo2].
  pose proof (padded_features_spec (in_features self) reduction_cols) as [HPi HPi2].
  simpl in HPo, HPo2, HPi, HPi2. simpl.
  set (P_out := padded_features (out_features self) reduction_rows) in *.
  set (P_in := padded_features (in_features self) reduction_cols) in *.
  assert (P_out = 2 * (P_out `div` 2)) as HPo3 by (apply Z.div_exact; lia).
  assert (P_in = 2 * (P_in `div` 2)) as HPi3 by (apply Z.div_exact; lia).
  rewrite HPo3, HPi3 in Hshape.
  pose proof (sub_bands_shape (Tensor (dtype_of spectrum) dense) _ _ Hshape
                ltac:(lia) ltac:(lia)) as Hbands.
  assert (∀ band, band ∈ [((sub_bands (Tensor (dtype_of spectrum) dense)).1);
                          ((sub_bands (Tensor (dtype_of spectrum) dense)).2.1.1);
                          ((sub_bands (Tensor (dtype_of spectrum) dense)).2.1.2);
                          ((sub_bands (Tensor (dtype_of spectrum) dense)).2.2)] →
                 dtype_of band = dtype_of spectrum) as Hdt.
  { intros band Hband. unfold sub_bands in Hband. simpl in Hband.
    repeat (apply elem_of_cons in Hband as [->|Hband]; [done|]). by apply elem_of_nil in Hband. }
  destruct (sub_bands (Tensor (dtype_of spectrum) dense)) as [cA [[cH cV] cD]] eqn:Hsub.
  destruct Hbands as (HA & HH & HV & HD). simpl in Hdt.
  exists (Tensor (dtype_of spectrum) dense), cA, cH, cV, cD.
  split_and!; try done.
  repeat (constructor; [split; [done|apply Hdt; repeat first [apply list_elem_of_here|apply list_elem_of_further]]|]). constructor.
Qed.
End DeltaFacts.

(** *** When merge and unmerge can fail *)

Section Totality.
Context `{!Collaborators}.
Local Abbreviation st self W M := (set_merged_adapters M (set_base_weight W self)).

Lemma iadd_returns (a b : tensor matrix) r c :
  has_shape (data a) r c → has_shape (data b) r c →
  ∃ t, iadd a b = Ok t ∧ has_shape (data t) r c.
Proof.
  intros Ha Hb. unfold iadd, mzip. cbv zeta.
  rewrite (has_shape_same_shape _ _ _ _ Ha Hb). rbind.
  eexists. split; [done|]. simpl. by apply has_shape_zip_with.
Qed.

Lemma isub_returns (a b : tensor matrix) r c :
  has_shape (data a) r c → has_shape (data b) r c →
  ∃ t, isub a b = Ok t ∧ has_shape (data t) r c.
Proof.
  intros Ha Hb. unfold isub, mzip. cbv zeta.
  rewrite (has_shape_same_shape _ _ _ _ Ha Hb). rbind.
  eexists. split; [done|]. simpl. by apply has_shape_zip_with.
Qed.

Lemma for_each_merge_returns self safe_merge names : ∀ W M,
  wf_layer self →
  (default true (kwargs self !! "use_idwt") = true → waverec2d_shape_contract) →
  has_shape (data W) (out_features self) (in_features self) →
  match (for_each (merge_adapter safe_merge) names (st self W M)).1 with
  | Ok _ => True
  | Raise e =>
      safe_merge = true ∧
      ∃ adapter, adapter ∈ names ∧ is_Some (waveft_spectrum self !! adapter) ∧
                 e = ValueError_nans_detected adapter
  end.
Proof.
  induction names as [|a names IH]; intros W M Hwf Hcontract HW; [done|].
  simpl. unfold mbind, method_bind.
  assert (∀ W1 M1, has_shape (data W1) (out_features self) (in_features self) →
    match (for_each (merge_adapter safe_merge) names (st self W1 M1)).1 with
    | Ok _ => True
    | Raise e =>
        safe_merge = true ∧
        ∃ adapter, adapter ∈ a :: names ∧ is_Some (waveft_spectrum self !! adapter) ∧
                   e = ValueError_nans_detected adapter
    end) as Hgo.
  { intros W1 M1 HW1. specialize (IH W1 M1 Hwf Hcontract HW1).
    destruct (for_each _ names _).1 as [[]|e]; [done|].
    destruct IH as (Hsafe & b & Hb & Hsome & ->). split; [done|].
    exists b. split_and!; try done. by apply list_elem_of_further. }
  destruct (waveft_spectrum self !! a) as [sp|] eqn:Hsp.
  2: { rewrite merge_adapter_skip by done. by apply Hgo. }
  pose proof (merge_adapter_cases self W M safe_merge a ltac:(by rewrite Hsp)) as Hcase.
  destruct (get_delta_weight_shape self a Hwf Hcontract ltac:(by rewrite Hsp))
    as (d & Hd & Hshape & _).
  rewrite Hd in Hcase.
  destruct (iadd_returns W d _ _ HW Hshape) as (W1 & Hadd & HW1). rewrite Hadd in Hcase.
  destruct (safe_merge && negb (isfinite_all (data W1))) eqn:Hcheck; rewrite Hcase.
  - simpl. apply andb_true_iff in Hcheck as [-> _]. split; [done|].
    exists a. split_and!; [apply list_elem_of_here|by rewrite Hsp|done].
  - by apply Hgo.
Qed.

Lemma unmerge_loop_returns fuel : ∀ self,
  wf_layer self →
  (default true (kwargs self !! "use_idwt") = true → waverec2d_shape_contract) →
  has_shape (data (base_weight self)) (out_features self) (in_features self) →
  (unmerge_loop fuel self).1 = Ok ().
Proof.
  induction fuel as [|fuel IH]; intros self Hwf Hcontract HW; rewrite unmerge_loop_unfold.
  { by destruct (pop (merged_adapters self)) as [[a rest]|]. }
  destruct (pop (merged_adapters self)) as [[a rest]|]; [|done]. cbv zeta.
  destruct (bool_decide (is_Some (waveft_spectrum self !! a))) eqn:Hsome.
  - apply bool_decide_eq_true in Hsome.
    destruct (get_delta_weight_shape self a Hwf Hcontract Hsome) as (d & -> & Hshape & _).
    destruct (isub_returns (base_weight self) d _ _ HW Hshape) as (W1 & -> & HW1).
    by apply IH.
  - by apply IH.
Qed.

(** X12. On a well-formed layer whose base weight has the shape
    (out_features, in_features) (in IDWT mode given the shape contract of the
    reconstruction primitive), nothing goes wrong in [merge] and [unmerge]
    but the check of [safe_merge]: a plain [merge] returns, [unmerge]
    returns, and a safe [merge] returns or raises the [ValueError] about
    NaNs for one of the resolved, configured adapters. *)
Theorem merge_fails_only_on_non_finite_weights adapter_names self :
  wf_layer self →
  (default true (kwargs self !! "use_idwt") = true → waverec2d_shape_contract) →
  has_shape (data (base_weight self)) (out_features self) (in_features self) →
  (merge false adapter_names self).1 = Ok () ∧
  (unmerge self).1 = Ok () ∧
  ((merge true adapter_names self).1 = Ok () ∨
   ∃ adapter, adapter ∈ check_adapters_to_merge self adapter_names ∧
              is_Some (waveft_spectrum self !! adapter) ∧
              (merge true adapter_names self).1 = Raise (ValueError_nans_detected adapter)).
Proof.
  intros Hwf Hcontract HW.
  assert (∀ safe_merge,
    match (merge safe_merge adapter_names self).1 with
    | Ok _ => True
    | Raise e =>
        safe_merge = true ∧
        ∃ adapter, adapter ∈ check_adapters_to_merge self adapter_names ∧
                   is_Some (waveft_spectrum self !! adapter) ∧
                   e = ValueError_nans_detected adapter
    end) as Hmerge.
  { intros safe_merge. unfold merge. unfold mbind, method_bind, get_self.
    destruct (check_adapters_to_merge self adapter_names) as [|a names]; [done|].
    pose proof (for_each_merge_returns self safe_merge (a :: names)
                  (base_weight self) (merged_adapters self) Hwf Hcontract HW) as Hloop.
    by rewrite layer_eta in Hloop. }
  split_and!.
  - specialize (Hmerge false). destruct (merge false adapter_names self).1 as [[]|e]; [done|].
    by destruct Hmerge as [? _].
  - rewrite unmerge_unfold. destruct (negb (merged self)); [done|].
    by apply unmerge_loop_returns.
  - specialize (Hmerge true). destruct (merge true adapter_names self).1 as [[]|e]; [by left|].
    destruct Hmerge as (_ & a & Ha & Hsome & ->). right. by exists a.
Qed.
End Totality.

(** *** The constructor *)

Section Constructor.
Context `{!Collaborators}.

(** [update_layer] does not touch [fan_in_fan_out]. *)
Lemma update_layer_keeps_fan_in_fan_out name n_frequency scaling init_weights seed family self :
  fan_in_fan_out (update_layer name n_frequency scaling init_weights seed family self).2
  = fan_in_fan_out self.
Proof.
  pose proof (update_layer_raises name n_frequency scaling init_weights seed family self)
    as (Hneg & Hbig & Hunk). simpl in *.
  destruct (decide (n_frequency ≤ 0)) as [?|Hpos]; [by rewrite Hneg|].
  destruct (decide (n_frequency > in_features self * out_features self)) as [?|Hle];
    [by rewrite Hbig by lia|].
  destruct (assoc WAVELET_REDUCTIONS family) as [red|] eqn:Hfam;
    [|by rewrite Hunk by (done || lia)].
  unfold update_layer. run.
  rewrite !bool_decide_eq_false_2 by lia.
  rewrite (bool_decide_eq_false_2 (assoc _ _ = None)) by (rewrite Hfam; discriminate).
  rewrite Hfam. simpl. unfold getitem. simpl. rewrite lookup_insert_eq.
  destruct init_weights; simpl.
  - unfold reset_wave_parameters. run. rewrite lookup_insert_eq.
    unfold set_adapter, _move_adapter_to_device_of_base_layer. by run.
  - unfold set_adapter, _move_adapter_to_device_of_base_layer. by run.
Qed.

(** X13. [WaveFTLinear.__init__] refuses a base layer that is neither a
    linear layer nor a [Conv1D], before it looks at any other argument.  When
    it returns, the layer has exactly one adapter, the one it was given the
    name of, which is the active one; nothing is merged, the adapters are
    enabled, the base weight is the one of the base layer, the arguments
    [use_idwt] and [fan_in_fan_out] are stored, the first of them under
    [kwargs]; and the count and the family were valid. *)
Theorem constructor_configures_one_adapter base adapter_name n_frequency scaling
    fan_in_fan_out_arg init_weights random_loc_seed wavelet_family use_idwt kw :
  let outcome := WaveFTLinear_init base adapter_name n_frequency scaling fan_in_fan_out_arg
                   init_weights random_loc_seed wavelet_family use_idwt kw in
  (∀ weight, base = OtherModule weight → outcome = Raise ValueError_unsupported_layer) ∧
  (∀ self, outcome = Ok self →
     (∀ adapter, is_Some (waveft_spectrum self !! adapter) ↔ adapter = adapter_name) ∧
     active_adapters self = [adapter_name] ∧
     merged_adapters self = [] ∧
     disable_adapters self = false ∧
     kwargs self !! "use_idwt" = Some use_idwt ∧
     fan_in_fan_out self = Some fan_in_fan_out_arg ∧
     base_weight self = match base with
                        | Linear _ _ weight | Conv1D weight _ | OtherModule weight => weight
                        end ∧
     0 < n_frequency ≤ in_features self * out_features self ∧
     is_Some (assoc WAVELET_REDUCTIONS wavelet_family) ∧
     waveft_scaling self !! adapter_name = Some scaling ∧
     waveft_random_loc_seed self !! adapter_name = Some random_loc_seed).
Proof.
  simpl. split; [by intros weight ->|].
  intros self. unfold WaveFTLinear_init.
  destruct (WaveFTLayer_init base (<["use_idwt":=use_idwt]> kw) [adapter_name])
    as [self0|e] eqn:Hinit; [|discriminate]. rbind. cbv zeta.
  set (self1 := set_fan_in_fan_out (Some fan_in_fan_out_arg) self0).
  assert (waveft_spectrum self1 = ∅ ∧ waveft_scaling self1 = ∅ ∧
          waveft_random_loc_seed self1 = ∅ ∧
          active_adapters self1 = [adapter_name] ∧ merged_adapters self1 = [] ∧
          disable_adapters self1 = false ∧ kwargs self1 = <["use_idwt":=use_idwt]> kw ∧
          base_weight self1 = match base with
                              | Linear _ _ weight | Conv1D weight _ | OtherModule weight => weight
                              end) as (Hsp0 & Hsc0 & Hseed0 & Hact0 & Hm0 & Hd0 & Hkw0 & Hw0).
  { destruct base as [i o w|w [[i o]|]|w]; simpl in Hinit; try discriminate;
      injection Hinit as <-; by split_and!. }
  pose proof (update_layer_keeps_fan_in_fan_out adapter_name n_frequency scaling init_weights
                random_loc_seed wavelet_family self1) as Hfan.
  pose proof (update_layer_raises adapter_name n_frequency scaling init_weights random_loc_seed
                wavelet_family self1) as (Hneg & Hbig & Hunk). cbv zeta in Hneg, Hbig, Hunk.
  destruct (decide (n_frequency ≤ 0)) as [?|Hpos]; [by rewrite Hneg|].
  destruct (decide (n_frequency > in_features self1 * out_features self1)) as [?|Hle];
    [by rewrite Hbig by lia|].
  destruct (assoc WAVELET_REDUCTIONS wavelet_family) as [red|] eqn:Hfam;
    [|by rewrite Hunk by (done || lia)].
  destruct (update_layer_ok adapter_name n_frequency scaling init_weights random_loc_seed
              wavelet_family self1)
    as (s & Hs & Hw & Hd & Hm & Hkw & Hin & Hout & Hact & Hnf & Hsc & Hwv & Hseed & Hidx & Hsp);
    [lia|by rewrite Hfam|].
  rewrite Hs in Hfan |- *. intros [= <-]. split_and!.
  - intros adapter. rewrite Hsp, Hsp0. destruct (decide (adapter = adapter_name)) as [->|Hne].
    + rewrite lookup_insert_eq. by split.
    + rewrite lookup_insert_ne by done. rewrite lookup_empty. split; [by intros [? ?]|done].
  - congruence.
  - congruence.
  - congruence.
  - rewrite Hkw, Hkw0. by rewrite lookup_insert_eq.
  - exact Hfan.
  - congruence.
  - lia.
  - rewrite Hin, Hout. lia.
  - done.
  - rewrite Hsc. by rewrite lookup_insert_eq.
  - rewrite Hseed. by rewrite lookup_insert_eq.
Qed.

(** X14. The constructor establishes the representation invariant, given a
    generator whose [randperm] is a permutation and a base layer of
    non-negative dimensions; the base weight of a linear layer of the
    declared shape has the shape (out_features, in_features) in the layer. *)
Theorem constructor_establishes_invariant base adapter_name n_frequency scaling
    fan_in_fan_out init_weights random_loc_seed wavelet_family use_idwt kw self :
  randperm_contract →
  match base with
  | Linear in_features out_features weight =>
      0 ≤ in_features ∧ 0 ≤ out_features ∧ has_shape (data weight) out_features in_features
  | Conv1D _ (Some (in_features, out_features)) => 0 ≤ in_features ∧ 0 ≤ out_features
  | _ => True
  end →
  WaveFTLinear_init base adapter_name n_frequency scaling fan_in_fan_out
    init_weights random_loc_seed wavelet_family use_idwt kw = Ok self →
  wf_layer self ∧
  (∀ i o w, base = Linear i o w →
            has_shape (data (base_weight self)) (out_features self) (in_features self)).
Proof.
  intros Hperm Hdims. unfold WaveFTLinear_init.
  destruct (WaveFTLayer_init base (<["use_idwt":=use_idwt]> kw) [adapter_name])
    as [self0|e] eqn:Hinit; [|discriminate]. rbind. cbv zeta.
  assert (wf_layer (set_fan_in_fan_out (Some fan_in_fan_out) self0)) as Hwf0.
  { change (wf_layer self0). eapply init_wf; [|exact Hinit].
    destruct base as [i o w|w [[i o]|]|w]; tauto. }
  pose proof (update_layer_fields adapter_name n_frequency scaling init_weights
                random_loc_seed wavelet_family
                (set_fan_in_fan_out (Some fan_in_fan_out) self0))
    as (Hw & _ & _ & _ & Hin & Hout & _).
  destruct (update_layer adapter_name n_frequency scaling init_weights random_loc_seed
              wavelet_family (set_fan_in_fan_out (Some fan_in_fan_out) self0))
    as [[[]|e] s] eqn:Hupd; [|discriminate].
  intros [= <-]. split.
  - eapply update_layer_wf; [done|exact Hwf0|exact Hupd].
  - intros i o w ->. simpl in Hinit. injection Hinit as <-.
    simpl in Hw, Hin, Hout. rewrite Hw, Hin, Hout. tauto.
Qed.
End Constructor.

(** *** forward, merged and unmerged *)

Section ForwardFacts.
Context `{!Collaborators}.
Local Abbreviation st self W M := (set_merged_adapters M (set_base_weight W self)).
Local Abbreviation configured self := (λ a : string, is_Some (waveft_spectrum self !! a)).




(** X16. What [forward] does to the layer.  With the adapters enabled, or
    with nothing merged, it leaves the layer as it is, also when it raises;
    with the adapters disabled it leaves the layer as [unmerge] leaves it.
    When it returns, a second call with the same input returns the same
    result and changes nothing any more; and then, if the adapters are
    disabled, nothing is merged. *)
Theorem forward_writes_only_by_unmerging x self :
  let outcome := forward x self in
  (disable_adapters self = false ∨ merged_adapters self = [] → outcome.2 = self) ∧
  (disable_adapters self = true → outcome.2 = (unmerge self).2) ∧
  (∀ result, outcome.1 = Ok result →
     forward x outcome.2 = (Ok result, outcome.2) ∧
     (disable_adapters self = true → merged_adapters outcome.2 = [])).
Proof.
  simpl. rewrite forward_refines_spec.
  assert (∀ s, merged_adapters s = [] → disable_adapters s = true →
               forward x s = (Ok (to (dtype_of x) (base_layer_forward (base_weight s) x)), s))
    as Hbase.
  { intros s HM Hd. rewrite forward_refines_spec. unfold forward_spec, merged.
    by rewrite HM, Hd, bool_decide_eq_false_2 by auto. }
  unfold forward_spec. rewrite unmerge_unfold. unfold merged.
  destruct (disable_adapters self) eqn:Hd.
  - destruct (merged_adapters self) as [|m ms] eqn:HM.
    + rewrite bool_decide_eq_false_2 by auto. simpl. split_and!; try done.
      intros result [= <-]. split; [by apply Hbase|done].
    + rewrite bool_decide_eq_true_2 by done. simpl negb. cbv iota.
      destruct (unmerge_loop_outcome (length (m :: ms)) self)
        as (W' & M' & Hfinal & _ & Hall & _).
      destruct (unmerge_loop (length (m :: ms)) self) as [[[]|e] s] eqn:Hloop; simpl in *.
      * split_and!; [by intros [?|?]|done|]. intros result [= <-].
        assert (M' = []) as -> by (apply Hall; [done|by rewrite HM]).
        subst s. split; [|done]. by apply Hbase.
      * split_and!; [by intros [?|?]|done|done].
  - destruct (bool_decide (merged_adapters self ≠ [])) eqn:Hm.
    + simpl. split_and!; try done. intros result [= <-]. split; [|done].
      rewrite forward_refines_spec. unfold forward_spec, merged. by rewrite Hd, Hm.
    + simpl. split_and!; try done. intros result Hres. split; [|done].
      rewrite forward_refines_spec. unfold forward_spec, merged. rewrite Hd, Hm.
      by destruct (add_contributions _ _ _ _) as [r|e]; simplify_eq/=.
Qed.

(** [add_deltas], one adapter at a time. *)
Lemma add_deltas_raise self adapters e :
  foldl (λ acc adapter,
           weight ← acc; delta_weight ← get_delta_weight self adapter; iadd weight delta_weight)
        (Raise e) adapters = Raise e.
Proof. induction adapters as [|a adapters IH]; simpl; [done|apply IH]. Qed.

Lemma add_deltas_cons self a adapters weight :
  add_deltas self (a :: adapters) weight =
  match get_delta_weight self a with
  | Ok delta_weight =>
      match iadd weight delta_weight with
      | Ok weight' => add_deltas self adapters weight'
      | Raise e => Raise e
      end
  | Raise e => Raise e
  end.
Proof.
  unfold add_deltas. simpl.
  destruct (get_delta_weight self a) as [d|e]; simpl; [|apply add_deltas_raise].
  destruct (iadd weight d) as [w|e]; [done|apply add_deltas_raise].
Qed.

Lemma for_each_merge_adds self safe_merge names : ∀ W M self',
  for_each (merge_adapter safe_merge) names (st self W M) = (Ok (), self') →
  add_deltas self (filter (configured self) names) W = Ok (base_weight self').
Proof.
  induction names as [|a names IH]; intros W M self' Hrun.
  { simpl in Hrun. unfold mret, method_ret in Hrun. by injection Hrun as <-. }
  simpl in Hrun. unfold mbind, method_bind in Hrun.
  destruct (waveft_spectrum self !! a) as [sp|] eqn:Hsp.
  2: { rewrite merge_adapter_skip in Hrun by done.
       rewrite filter_cons_False by (rewrite Hsp; by intros [? ?]). by eapply IH. }
  rewrite filter_cons_True by (by rewrite Hsp). rewrite add_deltas_cons.
  pose proof (merge_adapter_cases self W M safe_merge a ltac:(by rewrite Hsp)) as Hcase.
  destruct (get_delta_weight self a) as [d|e]; [|by rewrite Hcase in Hrun].
  destruct (iadd W d) as [W1|e]; [|by rewrite Hcase in Hrun].
  destruct (safe_merge && negb (isfinite_all (data W1))); rewrite Hcase in Hrun; [done|].
  by eapply IH.
Qed.

(** X17. What [merge] leaves in the base weight, and what [forward] then
    does with it.  When [merge] returns, the base weight is the one it
    started from with the delta weights of the resolved, configured
    adapters added to it one after the other, in that order, each addition
    rounded; and if anything is merged then, [forward] -- the adapters
    enabled -- is the base transform on that weight, cast to the dtype of
    the input: no adapter is applied a second time. *)
Theorem merged_weight_is_the_sum_of_the_deltas safe_merge adapter_names self self' :
  merge safe_merge adapter_names self = (Ok (), self') →
  add_deltas self
    (filter (λ a, is_Some (waveft_spectrum self !! a))
       (check_adapters_to_merge self adapter_names))
    (base_weight self)
  = Ok (base_weight self') ∧
  (disable_adapters self = false → merged_adapters self' ≠ [] →
   ∀ x, forward x self'
        = (Ok (to (dtype_of x) (base_layer_forward (base_weight self') x)), self')).
Proof.
  intros Hmerge.
  assert (for_each (merge_adapter safe_merge) (check_adapters_to_merge self adapter_names) self
          = (Ok (), self')) as Hloop.
  { rewrite <- Hmerge. unfold merge. unfold mbind, method_bind, get_self.
    by destruct (check_adapters_to_merge self adapter_names). }
  split.
  - apply (for_each_merge_adds self safe_merge _ (base_weight self) (merged_adapters self)).
    by rewrite layer_eta.
  - intros Hd Hm x.
    destruct (for_each_merge_outcome self safe_merge
                (check_adapters_to_merge self adapter_names)
                (base_weight self) (merged_adapters self))
      as (pushed & W' & Hfinal & _).
    rewrite layer_eta, Hloop in Hfinal. simpl in Hfinal.
    rewrite forward_refines_spec. unfold forward_spec, merged.
    rewrite (bool_decide_eq_true_2 _ Hm). rewrite Hfinal at 1. simpl. by rewrite Hd.
Qed.

End ForwardFacts.

(** *** Finite deltas *)

Lemma isfinite_all_get2 (m : matrix) :
  isfinite_all m = true ↔ ∀ (i j : nat) a, get2 m i j = Some a → isfinite a = true.
Proof.
  unfold isfinite_all, get2. split.
  - intros Hall i j a Hget. destruct (m !! i) as [row|] eqn:Hrow; [|done]. simpl in Hget.
    rewrite forallb_forall in Hall.
    specialize (Hall row ltac:(apply list_elem_of_In; by eapply list_elem_of_lookup_2)).
    rewrite forallb_forall in Hall.
    apply Hall, list_elem_of_In. by eapply list_elem_of_lookup_2.
  - intros Hall. apply forallb_forall. intros row Hrow%list_elem_of_In.
    apply list_elem_of_lookup_1 in Hrow as [i Hi].
    apply forallb_forall. intros a Ha%list_elem_of_In.
    apply list_elem_of_lookup_1 in Ha as [j Hj].
    apply (Hall i j). by rewrite Hi.
Qed.

Section FiniteDeltas.
Context `{!Collaborators}.

(** Finite sums have finite summands. *)
Lemma mzip_finite_right f (w d c : matrix) :
  (∀ x y, isfinite (f x y) = true → isfinite y = true) →
  mzip f w d = Ok c → isfinite_all c = true → isfinite_all d = true.
Proof.
  intros Hf. unfold mzip. destruct (same_shape w d) eqn:Hshape; [|discriminate].
  intros [= <-]. apply same_shape_Forall2 in Hshape. unfold isfinite_all.
  induction Hshape as [|r r' w d Hl _ IH]; [done|]. simpl.
  intros [Hrow Hrest]%andb_true_iff. rewrite IH by done. rewrite andb_true_r.
  clear -Hf Hl Hrow. revert r' Hl Hrow.
  induction r as [|x r IH]; intros [|y r'] Hl Hrow; try discriminate; [done|].
  simpl in *. apply andb_true_iff in Hrow as [Hxy Hrow].
  rewrite (Hf _ _ Hxy). simpl. apply IH; [by injection Hl|done].
Qed.

(** X18. In direct mode a non-finite entry of the spectrum shows in the
    delta weight of the adapter, whatever the scaling, and from there in any
    base weight the delta is added to: so a safe merge whose turn comes to
    such an adapter is refused.  Put the other way round: on a well-formed
    layer, a finite delta weight, or a finite sum with it, has a finite
    spectrum behind it. *)
Theorem non_finite_spectrum_shows_in_delta self adapter spectrum :
  wf_layer self →
  default true (kwargs self !! "use_idwt") = false →
  waveft_spectrum self !! adapter = Some spectrum →
  ∃ delta_weight,
    get_delta_weight self adapter = Ok delta_weight ∧
    (isfinite_all (data delta_weight) = true → forallb isfinite (data spectrum) = true) ∧
    (∀ weight candidate,
       iadd weight delta_weight = Ok candidate →
       isfinite_all (data candidate) = true → forallb isfinite (data spectrum) = true).
Proof.
  intros Hwf Hmode Hsp.
  destruct (wf_layer_adapter _ _ _ Hwf Hsp)
    as (n & k & fam & rows & cols & red & _ & Hk & _ & Hidx & _ & _ & _
        & Hlr & Hlc & Hr & Hc & _ & _ & _).
  destruct (direct_delta_weight_dense self adapter spectrum rows cols k Hwf Hmode Hsp Hidx Hk)
    as (dense & _ & Hdelta & _ & Hhit & _).
  eexists. split; [exact Hdelta|]. simpl.
  assert (isfinite_all (mscale dense k) = true → forallb isfinite (data spectrum) = true)
    as Hfinite.
  { rewrite isfinite_all_get2. intros Hfin. apply forallb_forall.
    intros v Hv%list_elem_of_In. apply list_elem_of_lookup_1 in Hv as [i Hi].
    destruct (lookup_lt_is_Some_2 rows i) as [r Hri];
      [rewrite Hlr; by eapply lookup_lt_Some|].
    destruct (lookup_lt_is_Some_2 cols i) as [c Hci];
      [rewrite Hlc; by eapply lookup_lt_Some|].
    specialize (Hhit i r c v Hri Hci Hi).
    specialize (Hfin (Z.to_nat r) (Z.to_nat c) (smul v (Fin k))).
    rewrite get2_mscale, Hhit in Hfin. apply (fmul_finite float32 v k). by apply Hfin. }
  split; [exact Hfinite|].
  intros weight candidate Hadd Hfin. apply Hfinite.
  unfold iadd in Hadd. cbv zeta in Hadd.
  destruct (mzip _ (data weight) _) as [c|e] eqn:Hzip; [|discriminate].
  injection Hadd as <-. simpl in *.
  eapply mzip_finite_right; [|exact Hzip|exact Hfin].
  intros x y Hxy. apply cast_finite in Hxy. by apply fadd_finite in Hxy as [_ ?].
Qed.

End FiniteDeltas.

(** *** The sub-band split *)

Lemma get2_quadrant m R C (top left : bool) (i j : nat) :
  has_shape m (2 * R) (2 * C) → 0 ≤ R → 0 ≤ C →
  Z.of_nat i < R → Z.of_nat j < C →
  get2 (slice2 m (if top then None else Some R) (if top then Some R else None)
                 (if left then None else Some C) (if left then Some C else None)) i j
  = get2 m (if top then i else Z.to_nat R + i)%nat (if left then j else Z.to_nat C + j)%nat.
Proof.
  intros Hm HR HC Hi Hj. unfold slice2, get2. rewrite list_lookup_fmap.
  assert (py_slice (if top then None else Some R) (if top then Some R else None) m
            !! i = m !! (if top then i else Z.to_nat R + i)%nat) as ->.
  { destruct top.
    - rewrite py_slice_take by done. apply lookup_take_lt. lia.
    - rewrite py_slice_drop by done. apply lookup_drop. }
  destruct (m !! (if top then i else Z.to_nat R + i)%nat) as [row|]; simpl; [|done].
  destruct left.
  - rewrite py_slice_take by done. apply lookup_take_lt. lia.
  - rewrite py_slice_drop by done. apply lookup_drop.
Qed.

(** X19. The split into sub-bands cuts the dense spectrum into its four
    quadrants and loses nothing: for a matrix of even sides (2R, 2C), entry
    (i, j) of [cA], [cH], [cV], [cD] is the entry (i, j), (i, C + j),
    (R + i, j), (R + i, C + j) of the matrix. *)
Theorem sub_bands_are_the_quadrants (dense_spectrum : tensor matrix) R C (i j : nat) :
  has_shape (data dense_spectrum) (2 * R) (2 * C) →
  Z.of_nat i < R → Z.of_nat j < C →
  let '(cA, (cH, cV, cD)) := sub_bands dense_spectrum in
  get2 (data cA) i j = get2 (data dense_spectrum) i j ∧
  get2 (data cH) i j = get2 (data dense_spectrum) i (Z.to_nat C + j) ∧
  get2 (data cV) i j = get2 (data dense_spectrum) (Z.to_nat R + i) j ∧
  get2 (data cD) i j = get2 (data dense_spectrum) (Z.to_nat R + i) (Z.to_nat C + j).
Proof.
  intros Hshape Hi Hj. unfold sub_bands.
  rewrite (has_shape_shape0 _ _ _ Hshape), (has_shape_shape1 _ _ _ Hshape) by lia.
  replace ((2 * R) `div` 2) with R by (rewrite Z.mul_comm, Z.div_mul; lia).
  replace ((2 * C) `div` 2) with C by (rewrite Z.mul_comm, Z.div_mul; lia).
  simpl. split_and!.
  - apply (get2_quadrant _ R C true true); auto; lia.
  - apply (get2_quadrant _ R C true false); auto; lia.
  - apply (get2_quadrant _ R C false true); auto; lia.
  - apply (get2_quadrant _ R C false false); auto; lia.
Qed.

(** *** Merging in two calls *)

Section MergeTwice.
Context `{!Collaborators}.
Local Abbreviation st self W M := (set_merged_adapters M (set_base_weight W self)).

Lemma merge_unfold safe_merge adapter_names self :
  merge safe_merge adapter_names self
  = for_each (merge_adapter safe_merge) (check_adapters_to_merge self adapter_names) self.
Proof.
  unfold merge. unfold mbind, method_bind, get_self.
  by destruct (check_adapters_to_merge self adapter_names).
Qed.

Lemma filter_not_merged (M pushed names : list string) :
  (∀ a, a ∈ names → a ∉ pushed) →
  filter (λ name, name ∉ M ++ pushed) names = filter (λ name, name ∉ M) names.
Proof.
  induction names as [|a names IH]; intros Hdisj; [done|].
  assert (a ∉ pushed) as Ha by apply Hdisj, list_elem_of_here.
  assert (filter (λ name, name ∉ M ++ pushed) names = filter (λ name, name ∉ M) names) as IH'.
  { apply IH. intros b Hb. by apply Hdisj, list_elem_of_further. }
  destruct (decide (a ∈ M)) as [HaM|HaM].
  - rewrite !filter_cons_False; [done|by intros H'; apply H'|].
    intros H'. apply H'. apply elem_of_app. by left.
  - rewrite !filter_cons_True; [by rewrite IH'|done|].
    intros [?|?]%elem_of_app; done.
Qed.

(** X20. Merging two lists of adapters that share no name in one call is
    merging the first list and then, if that returned, the second: same
    outcome, same layer, errors included. *)
Theorem merge_in_two_calls safe_merge names1 names2 self :
  (∀ a, a ∈ names1 → a ∉ names2) →
  merge safe_merge (Some (names1 ++ names2)) self =
  match merge safe_merge (Some names1) self with
  | (Ok _, self1) => merge safe_merge (Some names2) self1
  | (Raise e, self1) => (Raise e, self1)
  end.
Proof.
  intros Hdisj. rewrite !merge_unfold. unfold check_adapters_to_merge. cbn [default from_option id].
  rewrite filter_app, for_each_app.
  destruct (for_each_merge_outcome self safe_merge
              (filter (λ name, name ∉ merged_adapters self) names1)
              (base_weight self) (merged_adapters self))
    as (pushed & W' & Hfinal & Hpre & _).
  rewrite layer_eta in Hfinal.
  destruct (for_each _ _ self) as [[[]|e] self1]; [|done]. simpl in Hfinal. subst self1.
  rewrite merge_unfold. unfold check_adapters_to_merge. cbn [default from_option id].
  simpl merged_adapters. rewrite filter_not_merged; [done|].
  intros a Ha2 Hap. apply (Hdisj a); [|done].
  destruct Hpre as [rest Hrest].
  assert (a ∈ filter (λ a, is_Some (waveft_spectrum self !! a))
                (filter (λ name, name ∉ merged_adapters self) names1)) as Hin.
  { rewrite Hrest. apply elem_of_app. by left. }
  by apply list_elem_of_filter in Hin as [_ [_ Hin]%list_elem_of_filter].
Qed.
End MergeTwice.

(** *** The states a layer can reach *)

Section Reachable.
Context `{!Collaborators}.
Local Abbreviation st self W M := (set_merged_adapters M (set_base_weight W self)).





End Reachable.

(** * The concrete instance *)

Lemma has_shape_zip_with_app (a b : matrix) r c c' :
  has_shape a r c → has_shape b r c' → has_shape (zip_with app a b) r (c + c').
Proof.
  intros [Hla Ha] [Hlb Hb]. split; [rewrite length_zip_with; lia|].
  assert (length a = length b) as Hl by lia. clear Hla Hlb.
  revert b Hl Hb. induction Ha as [|ra a Hra _ IH]; intros [|rb b] Hl Hb; try discriminate;
    [constructor|].
  inversion Hb; subst. simpl. constructor; [rewrite length_app; lia|].
  apply IH; [by injection Hl|done].
Qed.

Lemma has_shape_app (a b : matrix) r r' c :
  has_shape a r c → has_shape b r' c → has_shape (a ++ b) (r + r') c.
Proof.
  intros [Hla Ha] [Hlb Hb]. split; [rewrite length_app; lia|]. by apply Forall_app.
Qed.

Lemma all_zero_zip_with_app (a b : matrix) :
  all_zero a → all_zero b → all_zero (zip_with app a b).
Proof.
  intros Ha. revert b. induction Ha as [|ra a Hra _ IH]; intros [|rb b] Hb; try constructor.
  - inversion Hb; subst. by apply Forall_app.
  - inversion Hb; subst. by apply IH.
Qed.

Lemma sample_randperm_contract : @randperm_contract Sample.collaborators.
Proof.
  intros seed n Hn. simpl. unfold rotate.
  rewrite Permutation_app_comm. by rewrite take_drop.
Qed.

Lemma sample_waverec2d_shape_contract : @waverec2d_shape_contract Sample.collaborators.
Proof.
  intros cA cH cV cD family r c HA HH HV HD. exists (2 * r), (2 * c). simpl.
  split_and!; [lia|lia|].
  replace (2 * r) with (r + r) by lia. replace (2 * c) with (c + c) by lia.
  apply has_shape_app; by apply has_shape_zip_with_app.
Qed.

Lemma sample_waverec2d_zero_contract : @waverec2d_zero_contract Sample.collaborators.
Proof.
  intros cA cH cV cD family HA HH HV HD. simpl.
  apply Forall_app. split; by apply all_zero_zip_with_app.
Qed.

(** * The theorems on the sample layers *)

#[local] Existing Instance Sample.collaborators.


(** Rounding shows after a round trip.  At 2^25 neighbouring float32 values
    are 4 apart: adding 2 leaves 2^25 (the tie goes to the even neighbour),
    and taking 2 away again gives 2^25 - 2, which float32 has. *)
Lemma heavy_weight_is_not_restored :
  ∃ V,
    unmerge (merge false None Sample.heavy).2 = (Ok (), set_base_weight V Sample.heavy) ∧
    get2 (data (base_weight Sample.heavy)) 2 1 = Some (Fin (2 ^ 25)) ∧
    get2 (data V) 2 1 = Some (Fin (2 ^ 25 - 2)).
Proof.
  eexists. split_and!; vm_compute; reflexivity.
Qed.

(** Overflow stays after a round trip.  2^127 + 2^127 is beyond float32: the
    merged entry is infinite, and taking the delta away again leaves it
    infinite; a safe merge refuses the adapter. *)
Lemma huge_weight_is_not_restored :
  ∃ V,
    unmerge (merge false None Sample.huge).2 = (Ok (), set_base_weight V Sample.huge) ∧
    get2 (data (base_weight Sample.huge)) 2 1 = Some (Fin (2 ^ 127)) ∧
    get2 (data V) 2 1 = Some (Inf false) ∧
    merge true None Sample.huge = (Raise (ValueError_nans_detected "default"), Sample.huge).
Proof.
  eexists. split_and!; vm_compute; reflexivity.
Qed.


Lemma forward_three_state_dispatch_witness :
  ∃ result,
    forward Sample.x (Sample.two_adapters true) = (Ok result, Sample.two_adapters true) ∧
    has_shape (data result) 2 3 ∧ dtype_of result = float16.
Proof.
  destruct (forward_three_state_dispatch Sample.x (Sample.two_adapters true))
    as (_ & Hdtype & _ & _ & _ & _ & Hreturns).
  destruct (Hreturns 2) as (result & Hrun & Hshape).
  - vm_compute. reflexivity.
  - vm_compute. reflexivity.
  - apply (bool_decide_unpack _). vm_compute. exact I.
  - intros _. apply sample_waverec2d_shape_contract.
  - apply (bool_decide_unpack _). vm_compute. exact I.
  - apply (bool_decide_unpack _). vm_compute. exact I.
  - exists result. split_and!; [exact Hrun|exact Hshape|]. apply (Hdtype _ _ Hrun).
Defined.

Lemma update_layer_indices_witness :
  ∃ self' rows cols,
    update_layer "default" 3 2 false 777 "db2" (Sample.blank true) = (Ok (), self') ∧
    indices self' !! "default" = Some (rows, cols) ∧
    Z.of_nat (length rows) = 3 ∧ NoDup (zip rows cols).
Proof.
  destruct (update_layer_indices "default" 3 2 false 777 "db2" (Sample.blank true))
    as (self' & rows & cols & Hrun & Hidx & _ & _ & _ & Hlr & _ & Hnd & _).
  - apply sample_randperm_contract.
  - vm_compute. discriminate.
  - vm_compute. discriminate.
  - vm_compute. split; [reflexivity|discriminate].
  - vm_compute. by eexists.
  - exists self', rows, cols. split_and!; [exact Hrun|exact Hidx|exact Hlr|exact Hnd].
Defined.

Lemma direct_delta_weight_witness :
  ∃ delta_weight,
    get_delta_weight (Sample.one_adapter false "db1") "default" = Ok delta_weight ∧
    get2 (data delta_weight) 2 3 = Some (Fin 6) ∧
    get2 (data delta_weight) 0 0 = Some (Fin 0).
Proof.
  destruct (direct_delta_weight (Sample.one_adapter false "db1") "default"
              (Tensor float32 [Fin 1; Fin 2; Fin 3]) [2; 2; 2] [1; 2; 3] 2)
    as (delta_weight & Hdelta & _ & _ & _ & _ & Hhit & Hmiss).
  - apply (bool_decide_unpack _). vm_compute. exact I.
  - vm_compute. reflexivity.
  - vm_compute. reflexivity.
  - vm_compute. reflexivity.
  - vm_compute. reflexivity.
  - exists delta_weight. split_and!; [exact Hdelta| |].
    + apply (Hhit 2%nat 2 3 (Fin 3)); reflexivity.
    + apply (Hmiss 0%nat 0%nat); [vm_compute; reflexivity|vm_compute; reflexivity|].
      apply (bool_decide_unpack _). vm_compute. exact I.
Defined.

Lemma idwt_filter_discards_nothing_witness :
  valid_mask (shift_indices ([2; 2; 2], [1; 2; 3]) 2 2) 8 8 = [true; true; true] ∧
  ∃ dense_spectrum,
    padded_dense_spectrum 3 4 (4, 4) (Tensor float32 [Fin 1; Fin 2; Fin 3]) ([2; 2; 2], [1; 2; 3])
    = Ok (Tensor float32 dense_spectrum) ∧
    get2 dense_spectrum 4 5 = Some (Fin 3).
Proof.
  destruct (idwt_filter_discards_nothing (Sample.one_adapter true "db2") "default"
              (Tensor float32 [Fin 1; Fin 2; Fin 3]) [2; 2; 2] [1; 2; 3] "db3" 4 4)
    as (_ & _ & Hmask & _ & _ & _ & dense & Hdense & _ & Hhit).
  - apply (bool_decide_unpack _). vm_compute. exact I.
  - vm_compute. reflexivity.
  - vm_compute. reflexivity.
  - vm_compute. reflexivity.
  - split; [exact Hmask|]. exists dense. split; [exact Hdense|].
    apply (Hhit 2%nat 2 3 (Fin 3)); reflexivity.
Defined.

Lemma safe_merge_rejects_non_finite_witness :
  let self := Sample.broken_other false in
  let self1 := (merge_adapter true "default" self).2 in
  merge true None self = (Raise (ValueError_nans_detected "other"), self1) ∧
  merged_adapters self1 = ["default"].
Proof.
  simpl.
  pose (self := Sample.broken_other false).
  pose (self1 := (merge_adapter true "default" self).2).
  pose (delta_weight := Sample.unwrap (Tensor float32 []) (get_delta_weight self1 "other")).
  pose (candidate := Sample.unwrap (Tensor float32 []) (iadd (base_weight self1) delta_weight)).
  destruct (safe_merge_rejects_non_finite self None ["default"] "other" [] self1
              delta_weight candidate) as (_ & Hmerge & _).
  - vm_compute. reflexivity.
  - vm_compute. reflexivity.
  - vm_compute. by eexists.
  - vm_compute. reflexivity.
  - vm_compute. reflexivity.
  - vm_compute. reflexivity.
  - split; [exact Hmerge|]. vm_compute. reflexivity.
Defined.

Lemma safe_merge_not_atomic_counterexample :
  let self := Sample.broken_other false in
  let outcome := merge true None self in
  outcome.1 = Raise (ValueError_nans_detected "other") ∧
  base_weight outcome.2 ≠ base_weight self ∧
  merged_adapters outcome.2 ≠ merged_adapters self.
Proof.
  simpl. split_and!.
  - vm_compute. reflexivity.
  - vm_compute. discriminate.
  - vm_compute. discriminate.
Qed.

Lemma update_layer_configuration_errors_witness :
  (update_layer "a" 0 1 true 0 "db1" (Sample.blank true)).1
    = Raise (ValueError_n_frequency_not_positive 0) ∧
  (update_layer "a" 13 1 true 0 "db1" (Sample.blank true)).1
    = Raise (ValueError_n_frequency_too_large 13 12) ∧
  (update_layer "a" 3 1 true 0 "db99" (Sample.blank true)).1
    = Raise (ValueError_unsupported_wavelet "db99" (WAVELET_REDUCTIONS.*1)) ∧
  (update_layer "a" 13 1 true 0 "db1" (Sample.blank true)).2 = Sample.blank true ∧
  ∀ e, (update_layer "a" 12 1 true 0 "db1" (Sample.blank true)).1 = Raise e →
       is_configuration_error e = false.
Proof.
  destruct (update_layer_configuration_errors "a" 0 1 true 0 "db1" (Sample.blank true))
    as (_ & Hneg & _).
  destruct (update_layer_configuration_errors "a" 13 1 true 0 "db1" (Sample.blank true))
    as (_ & _ & Hbig & _ & _ & Hkept).
  destruct (update_layer_configuration_errors "a" 3 1 true 0 "db99" (Sample.blank true))
    as (_ & _ & _ & Hunk & _).
  destruct (update_layer_configuration_errors "a" 12 1 true 0 "db1" (Sample.blank true))
    as (_ & _ & _ & _ & Hok & _).
  assert ((update_layer "a" 13 1 true 0 "db1" (Sample.blank true)).1
          = Raise (ValueError_n_frequency_too_large 13 12)) as H13
    by (apply Hbig; vm_compute; reflexivity).
  split_and!.
  - apply Hneg. vm_compute. discriminate.
  - exact H13.
  - apply Hunk; [vm_compute; split; [reflexivity|discriminate]|vm_compute; reflexivity].
  - apply (Hkept (ValueError_n_frequency_too_large 13 12) eq_refl H13).
  - apply Hok; [vm_compute; reflexivity|vm_compute; reflexivity|vm_compute; by eexists].
Defined.

Lemma zero_init_delta_is_zero_witness :
  ∃ delta_weight,
    get_delta_weight (update_layer "zero" 5 2 true 5 "coif1" (Sample.blank true)).2 "zero"
      = Ok delta_weight ∧
    data delta_weight = zeros 3 4.
Proof.
  destruct (zero_init_delta_is_zero "zero" 5 2 5 "coif1" (Sample.blank true)
              (update_layer "zero" 5 2 true 5 "coif1" (Sample.blank true)).2)
    as (_ & delta_weight & Hdelta & Hzero).
  - apply sample_randperm_contract.
  - apply (bool_decide_unpack _). vm_compute. exact I.
  - intros _. split;
      [apply sample_waverec2d_shape_contract|apply sample_waverec2d_zero_contract].
  - vm_compute. reflexivity.
  - exists delta_weight. split; [exact Hdelta|exact Hzero].
Defined.

Lemma idwt_delta_weight_shape_witness :
  ∃ delta_weight,
    get_delta_weight (Sample.one_adapter true "db2") "default" = Ok delta_weight ∧
    has_shape (data delta_weight) 3 4.
Proof.
  destruct (idwt_delta_weight_shape (Sample.one_adapter true "db2") "default"
              (Tensor float32 [Fin 1; Fin 2; Fin 3]) [2; 2; 2] [1; 2; 3] "db2" 2 (2, 2))
    as (dense & R & C & delta_weight & _ & _ & Hdelta & Hshape & _).
  - apply sample_waverec2d_shape_contract.
  - apply (bool_decide_unpack _). vm_compute. exact I.
  - vm_compute. reflexivity.
  - vm_compute. reflexivity.
  - vm_compute. reflexivity.
  - vm_compute. reflexivity.
  - vm_compute. reflexivity.
  - vm_compute. reflexivity.
  - exists delta_weight. split; [exact Hdelta|exact Hshape].
Defined.


(** * The further properties on the sample layers *)

Lemma safe_merge_agrees_with_plain_merge_witness :
  merge false None (Sample.two_adapters true)
  = (Ok (), (merge true None (Sample.two_adapters true)).2).
Proof.
  apply safe_merge_agrees_with_plain_merge. vm_compute. reflexivity.
Defined.

Lemma merge_pushes_configured_names_witness :
  merged_adapters (merge false (Some ["other"; "absent"; "default"]) (Sample.two_adapters true)).2
  = ["other"; "default"].
Proof.
  destruct (merge_pushes_configured_names false (Some ["other"; "absent"; "default"])
              (Sample.two_adapters true)) as (pushed & Hstack & _ & Hall).
  rewrite Hstack, Hall; vm_compute; reflexivity.
Defined.

Lemma merge_writes_weight_and_stack_only_witness :
  let self' := (merge true None (Sample.broken_other true)).2 in
  dtype_of (base_weight self') = float32 ∧ has_shape (data (base_weight self')) 3 4 ∧
  get_delta_weight self' "other" = get_delta_weight (Sample.broken_other true) "other".
Proof.
  destruct (merge_writes_weight_and_stack_only true None (Sample.broken_other true))
    as (_ & Hdelta & Hdtype & Hshape).
  cbv zeta. split_and!; [by rewrite Hdtype| |by rewrite Hdelta].
  apply Hshape. apply (bool_decide_unpack _). vm_compute. exact I.
Defined.

Lemma safe_merge_keeps_weight_finite_witness :
  let outcome := merge true None (Sample.broken_other false) in
  outcome.1 = Raise (ValueError_nans_detected "other") ∧
  isfinite_all (data (base_weight outcome.2)) = true.
Proof.
  cbv zeta. split; [vm_compute; reflexivity|].
  destruct (safe_merge_keeps_weight_finite None (Sample.broken_other false)) as [Hkept _].
  apply Hkept. vm_compute. reflexivity.
Defined.

Lemma unmerge_empties_the_stack_witness :
  merged_adapters (Sample.merged_default true) = ["default"] ∧
  merged_adapters (unmerge (Sample.merged_default true)).2 = [].
Proof.
  split; [vm_compute; reflexivity|].
  destruct (unmerge_empties_the_stack (Sample.merged_default true))
    as (_ & _ & _ & _ & _ & Hempty).
  apply Hempty. vm_compute. reflexivity.
Defined.

Lemma update_layer_leaves_other_adapters_witness :
  let self := Sample.two_adapters true in
  let self' := (update_layer "default" 12 7 true 1 "sym4" self).2 in
  waveft_spectrum self' !! "default" ≠ waveft_spectrum self !! "default" ∧
  get_delta_weight self' "other" = get_delta_weight self "other".
Proof.
  cbv zeta. split; [vm_compute; discriminate|].
  destruct (update_layer_leaves_other_adapters "default" 12 7 true 1 "sym4"
              (Sample.two_adapters true)) as (_ & _ & _ & _ & _ & _ & Hother).
  apply (Hother "other"). discriminate.
Defined.

Lemma stored_indices_decode_to_flat_positions_witness :
  ∃ rows cols,
    indices (Sample.one_adapter true "db2") !! "default" = Some (rows, cols) ∧
    zip_with (λ r c, r * 4 + c) rows cols = [9; 10; 11].
Proof.
  destruct (stored_indices_decode_to_flat_positions "default" 3 2 false 777 "db2" (Sample.blank true)
              (Sample.one_adapter true "db2")) as (rows & cols & Hidx & Hdecode).
  - vm_compute. reflexivity.
  - exists rows, cols. split; [exact Hidx|]. etrans; [exact Hdecode|].
    vm_compute. reflexivity.
Defined.

Lemma update_layer_dense_covers_grid_witness :
  ∃ rows cols,
    indices (update_layer "dense" 12 1 true 5 "db1" (Sample.blank false)).2 !! "dense"
    = Some (rows, cols) ∧
    (2, 3) ∈ zip rows cols ∧ (0, 0) ∈ zip rows cols.
Proof.
  destruct (update_layer_dense_covers_grid "dense" 1 true 5 "db1" (Sample.blank false)
              (update_layer "dense" 12 1 true 5 "db1" (Sample.blank false)).2)
    as (rows & cols & Hidx & _ & _ & Hcover).
  - apply sample_randperm_contract.
  - vm_compute. discriminate.
  - vm_compute. discriminate.
  - vm_compute. reflexivity.
  - exists rows, cols. split_and!; [exact Hidx| |]; apply Hcover; vm_compute;
      (split; [discriminate|reflexivity]).
Defined.

Lemma idwt_sub_bands_have_equal_shape_witness :
  ∃ dense_spectrum cA cH cV cD,
    padded_dense_spectrum 3 4 (2, 2) (Tensor float32 [Fin 1; Fin 2; Fin 3]) ([2; 2; 2], [1; 2; 3])
    = Ok dense_spectrum ∧
    sub_bands dense_spectrum = (cA, (cH, cV, cD)) ∧
    Forall (λ band : tensor matrix, has_shape (data band) 3 3 ∧ dtype_of band = float32)
      [cA; cH; cV; cD].
Proof.
  destruct (idwt_sub_bands_have_equal_shape (Sample.one_adapter true "db2") "default"
              (Tensor float32 [Fin 1; Fin 2; Fin 3]) [2; 2; 2] [1; 2; 3] "db2" 2 2)
    as (dense & cA & cH & cV & cD & Hdense & Hbands & _ & _ & Hshape).
  - apply (bool_decide_unpack _). vm_compute. exact I.
  - vm_compute. reflexivity.
  - vm_compute. reflexivity.
  - vm_compute. reflexivity.
  - exists dense, cA, cH, cV, cD. split_and!; [exact Hdense|exact Hbands|exact Hshape].
Defined.

Lemma merge_fails_only_on_non_finite_weights_witness :
  let self := Sample.broken_other false in
  (merge false None self).1 = Ok () ∧ (unmerge self).1 = Ok () ∧
  (merge true None self).1 = Raise (ValueError_nans_detected "other").
Proof.
  destruct (merge_fails_only_on_non_finite_weights None (Sample.broken_other false))
    as (Hplain & Hunmerge & _).
  - apply (bool_decide_unpack _). vm_compute. exact I.
  - intros Hmode. vm_compute in Hmode. discriminate.
  - apply (bool_decide_unpack _). vm_compute. exact I.
  - cbv zeta. split_and!; [exact Hplain|exact Hunmerge|vm_compute; reflexivity].
Defined.

Lemma constructor_establishes_invariant_witness :
  ∃ self,
    WaveFTLinear_init Sample.base "default" 3 2 false true 777 "db2" true ∅ = Ok self ∧
    wf_layer self ∧ has_shape (data (base_weight self)) (out_features self) (in_features self).
Proof.
  pose (self := Sample.unwrap (Sample.blank true)
                 (WaveFTLinear_init Sample.base "default" 3 2 false true 777 "db2" true ∅)).
  assert (WaveFTLinear_init Sample.base "default" 3 2 false true 777 "db2" true ∅ = Ok self)
    as Hinit by (vm_compute; reflexivity).
  exists self. split; [exact Hinit|].
  destruct (constructor_establishes_invariant Sample.base "default" 3 2 false true 777 "db2"
              true ∅ self sample_randperm_contract) as [Hwf Hshape].
  - apply (bool_decide_unpack _). vm_compute. exact I.
  - exact Hinit.
  - split; [exact Hwf|]. by apply (Hshape 4 3 _ eq_refl).
Defined.


Lemma forward_writes_only_by_unmerging_witness :
  ∃ result,
    (forward Sample.x (set_disable_adapters true (Sample.merged_default true))).1 = Ok result ∧
    merged_adapters (set_disable_adapters true (Sample.merged_default true)) = ["default"] ∧
    merged_adapters (forward Sample.x (set_disable_adapters true (Sample.merged_default true))).2
    = [] ∧
    forward Sample.x (forward Sample.x (set_disable_adapters true (Sample.merged_default true))).2
    = (Ok result, (forward Sample.x (set_disable_adapters true (Sample.merged_default true))).2).
Proof.
  pose (self := set_disable_adapters true (Sample.merged_default true)).
  pose (result := Sample.unwrap Sample.x (forward Sample.x self).1).
  assert ((forward Sample.x self).1 = Ok result) as Hrun by (vm_compute; reflexivity).
  destruct (forward_writes_only_by_unmerging Sample.x self) as (_ & _ & Hagain).
  destruct (Hagain result Hrun) as [Hsame Hempty].
  exists result. split_and!; [exact Hrun|vm_compute; reflexivity| |exact Hsame].
  apply Hempty. vm_compute. reflexivity.
Defined.

Lemma merge_in_two_calls_witness :
  merge false (Some ["other"; "default"]) (Sample.two_adapters true)
  = merge false (Some ["default"]) (merge false (Some ["other"]) (Sample.two_adapters true)).2.
Proof.
  etrans; [apply (merge_in_two_calls false ["other"] ["default"])|].
  - intros a Ha%list_elem_of_singleton Hd%list_elem_of_singleton. by subst.
  - vm_compute. reflexivity.
Defined.

Lemma sub_bands_are_the_quadrants_witness :
  let dense_spectrum :=
    Tensor float32 (Sample.fin_matrix [[1; 2; 3; 4]; [5; 6; 7; 8]; [9; 10; 11; 12];
                                       [13; 14; 15; 16]]) in
  get2 (data (sub_bands dense_spectrum).2.2) 1 0 = Some (Fin 15).
Proof.
  cbv zeta.
  pose proof (sub_bands_are_the_quadrants
                (Tensor float32 (Sample.fin_matrix [[1; 2; 3; 4]; [5; 6; 7; 8]; [9; 10; 11; 12];
                                                    [13; 14; 15; 16]])) 2 2 1 0) as Hsplit.
  destruct (sub_bands _) as [cA [[cH cV] cD]].
  destruct Hsplit as (_ & _ & _ & HD).
  - apply (bool_decide_unpack _). vm_compute. exact I.
  - reflexivity.
  - reflexivity.
  - etrans; [exact HD|]. vm_compute. reflexivity.
Defined.

Lemma reset_wave_parameters_zeroes_adapter_witness :
  (∃ delta_weight,
     get_delta_weight (reset_wave_parameters "default" (Sample.two_adapters true)).2 "default"
     = Ok delta_weight ∧
     data delta_weight = zeros 3 4) ∧
  get_delta_weight (reset_wave_parameters "default" (Sample.two_adapters true)).2 "other"
  = get_delta_weight (Sample.two_adapters true) "other".
Proof.
  destruct (reset_wave_parameters_zeroes_adapter "default" (Sample.two_adapters true))
    as (_ & _ & _ & Hother & _ & _ & Hzero).
  split.
  - apply Hzero.
    + apply (bool_decide_unpack _). vm_compute. exact I.
    + intros _. split;
        [apply sample_waverec2d_shape_contract|apply sample_waverec2d_zero_contract].
    + vm_compute. by eexists.
  - apply Hother. discriminate.
Defined.

Lemma get_delta_weight_fails_on_missing_adapter_only_witness :
  (∃ e, get_delta_weight (Sample.two_adapters true) "absent" = Raise e) ∧
  ∃ delta_weight, get_delta_weight (Sample.two_adapters true) "other" = Ok delta_weight.
Proof.
  destruct (get_delta_weight_fails_on_missing_adapter_only (Sample.two_adapters true) "absent")
    as [Hmissing _].
  destruct (get_delta_weight_fails_on_missing_adapter_only (Sample.two_adapters true) "other")
    as [_ Hconfigured].
  split.
  - apply Hmissing. vm_compute. reflexivity.
  - apply Hconfigured.
    + apply (bool_decide_unpack _). vm_compute. exact I.
    + intros _. apply sample_waverec2d_shape_contract.
    + vm_compute. by eexists.
Defined.

Lemma constructor_configures_one_adapter_witness :
  ∃ self,
    WaveFTLinear_init Sample.base "default" 3 2 true false 777 "db2" false ∅ = Ok self ∧
    kwargs self !! "use_idwt" = Some false ∧ fan_in_fan_out self = Some true ∧
    active_adapters self = ["default"] ∧
    merged_adapters self = [] ∧ is_Some (waveft_spectrum self !! "default").
Proof.
  destruct (constructor_configures_one_adapter Sample.base "default" 3 2 true false 777 "db2"
              false ∅) as [_ Hpost].
  pose (self := Sample.unwrap (Sample.blank true)
                 (WaveFTLinear_init Sample.base "default" 3 2 true false 777 "db2" false ∅)).
  assert (WaveFTLinear_init Sample.base "default" 3 2 true false 777 "db2" false ∅ = Ok self)
    as Hinit by (vm_compute; reflexivity).
  exists self. split; [exact Hinit|].
  destruct (Hpost self Hinit) as (Hone & Hactive & Hmerged & _ & Hflag & Hfan & _).
  split_and!; [exact Hflag|exact Hfan|exact Hactive|exact Hmerged|]. by apply Hone.
Defined.

Lemma merged_weight_is_the_sum_of_the_deltas_witness :
  let self := Sample.two_adapters true in
  let self' := (merge true None self).2 in
  add_deltas self ["default"; "other"] (base_weight self) = Ok (base_weight self') ∧
  forward Sample.x self'
  = (Ok (to float16 (base_layer_forward (base_weight self') Sample.x)), self').
Proof.
  cbv zeta.
  pose (self := Sample.two_adapters true).
  pose (self' := (merge true None self).2).
  assert (merge true None self = (Ok (), self')) as Hmerge by (vm_compute; reflexivity).
  destruct (merged_weight_is_the_sum_of_the_deltas true None self self' Hmerge)
    as [Hsum Hforward].
  split.
  - etrans; [|exact Hsum]. vm_compute. reflexivity.
  - apply Hforward; [vm_compute; reflexivity|vm_compute; discriminate].
Defined.

Lemma non_finite_spectrum_shows_in_delta_witness :
  ∃ delta_weight,
    get_delta_weight (Sample.broken_other false) "other" = Ok delta_weight ∧
    isfinite_all (data delta_weight) = false.
Proof.
  destruct (non_finite_spectrum_shows_in_delta (Sample.broken_other false) "other"
              (Tensor float32 [Fin 1; NaN])) as (delta_weight & Hdelta & Hfin & _).
  - apply (bool_decide_unpack _). vm_compute. exact I.
  - vm_compute. reflexivity.
  - vm_compute. reflexivity.
  - exists delta_weight. split; [exact Hdelta|].
    destruct (isfinite_all (data delta_weight)); [|done].
    specialize (Hfin eq_refl). vm_compute in Hfin. discriminate.
Defined.

